(** * json-mcp: ingestion, shape projection and size accounting

    A shallow embedding of the TypeScript sources of the json-mcp server
    (index.ts, LocalFileStrategy.ts, HttpJsonStrategy.ts,
    JsonIngestionStrategy.ts, JsonIngestionContext.ts, and the earlier
    HttpsJsonStrategy.ts and LocalFileStrategy.ts) and the properties of
    its projector, its size accountant and its ingestion strategies.

    Conventions of the embedding.
    - A JavaScript string is its sequence of UTF-16 code units; byte
      lengths are those of [TextEncoder.encode].
    - JavaScript numbers that hold sizes, status codes and lengths are
      mathematical integers (exact below 2^53, printed in plain decimal).
      A number of a document is kept as its canonical rendering
      ([Number::toString]), the only observation the program makes on it.
    - An object is the list of its own enumerable properties, in the
      order of their creation (JavaScript enumerates integer-like keys
      first, in ascending order; a shape is given in its enumeration
      order).  A read [data[key]] of the two traversals is embedded as a
      read of an own property ([getProp]) and an assignment
      [result[key] = v] as the creation of an own property ([objSet]).
      What a value inherits from the built-in prototypes, and the setter
      of [__proto__], are outside these two definitions: a statement
      that would depend on them carries a hypothesis on the keys of the
      shape ([noProtoKey], [noInheritedKey], [flatShape],
      [descendsObjects]).  The merge of size breakdowns reads the
      members of [Object.prototype] as the program does ([getMember]).
    - Built-ins of the runtime ([JSON.parse], [new URL], [path.resolve])
      are fields of a [Runtime] record; the file system and the network
      are a [World] that answers the events of an [IO] tree. *)

From Equations Require Import Equations.
From Stdlib Require Import List ZArith NArith Lia Bool Ascii String DecimalString.
From Stdlib Require Import Permutation.
Import ListNotations.
Local Open Scope Z_scope.
Set Warnings "-register-all".

(** ** JavaScript strings *)

Module JsString.

Definition codeUnit := N.
Definition jsstring := list codeUnit.

(** An ASCII literal as a JavaScript string. *)
Definition js (s : string) : jsstring :=
  map N_of_ascii (list_ascii_of_string s).
Arguments js : simpl never.

Fixpoint eqb (a b : jsstring) : bool :=
  match a, b with
  | [], [] => true
  | x :: a', y :: b' => N.eqb x y && eqb a' b'
  | _, _ => false
  end.

(** [String.prototype.length] *)
Definition length (s : jsstring) : Z := Z.of_nat (List.length s).

(** [s.startsWith(prefix)] *)
Fixpoint startsWith (s prefix : jsstring) : bool :=
  match prefix, s with
  | [], _ => true
  | p :: prefix', c :: s' => N.eqb c p && startsWith s' prefix'
  | _ :: _, [] => false
  end.

(** [s.substring(0, n)] *)
Definition substring0 (s : jsstring) (n : nat) : jsstring := firstn n s.

Definition isHighSurrogate (c : codeUnit) : bool :=
  (N.leb 55296 c && N.leb c 56319)%N.
Definition isLowSurrogate (c : codeUnit) : bool :=
  (N.leb 56320 c && N.leb c 57343)%N.

(** [new TextEncoder().encode(s).length]: one to three bytes for a code
    unit of the basic plane, four for a surrogate pair, three (U+FFFD)
    for a lone surrogate. *)
Fixpoint utf8Length (s : jsstring) : Z :=
  match s with
  | [] => 0
  | c :: rest =>
      if N.ltb c 128 then 1 + utf8Length rest
      else if N.ltb c 2048 then 2 + utf8Length rest
      else if isHighSurrogate c then
        match rest with
        | d :: rest' =>
            if isLowSurrogate d then 4 + utf8Length rest'
            else 3 + utf8Length rest
        | [] => 3
        end
      else 3 + utf8Length rest
  end.

(** Decimal rendering of an integer, [String(n)] for a safe integer. *)
Definition ofInt (n : Z) : jsstring :=
  js (NilZero.string_of_int (Z.to_int n)).

Definition hexDigit (n : N) : codeUnit :=
  (if N.ltb n 10 then 48 + n else 87 + n)%N.

(** The [\uXXXX] escape of a code unit, lower-case hexadecimal. *)
Definition unicodeEscape (c : codeUnit) : jsstring :=
  [92; 117;
   hexDigit (N.modulo (N.div c 4096) 16); hexDigit (N.modulo (N.div c 256) 16);
   hexDigit (N.modulo (N.div c 16) 16); hexDigit (N.modulo c 16)]%N.

(** The two-character escapes of QuoteJSONString: backspace, tab, line
    feed, form feed, carriage return, double quote, backslash. *)
Definition shortEscape (c : codeUnit) : option codeUnit :=
  (if N.eqb c 8 then Some 98
   else if N.eqb c 9 then Some 116
   else if N.eqb c 10 then Some 110
   else if N.eqb c 12 then Some 102
   else if N.eqb c 13 then Some 114
   else if N.eqb c 34 then Some 34
   else if N.eqb c 92 then Some 92
   else None)%N.

(** The characters of [JSON.stringify(s)] between the two quotes. *)
Fixpoint quoteBody (s : jsstring) : jsstring :=
  match s with
  | [] => []
  | c :: rest =>
      match shortEscape c with
      | Some e => 92%N :: e :: quoteBody rest
      | None =>
          if N.ltb c 32 then unicodeEscape c ++ quoteBody rest
          else if isHighSurrogate c then
            match rest with
            | d :: rest' =>
                if isLowSurrogate d then c :: d :: quoteBody rest'
                else unicodeEscape c ++ quoteBody rest
            | [] => unicodeEscape c
            end
          else if isLowSurrogate c then unicodeEscape c ++ quoteBody rest
          else c :: quoteBody rest
      end
  end.

(** [JSON.stringify(s)] for a string [s] (QuoteJSONString). *)
Definition quote (s : jsstring) : jsstring :=
  34%N :: quoteBody s ++ [34%N].

(** [parts.join(sep)] *)
Fixpoint join (sep : jsstring) (parts : list jsstring) : jsstring :=
  match parts with
  | [] => []
  | [p] => p
  | p :: rest => p ++ sep ++ join sep rest
  end.

(** [s.toLowerCase()] on the ASCII letters. *)
Definition toLowerCase (s : jsstring) : jsstring :=
  map (fun c => if (N.leb 65 c && N.leb c 90)%N then (c + 32)%N else c) s.

(** [s.includes(needle)] *)
Fixpoint includes (s needle : jsstring) : bool :=
  startsWith s needle ||
  match s with
  | [] => false
  | _ :: s' => includes s' needle
  end.

Definition isWhiteSpace (c : codeUnit) : bool :=
  (N.eqb c 32 || N.eqb c 9 || N.eqb c 10 || N.eqb c 11 || N.eqb c 12 ||
   N.eqb c 13 || N.eqb c 160 || N.eqb c 5760 || (N.leb 8192 c && N.leb c 8202) ||
   N.eqb c 8232 || N.eqb c 8233 || N.eqb c 8239 || N.eqb c 8287 ||
   N.eqb c 12288 || N.eqb c 65279)%N.

(** [s.trim() === ''] *)
Definition trimIsEmpty (s : jsstring) : bool := forallb isWhiteSpace s.

End JsString.
Export JsString.

(** ** Values and exceptions *)

Module JsValues.

(** A number of the document.  A finite number is its canonical decimal
    rendering; [JSON.parse] also yields the infinities (on overflow). *)
Inductive JsNumber : Type :=
| NumFinite (repr : jsstring)
| NumInfinity (negative : bool)
| NumNaN.

(** [n.toString()] *)
Definition Number_toString (n : JsNumber) : jsstring :=
  match n with
  | NumFinite repr => repr
  | NumInfinity false => js "Infinity"
  | NumInfinity true => js "-Infinity"
  | NumNaN => js "NaN"
  end.

Definition numberOfInt (n : Z) : JsNumber := NumFinite (ofInt n).

Unset Elimination Schemes.
Inductive JsValue : Type :=
| JUndefined
| JNull
| JBool (b : bool)
| JNumber (n : JsNumber)
| JString (s : jsstring)
| JArray (items : list JsValue)
| JObject (props : list (jsstring * JsValue)).
Set Elimination Schemes.

Definition Props := list (jsstring * JsValue).

(** What a [catch] clause receives: an [Error] object or another value. *)
Record ErrorObject : Type := { err_name : jsstring; err_message : jsstring }.

Inductive Thrown : Type :=
| ThrownError (e : ErrorObject)
| ThrownOther (asString : jsstring).

(** Outcome of an expression that may throw. *)
Inductive Res (A : Type) : Type :=
| Ok (a : A)
| Throw (e : Thrown).
Arguments Ok {A} a.
Arguments Throw {A} e.

Definition bind {A B} (m : Res A) (f : A -> Res B) : Res B :=
  match m with
  | Ok a => f a
  | Throw e => Throw e
  end.

Definition fmap {A B} (f : A -> B) (m : Res A) : Res B :=
  bind m (fun a => Ok (f a)).

(** [items.map(f)] for a callback that may throw: the first exception
    aborts the traversal. *)
Definition mapM {A B} (f : A -> Res B) : list A -> Res (list B) :=
  fix go (l : list A) : Res (list B) :=
    match l with
    | [] => Ok []
    | x :: l' => bind (f x) (fun y => bind (go l') (fun ys => Ok (y :: ys)))
    end.

(** A [for ... in] loop over the entries of an object, threading the
    variables the body assigns. *)
Definition forIn {E S} (body : S -> E -> Res S) : list E -> S -> Res S :=
  fix go (l : list E) (s : S) : Res S :=
    match l with
    | [] => Ok s
    | e :: l' => bind (body s e) (go l')
    end.

Definition isUndefined (v : JsValue) : bool :=
  match v with JUndefined => true | _ => false end.

(** [Array.isArray(v)] *)
Definition isArray (v : JsValue) : bool :=
  match v with JArray _ => true | _ => false end.

(** Own property lookup in a property list. *)
Fixpoint lookup {V} (key : jsstring) (props : list (jsstring * V)) : option V :=
  match props with
  | [] => None
  | (k, v) :: rest => if JsString.eqb k key then Some v else lookup key rest
  end.

(** [obj[key] = v] as the definition of an own property: overwrite in
    place, or append a new property.  (For the key [__proto__] the
    assignment goes to the setter of [Object.prototype] and defines
    nothing; the statements on what a traversal builds exclude that
    key.) *)
Fixpoint objSet {V} (props : list (jsstring * V)) (key : jsstring) (v : V)
  : list (jsstring * V) :=
  match props with
  | [] => [(key, v)]
  | (k, old) :: rest =>
      if JsString.eqb k key then (k, v) :: rest
      else (k, old) :: objSet rest key v
  end.

Fixpoint parseDigits (acc : N) (s : jsstring) : option N :=
  match s with
  | [] => Some acc
  | c :: rest =>
      if (N.leb 48 c && N.leb c 57)%N
      then parseDigits (10 * acc + (c - 48))%N rest
      else None
  end.

(** The index a property key denotes, when it is a canonical numeric
    string ("0", "1", "12", not "01"). *)
Definition arrayIndex (key : jsstring) : option nat :=
  match key with
  | [] => None
  | _ =>
      match parseDigits 0 key with
      | Some n =>
          if JsString.eqb (ofInt (Z.of_N n)) key then Some (N.to_nat n) else None
      | None => None
      end
  end.

(** The TypeError of a property read on [null] or [undefined]. *)
Definition nullishRead (what key : jsstring) : Thrown :=
  ThrownError
    {| err_name := js "TypeError";
       err_message :=
         js "Cannot read properties of " ++ what ++ js " (reading '" ++ key ++ js "')" |}.

(** [data[key]], among the properties the value owns: [undefined] for
    any other key.  (The members a value inherits from its prototype,
    [toString], [constructor], ..., are not looked up here.) *)
Definition getProp (data : JsValue) (key : jsstring) : Res JsValue :=
  match data with
  | JUndefined => Throw (nullishRead (js "undefined") key)
  | JNull => Throw (nullishRead (js "null") key)
  | JBool _ | JNumber _ => Ok JUndefined
  | JString s =>
      if JsString.eqb key (js "length")
      then Ok (JNumber (numberOfInt (JsString.length s)))
      else match arrayIndex key with
           | Some i =>
               match nth_error s i with
               | Some c => Ok (JString [c])
               | None => Ok JUndefined
               end
           | None => Ok JUndefined
           end
  | JArray items =>
      if JsString.eqb key (js "length")
      then Ok (JNumber (numberOfInt (Z.of_nat (List.length items))))
      else match arrayIndex key with
           | Some i =>
               match nth_error items i with
               | Some v => Ok v
               | None => Ok JUndefined
               end
           | None => Ok JUndefined
           end
  | JObject props =>
      match lookup key props with
      | Some v => Ok v
      | None => Ok JUndefined
      end
  end.

(** The names of the members of [Object.prototype] (ECMAScript 20.1.3
    and B.2.2), which every object that [{}] or [JSON.parse] creates
    inherits.  All are functions but [__proto__], an accessor: a read
    answers the prototype, and an assignment [o["__proto__"] = v]
    replaces the prototype and creates no property. *)
Definition objectPrototypeMembers : list jsstring :=
  [js "constructor"; js "__defineGetter__"; js "__defineSetter__";
   js "hasOwnProperty"; js "__lookupGetter__"; js "__lookupSetter__";
   js "isPrototypeOf"; js "propertyIsEnumerable"; js "toString";
   js "valueOf"; js "__proto__"; js "toLocaleString"].

Definition inheritedMember (key : jsstring) : bool :=
  existsb (JsString.eqb key) objectPrototypeMembers.

End JsValues.
Export JsValues.

(** ** The shape projector (index.ts) *)

Module Projector.

(** [type Shape = { [key: string]: true | Shape }].  A shape arrives as
    arbitrary JSON, so a key may also hold a value that is neither
    [true] nor an object ([false], a number, a string): [ROther], which
    both traversals pass over.  A key that holds [null] has no key to
    iterate and behaves as the empty shape. *)
Inductive Rule (S : Type) : Type :=
| RTrue
| RShape (s : S)
| ROther.
Arguments RTrue {S}.
Arguments RShape {S} s.
Arguments ROther {S}.

Unset Elimination Schemes.
Inductive Shape : Type :=
| MkShape (entries : list (jsstring * Rule Shape)).
Set Elimination Schemes.

Definition entries (shape : Shape) : list (jsstring * Rule Shape) :=
  match shape with MkShape es => es end.

(** [extractWithShape(data, shape)] *)
Fixpoint extractWithShape (shape : Shape) : JsValue -> Res JsValue :=
  fix onData (data : JsValue) : Res JsValue :=
    match data with
    | JArray items => fmap JArray (mapM onData items)
    | _ =>
        match shape with
        | MkShape es =>
            fmap JObject
              (forIn
                 (fun (result : Props) (entry : jsstring * Rule Shape) =>
                    let (key, rule) := entry in
                    match rule with
                    | RTrue =>
                        bind (getProp data key) (fun v => Ok (objSet result key v))
                    | RShape sub =>
                        bind (getProp data key) (fun v =>
                          if isUndefined v then Ok result
                          else bind (extractWithShape sub v) (fun r =>
                                 Ok (objSet result key r)))
                    | ROther => Ok result
                    end)
                 es [])
        end
    end.

End Projector.
Export Projector.

(** ** [JSON.stringify] (ECMAScript SerializeJSONProperty) *)

Module Json.

Definition wrap (gap stepback indent : jsstring) (open close : codeUnit)
           (partial : list jsstring) : jsstring :=
  match partial with
  | [] => [open; close]
  | _ =>
      match gap with
      | [] => open :: join (js ",") partial ++ [close]
      | _ =>
          open :: 10%N :: indent
            ++ join (js "," ++ 10%N :: indent) partial
            ++ 10%N :: stepback ++ [close]
      end
  end.

(** Serialization of a value at indentation [indent]; [None] is the
    [undefined] the algorithm returns for a value that has no JSON
    text.  Such a property is left out of an object, and printed as
    [null] in an array. *)
Fixpoint serialize (gap indent : jsstring) (v : JsValue) : option jsstring :=
  match v with
  | JUndefined => None
  | JNull => Some (js "null")
  | JBool true => Some (js "true")
  | JBool false => Some (js "false")
  | JNumber (NumFinite repr) => Some repr
  | JNumber _ => Some (js "null")
  | JString s => Some (quote s)
  | JArray items =>
      Some (wrap gap indent (indent ++ gap) 91%N 93%N
              (map (fun item =>
                      match serialize gap (indent ++ gap) item with
                      | Some text => text
                      | None => js "null"
                      end) items))
  | JObject props =>
      Some (wrap gap indent (indent ++ gap) 123%N 125%N
              (flat_map (fun entry =>
                           match serialize gap (indent ++ gap) (snd entry) with
                           | Some text =>
                               [quote (fst entry) ++ 58%N
                                  :: match gap with [] => [] | _ => [32%N] end ++ text]
                           | None => []
                           end) props))
  end.

(** [JSON.stringify(v)] *)
Definition stringify (v : JsValue) : option jsstring := serialize [] [] v.

(** [JSON.stringify(v, null, 2)] *)
Definition stringifyPretty (v : JsValue) : option jsstring :=
  serialize (js "  ") [] v.

End Json.

(** ** The size accountant (index.ts) *)

Module Accountant.

(** A [for] loop that adds [f] of every entry and one separator byte
    after every entry but the last ([i < entries.length - 1]). *)
Definition separated {E} (f : E -> Z) : list E -> Z :=
  fix go (l : list E) : Z :=
    match l with
    | [] => 0
    | e :: rest => f e + (match rest with [] => 0 | _ => 1 end) + go rest
    end.

(** [calculateValueSize(value)].  In the object case every property is
    paired with the size of its value before the [undefined] ones are
    filtered out; the sizes that are dropped are never added. *)
Fixpoint calculateValueSize (value : JsValue) : Z :=
  match value with
  | JNull => utf8Length (js "null")
  | JUndefined => 0
  | JString s => utf8Length (quote s)
  | JNumber n => utf8Length (Number_toString n)
  | JBool b => utf8Length (js (if b then "true" else "false"))
  | JArray items => 2 + separated calculateValueSize items
  | JObject props =>
      let sized := map (fun entry => (entry, calculateValueSize (snd entry))) props in
      let entries := filter (fun e => negb (isUndefined (snd (fst e)))) sized in
      2 + separated
            (fun e => utf8Length (34%N :: fst (fst e) ++ [34%N]) + 1 + snd e)
            entries
  end.

(** A size breakdown: a byte count, or an object of breakdowns.  The
    merge also meets [BMember name], the member of [Object.prototype]
    called [name] (a function), when it reads a key that an object does
    not own. *)
Unset Elimination Schemes.
Inductive Breakdown : Type :=
| BNum (n : Z)
| BObj (props : list (jsstring * Breakdown))
| BMember (name : jsstring).
Set Elimination Schemes.

Fixpoint bsize (b : Breakdown) : nat :=
  match b with
  | BNum _ => 0
  | BObj props => S (list_sum (map (fun e => bsize (snd e)) props))
  | BMember _ => 0
  end.

(** Truthiness: [0] is falsy, every object and every function is
    truthy. *)
Definition truthy (b : Breakdown) : bool :=
  match b with
  | BNum n => negb (n =? 0)
  | BObj _ => true
  | BMember _ => true
  end.

(** [a || b] *)
Definition orElse (a b : Breakdown) : Breakdown := if truthy a then a else b.

(** [v || 0], for [v] the outcome of a read ([None] is [undefined]). *)
Definition orZero (v : option Breakdown) : Breakdown :=
  match v with
  | Some b => orElse b (BNum 0)
  | None => BNum 0
  end.

(** [breakdown[key]]: the property the object owns or, when it owns
    none, the member of [Object.prototype] of that name.  (Under
    [__proto__] that member is the prototype itself; no breakdown owns
    that key, an assignment to it creating no property, so the merge
    never reads it.) *)
Definition getMember (props : list (jsstring * Breakdown)) (key : jsstring)
  : option Breakdown :=
  match lookup key props with
  | Some b => Some b
  | None => if inheritedMember key then Some (BMember key) else None
  end.

(** The elements of [new Set(keys)] in iteration order: first
    occurrences, in order. *)
Fixpoint setOf (keys : list jsstring) : list jsstring :=
  match keys with
  | [] => []
  | k :: rest => k :: filter (fun x => negb (JsString.eqb x k)) (setOf rest)
  end.

(** [new Set([...Object.keys(breakdown1), ...Object.keys(breakdown2)])] *)
Definition allKeys (o1 o2 : list (jsstring * Breakdown)) : list jsstring :=
  setOf (map fst o1 ++ map fst o2).

(** [addSizeBreakdowns(breakdown1, breakdown2)].  A function is
    neither a number nor an object: it goes to the last [return].  The
    properties of the result are listed in the order of their assignment
    (the object enumerates integer-like keys first). *)
Equations addSizeBreakdowns (breakdown1 breakdown2 : Breakdown) : Breakdown
  by wf (bsize breakdown1) lt :=
  addSizeBreakdowns (BNum n1) (BNum n2) := BNum (n1 + n2);
  addSizeBreakdowns (BObj o1) (BObj o2) :=
    BObj (map (fun key =>
                 (key, addSizeBreakdowns (orZero (getMember o1 key))
                                         (orZero (getMember o2 key))))
              (allKeys o1 o2));
  addSizeBreakdowns b1 b2 := orElse b1 (orElse b2 (BNum 0)).
Next Obligation.
  clear addSizeBreakdowns. unfold getMember.
  induction o1 as [|[k v] o1 IH]; simpl in *.
  - destruct (inheritedMember key); simpl; lia.
  - destruct (JsString.eqb k key); simpl; [|lia].
    unfold orElse; destruct (truthy v); simpl; lia.
Qed.

(** [calculateSizeWithShape(data, shape)].  The array loop threads
    [totalSizeBreakdown] and [isFirstElement]. *)
Fixpoint calculateSizeWithShape (shape : Shape) : JsValue -> Res Breakdown :=
  fix onData (data : JsValue) : Res Breakdown :=
    match data with
    | JArray items =>
        fmap fst
          (forIn
             (fun (state : Breakdown * bool) (item : JsValue) =>
                let (totalSizeBreakdown, isFirstElement) := state in
                bind (onData item) (fun itemSizeBreakdown =>
                  if isFirstElement then Ok (itemSizeBreakdown, false)
                  else Ok (addSizeBreakdowns totalSizeBreakdown itemSizeBreakdown,
                           false)))
             items (BObj [], true))
    | _ =>
        match shape with
        | MkShape es =>
            fmap BObj
              (forIn
                 (fun (result : list (jsstring * Breakdown))
                      (entry : jsstring * Rule Shape) =>
                    let (key, rule) := entry in
                    bind (getProp data key) (fun v =>
                      if isUndefined v then Ok result
                      else match rule with
                           | RTrue =>
                               Ok (objSet result key (BNum (calculateValueSize v)))
                           | RShape sub =>
                               bind (calculateSizeWithShape sub v) (fun r =>
                                 Ok (objSet result key r))
                           | ROther => Ok result
                           end))
                 es [])
        end
    end.

End Accountant.
Export Accountant.

(** ** Ingestion results (types/JsonIngestion.ts) *)

Module IngestionTypes.

Inductive ErrorKind : Type :=
| file_not_found
| invalid_json
| network_error
| invalid_url
| unsupported_content_type
| rate_limit_exceeded
| validation_error
| authentication_required
| server_error
| content_too_large.

(** The values found in [details]. *)
Inductive Detail : Type :=
| DNum (n : Z)
| DStr (s : jsstring)
| DStrs (l : list jsstring)
| DUndefined
| DThrown (e : Thrown).

Inductive Details : Type :=
| DetailsThrown (e : Thrown)
| DetailsObject (fields : list (jsstring * Detail)).

Record JsonIngestionError : Type :=
  { type : ErrorKind; message : jsstring; details : Details }.

Inductive JsonIngestionResult : Type :=
| Success (content : jsstring)
| Failure (error : JsonIngestionError).

Record Metadata : Type :=
  { name : jsstring; description : jsstring; supportedSources : list jsstring }.

End IngestionTypes.
Export IngestionTypes.

(** ** The runtime, the world and asynchronous computations *)

Module Effects.

(** Pure built-ins the sources call. *)
Record Runtime : Type :=
  { path_resolve : jsstring -> jsstring;          (* resolve(source) *)
    JSON_parse : jsstring -> Res JsValue;          (* JSON.parse(text) *)
    URL_protocol : jsstring -> Res jsstring }.     (* new URL(source).protocol *)

Record Stats : Type := { size : Z }.

(** A [Response]: header names are stored in lower case, as the
    [Headers] class does. *)
Record Response : Type :=
  { status : Z; statusText : jsstring; headers : list (jsstring * jsstring) }.

(** [response.ok] *)
Definition ok (response : Response) : bool :=
  (200 <=? status response) && (status response <=? 299).

(** [response.headers.get(name)] *)
Definition headers_get (response : Response) (name : jsstring) : option jsstring :=
  lookup (toLowerCase name) (headers response).

(** An asynchronous computation: every [await] of the file system or of
    the network is a node, answered by the world. *)
Inductive IO (A : Type) : Type :=
| Ret (a : A)
| FsStat (path : jsstring) (k : Res Stats -> IO A)
| FsReadFile (path : jsstring) (k : Res jsstring -> IO A)
| Fetch (url : jsstring) (k : Res Response -> IO A)
| ResponseText (url : jsstring) (k : Res jsstring -> IO A).
Arguments Ret {A} a.
Arguments FsStat {A} path k.
Arguments FsReadFile {A} path k.
Arguments Fetch {A} url k.
Arguments ResponseText {A} url k.

Fixpoint io_bind {A B} (m : IO A) (f : A -> IO B) : IO B :=
  match m with
  | Ret a => f a
  | FsStat path k => FsStat path (fun r => io_bind (k r) f)
  | FsReadFile path k => FsReadFile path (fun r => io_bind (k r) f)
  | Fetch url k => Fetch url (fun r => io_bind (k r) f)
  | ResponseText url k => ResponseText url (fun r => io_bind (k r) f)
  end.

(** [fs.stat(path)], [fs.readFile(path, 'utf-8')], [fetch(url, ...)] and
    [response.text()], each with the exception it may reject with. *)
Definition fs_stat (path : jsstring) : IO (Res Stats) := FsStat path Ret.
Definition fs_readFile (path : jsstring) : IO (Res jsstring) := FsReadFile path Ret.
Definition fetch (url : jsstring) : IO (Res Response) := Fetch url Ret.
Definition response_text (url : jsstring) : IO (Res jsstring) := ResponseText url Ret.

Record World : Type :=
  { stat_of : jsstring -> Res Stats;
    file_of : jsstring -> Res jsstring;
    response_of : jsstring -> Res Response;
    body_of : jsstring -> Res jsstring }.

Inductive Event : Type :=
| EvStat (path : jsstring)
| EvReadFile (path : jsstring)
| EvFetch (url : jsstring)
| EvResponseText (url : jsstring).

(** Running a computation in a world: its result and the operations it
    performed, in order. *)
Fixpoint run {A} (w : World) (m : IO A) : A * list Event :=
  match m with
  | Ret a => (a, [])
  | FsStat path k =>
      let (a, t) := run w (k (stat_of w path)) in (a, EvStat path :: t)
  | FsReadFile path k =>
      let (a, t) := run w (k (file_of w path)) in (a, EvReadFile path :: t)
  | Fetch url k =>
      let (a, t) := run w (k (response_of w url)) in (a, EvFetch url :: t)
  | ResponseText url k =>
      let (a, t) := run w (k (body_of w url)) in (a, EvResponseText url :: t)
  end.

Definition readsFile (e : Event) : bool :=
  match e with EvReadFile _ => true | _ => false end.
Definition readsBody (e : Event) : bool :=
  match e with EvResponseText _ => true | _ => false end.

End Effects.
Export Effects.

Notation "x <- 'await' m ;; k" := (io_bind m (fun x => k))
  (at level 61, m at next level, right associativity).

(** [Math.round(n / 1024 / 1024)] for an integer [n]: the division by
    2^20 is exact in floating point and [Math.round] rounds half up. *)
Definition roundMB (n : Z) : Z := (n + 524288) / 1048576.

(** ** The strategy interface (strategies/JsonIngestionStrategy.ts) *)

Module JsonIngestionStrategy.

Record JsonIngestionStrategy : Type :=
  { canHandle : jsstring -> bool;
    ingest : jsstring -> IO JsonIngestionResult;
    getMetadata : Metadata }.

(** [validateJsonContent(content)] *)
Definition validateJsonContent (rt : Runtime) (content : jsstring)
  : JsonIngestionResult :=
  match JSON_parse rt content with
  | Ok _ => Success content
  | Throw error =>
      Failure {| type := invalid_json;
                 message := js "Invalid JSON format in content";
                 details := DetailsThrown error |}
  end.

End JsonIngestionStrategy.
Export JsonIngestionStrategy.

(** ** Local files (strategies/LocalFileStrategy.ts, at the revision that
    stats the file and enforces the 50 MB cap) *)

Module LocalFileStrategy.

Definition maxFileSize : Z := 50 * 1024 * 1024.

Definition canHandle (source : jsstring) : bool :=
  negb (startsWith source (js "http://")) && negb (startsWith source (js "https://")).

Definition tooLarge (fileSize : Z) (resolvedPath : jsstring) : JsonIngestionError :=
  {| type := content_too_large;
     message :=
       js "File too large (" ++ ofInt (roundMB fileSize)
         ++ js "MB). This tool is optimized for JSON files under "
         ++ ofInt (roundMB maxFileSize) ++ js "MB.";
     details :=
       DetailsObject [(js "fileSize", DNum fileSize);
                      (js "maxSize", DNum maxFileSize);
                      (js "filePath", DStr resolvedPath)] |}.

(** [ingest(source)].  The outer [catch], which answers a validation
    error, guards operations that are each guarded already or do not
    throw; it has no counterpart here. *)
Definition ingest (rt : Runtime) (source : jsstring) : IO JsonIngestionResult :=
  let resolvedPath := path_resolve rt source in
  fileStats <- await fs_stat resolvedPath ;;
  match fileStats with
  | Throw error =>
      Ret (Failure {| type := file_not_found;
                      message := js "File not found: " ++ resolvedPath;
                      details := DetailsThrown error |})
  | Ok fileStats =>
      if size fileStats >? maxFileSize
      then Ret (Failure (tooLarge (size fileStats) resolvedPath))
      else
        jsonContent <- await fs_readFile resolvedPath ;;
        match jsonContent with
        | Throw error =>
            Ret (Failure {| type := file_not_found;
                            message := js "Failed to read file: " ++ resolvedPath;
                            details := DetailsThrown error |})
        | Ok jsonContent => Ret (validateJsonContent rt jsonContent)
        end
  end.

Definition getMetadata : Metadata :=
  {| name := js "LocalFileStrategy";
     description := js "Reads JSON data from local file system with 50MB size limit";
     supportedSources :=
       [js "Local file paths (relative and absolute)"; js "JSON files under 50MB"] |}.

Definition strategy (rt : Runtime) : JsonIngestionStrategy :=
  {| JsonIngestionStrategy.canHandle := canHandle;
     JsonIngestionStrategy.ingest := ingest rt;
     JsonIngestionStrategy.getMetadata := getMetadata |}.

End LocalFileStrategy.

(** ** HTTP and HTTPS sources (strategies/HttpJsonStrategy.ts) *)

Module HttpJsonStrategy.

Definition requestTimeout : Z := 10000.
Definition maxResponseSize : Z := 50 * 1024 * 1024.

Definition canHandle (source : jsstring) : bool :=
  startsWith source (js "http://") || startsWith source (js "https://").

Definition isDigit (c : codeUnit) : bool := (N.leb 48 c && N.leb c 57)%N.

Fixpoint dropWhile (p : codeUnit -> bool) (s : jsstring) : jsstring :=
  match s with
  | c :: rest => if p c then dropWhile p rest else s
  | [] => []
  end.

Fixpoint takeWhile (p : codeUnit -> bool) (s : jsstring) : jsstring :=
  match s with
  | c :: rest => if p c then c :: takeWhile p rest else []
  | [] => []
  end.

Definition digitsValue (ds : jsstring) : Z :=
  fold_left (fun acc c => 10 * acc + Z.of_N (c - 48)) ds 0.

(** [parseInt(s, 10)]: leading white space, an optional sign, the
    longest run of digits; [None] is [NaN].  The value is the integer the
    digits denote; [parseInt] answers the nearest double, the same number
    below 2^53. *)
Definition parseInt10 (s : jsstring) : option Z :=
  let s := dropWhile isWhiteSpace s in
  let (negative, s) :=
    match s with
    | 45%N :: rest => (true, rest)
    | 43%N :: rest => (false, rest)
    | _ => (false, s)
    end in
  match takeWhile isDigit s with
  | [] => None
  | ds => Some (if negative then - digitsValue ds else digitsValue ds)
  end.

(** [value || undefined] in a details field. *)
Definition orUndefined (value : option jsstring) : Detail :=
  match value with
  | Some (c :: s) => DStr (c :: s)
  | _ => DUndefined
  end.

Definition statusDetails (response : Response) (source : jsstring)
  : list (jsstring * Detail) :=
  [(js "status", DNum (status response));
   (js "statusText", DStr (statusText response));
   (js "url", DStr source)].

Definition authMessage (status : Z) : jsstring :=
  if status =? 401 then
    js "Authentication required: This endpoint needs valid credentials. Verify this is a public API endpoint."
  else if status =? 403 then
    js "Access forbidden: This endpoint may require authentication, be restricted by region, or have IP restrictions. Verify this is a publicly accessible endpoint."
  else js "This endpoint requires authentication or access is denied.".

Definition authenticationRequired (response : Response) (source responsePreview : jsstring)
  : JsonIngestionError :=
  {| type := authentication_required;
     message := authMessage (status response);
     details :=
       DetailsObject (statusDetails response source
                        ++ [(js "responsePreview", orUndefined (Some responsePreview))]) |}.

Definition rateLimitExceeded (response : Response) (source : jsstring)
  : JsonIngestionError :=
  {| type := rate_limit_exceeded;
     message :=
       js "API rate limit exceeded. Please wait before making more requests to this endpoint.";
     details :=
       DetailsObject (statusDetails response source
                        ++ [(js "retryAfter",
                             orUndefined (headers_get response (js "Retry-After")))]) |}.

Definition serverError (response : Response) (source : jsstring)
  : JsonIngestionError :=
  {| type := server_error;
     message :=
       js "Server error (HTTP " ++ ofInt (status response)
         ++ js "): This is likely a temporary issue with the endpoint. Try again later.";
     details := DetailsObject (statusDetails response source) |}.

Definition clientError (response : Response) (source : jsstring)
  : JsonIngestionError :=
  {| type := network_error;
     message :=
       js "HTTP " ++ ofInt (status response) ++ js ": " ++ statusText response
         ++ js ". "
         ++ (if status response =? 404
             then js "Endpoint not found - verify the URL is correct."
             else js "Client error occurred.");
     details := DetailsObject (statusDetails response source) |}.

Definition tooLargeDeclared (size : Z) (source : jsstring) : JsonIngestionError :=
  {| type := content_too_large;
     message :=
       js "Response too large (" ++ ofInt (roundMB size)
         ++ js "MB). This tool is optimized for JSON files under "
         ++ ofInt (roundMB maxResponseSize) ++ js "MB.";
     details :=
       DetailsObject [(js "contentLength", DNum size);
                      (js "maxSize", DNum maxResponseSize);
                      (js "url", DStr source)] |}.

Definition tooLargeMeasured (actualSize : Z) (source : jsstring) : JsonIngestionError :=
  {| type := content_too_large;
     message :=
       js "Response too large (" ++ ofInt (roundMB actualSize)
         ++ js "MB after reading). This tool is optimized for JSON files under "
         ++ ofInt (roundMB maxResponseSize) ++ js "MB.";
     details :=
       DetailsObject [(js "actualSize", DNum actualSize);
                      (js "maxSize", DNum maxResponseSize);
                      (js "url", DStr source)] |}.

Definition fetchFailed (source : jsstring) (error : Thrown) : JsonIngestionError :=
  match error with
  | ThrownError e =>
      if JsString.eqb (err_name e) (js "AbortError") then
        {| type := network_error;
           message := js "Request timeout after " ++ ofInt requestTimeout ++ js "ms";
           details := DetailsThrown error |}
      else
        {| type := network_error;
           message := js "Failed to fetch from " ++ source ++ js ": " ++ err_message e;
           details := DetailsThrown error |}
  | ThrownOther text =>
      {| type := network_error;
         message := js "Failed to fetch from " ++ source ++ js ": " ++ text;
         details := DetailsThrown error |}
  end.

Definition notJson (response : Response) (source content : jsstring)
  : JsonIngestionError :=
  let contentType :=
    match headers_get response (js "content-type") with
    | Some (c :: s) => c :: s
    | _ => js "unknown"
    end in
  let contentPreview := substring0 content 200 in
  let lower := toLowerCase contentPreview in
  {| type := invalid_json;
     message :=
       js "Response content is not valid JSON. Content-Type: " ++ contentType ++ js "."
         ++ (if includes lower (js "<!doctype html") || includes lower (js "<html")
             then js " The response appears to be HTML - verify the URL points to a JSON endpoint, not a web page."
             else if includes lower (js "<?xml")
             then js " The response appears to be XML - this tool only supports JSON format."
             else if trimIsEmpty contentPreview
             then js " The response is empty - the endpoint may not be returning data."
             else js " Verify the endpoint returns valid JSON format.");
     details :=
       DetailsObject [(js "contentType", DStr contentType);
                      (js "url", DStr source);
                      (js "contentPreview", DStr contentPreview);
                      (js "responseSize", DNum (JsString.length content))] |}.

(** The branch taken for a response that is not [ok]. *)
Definition rejectStatus (response : Response) (source : jsstring)
  : IO JsonIngestionResult :=
  if (status response =? 401) || (status response =? 403) then
    responseText <- await response_text source ;;
    let responsePreview :=
      match responseText with
      | Ok responseText => substring0 responseText 200
      | Throw _ => []
      end in
    Ret (Failure (authenticationRequired response source responsePreview))
  else if status response =? 429 then
    Ret (Failure (rateLimitExceeded response source))
  else if status response >=? 500 then
    Ret (Failure (serverError response source))
  else Ret (Failure (clientError response source)).

(** The check of the declared size, before the body is downloaded. *)
Definition declaredTooLarge (response : Response) (source : jsstring)
  : option JsonIngestionError :=
  match headers_get response (js "content-length") with
  | Some (c :: s) =>
      match parseInt10 (c :: s) with
      | Some size =>
          if size >? maxResponseSize then Some (tooLargeDeclared size source)
          else None
      | None => None
      end
  | _ => None
  end.

(** Reading the body, its measured size, its validation. *)
Definition readBody (rt : Runtime) (response : Response) (source : jsstring)
  : IO JsonIngestionResult :=
  content <- await response_text source ;;
  match content with
  | Throw error =>
      Ret (Failure
             {| type := network_error;
                message :=
                  js "Failed to read response content. This may be due to network issues or the response being too large.";
                details :=
                  DetailsObject [(js "error", DThrown error); (js "url", DStr source)] |})
  | Ok content =>
      let actualSize := utf8Length content in
      if actualSize >? maxResponseSize
      then Ret (Failure (tooLargeMeasured actualSize source))
      else
        match validateJsonContent rt content with
        | Failure _ => Ret (Failure (notJson response source content))
        | validation => Ret validation
        end
  end.

(** The path of a response that is [ok]. *)
Definition acceptBody (rt : Runtime) (response : Response) (source : jsstring)
  : IO JsonIngestionResult :=
  match declaredTooLarge response source with
  | Some error => Ret (Failure error)
  | None => readBody rt response source
  end.

(** [ingest(source)].  The timer that aborts the fetch after
    [requestTimeout] shows as the [AbortError] the fetch rejects with; the
    outer [catch] has no counterpart here, as for local files. *)
Definition ingest (rt : Runtime) (source : jsstring) : IO JsonIngestionResult :=
  match URL_protocol rt source with
  | Throw error =>
      Ret (Failure {| type := invalid_url;
                      message := js "Invalid URL format: " ++ source;
                      details := DetailsThrown error |})
  | Ok protocol =>
      if negb (JsString.eqb protocol (js "http:"))
         && negb (JsString.eqb protocol (js "https:"))
      then
        Ret (Failure {| type := invalid_url;
                        message := js "Only HTTP and HTTPS URLs are supported";
                        details := DetailsObject [(js "protocol", DStr protocol)] |})
      else
        response <- await fetch source ;;
        match response with
        | Throw error => Ret (Failure (fetchFailed source error))
        | Ok response =>
            if negb (ok response) then rejectStatus response source
            else acceptBody rt response source
        end
  end.

Definition getMetadata : Metadata :=
  {| name := js "HttpJsonStrategy";
     description :=
       js "Fetches JSON data from HTTP/HTTPS URLs (static files and API endpoints)";
     supportedSources :=
       [js "HTTP/HTTPS URLs serving JSON content"; js "JSON API endpoints";
        js "Static .json files"; js "Any HTTP/HTTPS URL returning valid JSON"] |}.

Definition strategy (rt : Runtime) : JsonIngestionStrategy :=
  {| JsonIngestionStrategy.canHandle := canHandle;
     JsonIngestionStrategy.ingest := ingest rt;
     JsonIngestionStrategy.getMetadata := getMetadata |}.

End HttpJsonStrategy.

(** ** Strategy selection (context/JsonIngestionContext.ts) *)

Module JsonIngestionContext.

Record JsonIngestionContext : Type :=
  { strategies : list JsonIngestionStrategy }.

(** [registerStrategy(strategy)]: [this.strategies.push(strategy)] *)
Definition registerStrategy (ctx : JsonIngestionContext)
           (strategy : JsonIngestionStrategy) : JsonIngestionContext :=
  {| strategies := strategies ctx ++ [strategy] |}.

(** [new JsonIngestionContext()]: the local strategy is registered
    first, the HTTP strategy second. *)
Definition new (rt : Runtime) : JsonIngestionContext :=
  registerStrategy
    (registerStrategy {| strategies := [] |} (LocalFileStrategy.strategy rt))
    (HttpJsonStrategy.strategy rt).

(** [getAvailableStrategies()] *)
Definition getAvailableStrategies (ctx : JsonIngestionContext) : list Metadata :=
  map getMetadata (strategies ctx).

Definition findStrategy (ctx : JsonIngestionContext) (source : jsstring)
  : option JsonIngestionStrategy :=
  find (fun strategy => canHandle strategy source) (strategies ctx).

Definition noStrategy (ctx : JsonIngestionContext) (source : jsstring)
  : JsonIngestionError :=
  {| type := validation_error;
     message := js "No strategy found to handle source: " ++ source;
     details :=
       DetailsObject
         [(js "source", DStr source);
          (js "availableStrategies",
           DStrs (map (fun s => name (getMetadata s)) (strategies ctx)))] |}.

Definition ingest (ctx : JsonIngestionContext) (source : jsstring)
  : IO JsonIngestionResult :=
  match findStrategy ctx source with
  | None => Ret (Failure (noStrategy ctx source))
  | Some strategy => JsonIngestionStrategy.ingest strategy source
  end.

End JsonIngestionContext.

(** ** The tools (index.ts) *)

Module Index.

Inductive JsonFilterResult : Type :=
| FilterSuccess (filteredData : JsValue)
| FilterFailure (error : JsonIngestionError).

Inductive JsonDryRunResult : Type :=
| DryRunSuccess (sizeBreakdown : Breakdown) (totalSize : Z)
| DryRunFailure (error : JsonIngestionError).

Record JsonFilterInput : Type := { filePath : jsstring; shape : Shape }.

Definition invalidContent (error : Thrown) : JsonIngestionError :=
  {| type := invalid_json;
     message := js "Invalid JSON format in content";
     details := DetailsThrown error |}.

(** The [try] block of [processJsonFilter] that applies the shape. *)
Definition applyShapeFilter (parsedData : JsValue) (shape : Shape) : JsonFilterResult :=
  match extractWithShape shape parsedData with
  | Ok filteredData => FilterSuccess filteredData
  | Throw error =>
      FilterFailure {| type := validation_error;
                       message := js "Failed to apply shape filter";
                       details := DetailsThrown error |}
  end.

(** [processJsonFilter(input)] *)
Definition processJsonFilter (rt : Runtime) (input : JsonFilterInput)
  : IO JsonFilterResult :=
  ingestionResult <- await
    JsonIngestionContext.ingest (JsonIngestionContext.new rt) (filePath input) ;;
  match ingestionResult with
  | Failure error => Ret (FilterFailure error)
  | Success content =>
      match JSON_parse rt content with
      | Throw error => Ret (FilterFailure (invalidContent error))
      | Ok parsedData => Ret (applyShapeFilter parsedData (shape input))
      end
  end.

(** The [try] block of [processJsonDryRun] that measures the data. *)
Definition measure (parsedData : JsValue) (shape : Shape) : JsonDryRunResult :=
  match calculateSizeWithShape shape parsedData with
  | Ok sizeBreakdown => DryRunSuccess sizeBreakdown (calculateValueSize parsedData)
  | Throw error =>
      DryRunFailure {| type := validation_error;
                       message := js "Failed to calculate size breakdown";
                       details := DetailsThrown error |}
  end.

(** [processJsonDryRun(input)] *)
Definition processJsonDryRun (rt : Runtime) (input : JsonFilterInput)
  : IO JsonDryRunResult :=
  ingestionResult <- await
    JsonIngestionContext.ingest (JsonIngestionContext.new rt) (filePath input) ;;
  match ingestionResult with
  | Failure error => Ret (DryRunFailure error)
  | Success content =>
      match JSON_parse rt content with
      | Throw error => Ret (DryRunFailure (invalidContent error))
      | Ok parsedData => Ret (measure parsedData (shape input))
      end
  end.

(** What the [json_filter] tool answers for a result of
    [processJsonFilter]: the text and the [isError] flag. *)
Record ToolResponse : Type := { text : option jsstring; isError : bool }.

Definition renderFilterResult (result : JsonFilterResult) : ToolResponse :=
  match result with
  | FilterSuccess filteredData =>
      {| text := Json.stringifyPretty filteredData; isError := false |}
  | FilterFailure error =>
      {| text := Some (js "Error: " ++ message error); isError := true |}
  end.

End Index.

(** ** Vocabulary of the statements *)

Module Vocabulary.

(** The body of the [for (const key in shape)] loop of
    [extractWithShape], for one entry of the shape. *)
Definition projectEntry (data : JsValue) (result : Props)
           (entry : jsstring * Rule Shape) : Res Props :=
  let (key, rule) := entry in
  match rule with
  | RTrue => bind (getProp data key) (fun v => Ok (objSet result key v))
  | RShape sub =>
      bind (getProp data key) (fun v =>
        if isUndefined v then Ok result
        else bind (extractWithShape sub v) (fun r => Ok (objSet result key r)))
  | ROther => Ok result
  end.

(** What one entry of the shape assigns, if anything. *)
Definition entryEffect (data : JsValue) (entry : jsstring * Rule Shape)
  : Res (option (jsstring * JsValue)) :=
  let (key, rule) := entry in
  match rule with
  | RTrue => bind (getProp data key) (fun v => Ok (Some (key, v)))
  | RShape sub =>
      bind (getProp data key) (fun v =>
        if isUndefined v then Ok None
        else bind (extractWithShape sub v) (fun r => Ok (Some (key, r))))
  | ROther => Ok None
  end.

Definition assign (result : Props) (effect : option (jsstring * JsValue)) : Props :=
  match effect with
  | Some (key, v) => objSet result key v
  | None => result
  end.

(** The projection under the empty shape: [{}] for anything but an
    array, the array of the elements' projections for an array. *)
Fixpoint emptyProjection (v : JsValue) : JsValue :=
  match v with
  | JArray items => JArray (map emptyProjection items)
  | _ => JObject []
  end.



(** The body of the loop of [calculateSizeWithShape] for one entry. *)
Definition measureEntry (data : JsValue) (result : list (jsstring * Breakdown))
           (entry : jsstring * Rule Shape) : Res (list (jsstring * Breakdown)) :=
  let (key, rule) := entry in
  bind (getProp data key) (fun v =>
    if isUndefined v then Ok result
    else match rule with
         | RTrue => Ok (objSet result key (BNum (calculateValueSize v)))
         | RShape sub =>
             bind (calculateSizeWithShape sub v) (fun r => Ok (objSet result key r))
         | ROther => Ok result
         end).

(** The body of the array loop of [calculateSizeWithShape]. *)
Definition mergeItem (shape : Shape) (state : Breakdown * bool) (item : JsValue)
  : Res (Breakdown * bool) :=
  let (totalSizeBreakdown, isFirstElement) := state in
  bind (calculateSizeWithShape shape item) (fun itemSizeBreakdown =>
    if isFirstElement then Ok (itemSizeBreakdown, false)
    else Ok (addSizeBreakdowns totalSizeBreakdown itemSizeBreakdown, false)).

(** A breakdown fits a rule when it has the form the accountant gives
    it: a number under [true], under a nested shape an object whose
    keys are keys of the shape and whose values fit their rules. *)
Fixpoint fits (rule : Rule Shape) (b : Breakdown) : bool :=
  match b, rule with
  | BNum _, RTrue => true
  | BObj props, RShape (MkShape es) =>
      forallb (fun e =>
                 match lookup (fst e) es with
                 | Some r => fits r (snd e)
                 | None => false
                 end) props
  | _, _ => false
  end.

(** A breakdown computed against [shape]. *)
Definition conforms (shape : Shape) (b : Breakdown) : bool := fits (RShape shape) b.

(** A value found where a key may be missing: [0] or a fitting value. *)
Definition fitsOrZero (rule : Rule Shape) (b : Breakdown) : Prop :=
  b = BNum 0 \/ fits rule b = true.

(** What a breakdown holds at the end of a path of keys. *)
Inductive Leaf : Type :=
| LNum (n : Z)
| LObj
| LMember (name : jsstring).

Fixpoint valueAt (path : list jsstring) (b : Breakdown) : option Leaf :=
  match path with
  | [] =>
      Some (match b with
            | BNum n => LNum n
            | BObj _ => LObj
            | BMember name => LMember name
            end)
  | key :: path' =>
      match b with
      | BObj props =>
          match lookup key props with
          | Some v => valueAt path' v
          | None => None
          end
      | _ => None
      end
  end.

(** Two breakdowns are the same mapping from keys to sizes, whatever
    the order of their keys. *)
Definition sameSizes (a b : Breakdown) : Prop :=
  forall path, valueAt path a = valueAt path b.

(** A key that [JSON.stringify] writes as it is, between quotes: no
    character to escape and no lone surrogate. *)
Definition plainKey (key : jsstring) : bool := JsString.eqb (quoteBody key) key.

(** A document whose numbers are finite, whose keys are plain and that
    holds no [undefined]. *)
Fixpoint plainDocument (v : JsValue) : bool :=
  match v with
  | JUndefined => false
  | JNull | JBool _ | JString _ => true
  | JNumber (NumFinite _) => true
  | JNumber _ => false
  | JArray items => forallb plainDocument items
  | JObject props =>
      forallb (fun e => plainKey (fst e) && plainDocument (snd e)) props
  end.

(** A code unit of the ASCII range. *)
Definition isAscii (c : codeUnit) : bool := N.ltb c 128.

Definition mem (k : jsstring) (l : list jsstring) : bool :=
  existsb (fun x => JsString.eqb x k) l.

Fixpoint uniqueKeys (keys : list jsstring) : bool :=
  match keys with
  | [] => true
  | k :: rest => negb (mem k rest) && uniqueKeys rest
  end.

(** A shape that is a JavaScript object: no key twice, at any depth. *)
Fixpoint wfShape (shape : Shape) : bool :=
  match shape with
  | MkShape es =>
      uniqueKeys (map fst es)
      && forallb (fun e => match snd e with
                           | RShape sub => wfShape sub
                           | _ => true
                           end) es
  end.

(** A shape none of whose keys, at any depth, is the name of a member
    of [Object.prototype]: what an object built against it holds under
    a key, it owns. *)
Fixpoint noInheritedKey (shape : Shape) : bool :=
  match shape with
  | MkShape es =>
      forallb (fun e => negb (inheritedMember (fst e))
                        && match snd e with
                           | RShape sub => noInheritedKey sub
                           | _ => true
                           end) es
  end.

Definition noInheritedRule (rule : Rule Shape) : bool :=
  match rule with
  | RShape sub => noInheritedKey sub
  | _ => true
  end.

End Vocabulary.
Export Vocabulary.

(** ** Sample documents and shapes *)

Module Samples.

Definition num (n : Z) : JsValue := JNumber (numberOfInt n).
Definition str (s : string) : JsValue := JString (js s).

(** [{"name":"John","age":30,"city":"New York"}] *)
Definition person : JsValue :=
  JObject [(js "name", str "John"); (js "age", num 30); (js "city", str "New York")].

(** [{"name":true,"age":true}] *)
Definition nameAndAge : Shape := MkShape [(js "name", RTrue); (js "age", RTrue)].

(** [[{"id":1,"name":"Al"},{"id":2,"name":"Bo"}]] *)
Definition userList : list JsValue :=
  [JObject [(js "id", num 1); (js "name", str "Al")];
   JObject [(js "id", num 2); (js "name", str "Bo")]].

(** [{"users":[{"id":1,"name":"Al"},{"id":2,"name":"Bo"}]}] *)
Definition users : JsValue := JObject [(js "users", JArray userList)].

(** [{"id":true}] and [{"users":{"id":true}}] *)
Definition idOnly : Shape := MkShape [(js "id", RTrue)].
Definition userIds : Shape := MkShape [(js "users", RShape idOnly)].

(** [{"user":null}] and [{"user":{"name":true}}] *)
Definition nullUser : JsValue := JObject [(js "user", JNull)].
Definition userName : Shape :=
  MkShape [(js "user", RShape (MkShape [(js "name", RTrue)]))].

Definition sizesName : Breakdown := BObj [(js "name", BNum 4)].
Definition sizesAge : Breakdown := BObj [(js "age", BNum 3)].

(** The breakdowns [{"k":5}], [{"k":{"x":1}}], [{"k":3}] and
    [{"k":{"x":2}}]: under [k], a number on one side and an object on
    the other. *)
Definition flatFive : Breakdown := BObj [(js "k", BNum 5)].
Definition nestedOne : Breakdown := BObj [(js "k", BObj [(js "x", BNum 1)])].
Definition flatThree : Breakdown := BObj [(js "k", BNum 3)].
Definition nestedTwo : Breakdown := BObj [(js "k", BObj [(js "x", BNum 2)])].

(** A runtime: paths resolve under [/data/], the only JSON text is
    [{}], and a URL has the protocol it starts with. *)
Definition syntaxError : Thrown :=
  ThrownError {| err_name := js "SyntaxError"; err_message := js "Unexpected token" |}.
Definition invalidUrl : Thrown :=
  ThrownError {| err_name := js "TypeError"; err_message := js "Invalid URL" |}.
Definition runtime : Runtime :=
  {| path_resolve := fun source => js "/data/" ++ source;
     JSON_parse := fun text =>
       if JsString.eqb text (js "{}") then Ok (JObject []) else Throw syntaxError;
     URL_protocol := fun source =>
       if startsWith source (js "https://") then Ok (js "https:")
       else if startsWith source (js "http://") then Ok (js "http:")
       else Throw invalidUrl |}.

(** A world where every file weighs 60 MB, every URL answers [status]
    with the given headers, and every body is [body]. *)
Definition world (status : Z) (headers : list (jsstring * jsstring)) (body : jsstring)
  : World :=
  {| stat_of := fun _ => Ok {| size := 60 * 1024 * 1024 |};
     file_of := fun _ => Ok (js "{}");
     response_of := fun _ =>
       Ok {| Effects.status := status; statusText := js "Status"; headers := headers |};
     body_of := fun _ => Ok body |}.

Definition response (status : Z) (headers : list (jsstring * jsstring)) : Response :=
  {| Effects.status := status; statusText := js "Status"; headers := headers |}.

(** 200 times the letter e with an acute accent (U+00E9), two bytes
    each in UTF-8. *)
Definition accents : jsstring := repeat 233%N 200.

(** A body of 50 MB and one byte. *)
Definition bigBody : jsstring := repeat 32%N (Z.to_nat (50 * 1024 * 1024 + 1)).

(** [{"a":1}] *)
Definition a1 : JsValue := JObject [(js "a", num 1)].


(** The value of the document [{"a\\b":1}], whose key is the three
    characters a, backslash, b. *)
Definition escapedKey : JsValue := JObject [(js "a\b", num 1)].

End Samples.

(** ** Local files, earlier revision (strategies/LocalFileStrategy.ts
    before the size cap: the file is read without a stat) *)

Module LocalFileStrategyUncapped.

Definition canHandle (source : jsstring) : bool :=
  negb (startsWith source (js "http://")) && negb (startsWith source (js "https://")).

Definition ingest (rt : Runtime) (source : jsstring) : IO JsonIngestionResult :=
  let resolvedPath := path_resolve rt source in
  jsonContent <- await fs_readFile resolvedPath ;;
  match jsonContent with
  | Throw error =>
      Ret (Failure {| type := file_not_found;
                      message := js "File not found: " ++ resolvedPath;
                      details := DetailsThrown error |})
  | Ok jsonContent => Ret (validateJsonContent rt jsonContent)
  end.

Definition getMetadata : Metadata :=
  {| name := js "LocalFileStrategy";
     description := js "Reads JSON data from local file system";
     supportedSources := [js "Local file paths (relative and absolute)"] |}.

End LocalFileStrategyUncapped.

(** ** HTTPS sources, earlier strategy (strategies/HttpsJsonStrategy.ts,
    which the context does not register) *)

Module HttpsJsonStrategy.

Definition requestTimeout : Z := 10000.

Definition canHandle (source : jsstring) : bool :=
  if negb (startsWith source (js "https://")) then false else true.

Definition fetchFailed (source : jsstring) (error : Thrown) : JsonIngestionError :=
  match error with
  | ThrownError e =>
      if JsString.eqb (err_name e) (js "AbortError") then
        {| type := network_error;
           message := js "Request timeout after " ++ ofInt requestTimeout ++ js "ms";
           details := DetailsThrown error |}
      else
        {| type := network_error;
           message := js "Failed to fetch from " ++ source ++ js ": " ++ err_message e;
           details := DetailsThrown error |}
  | ThrownOther text =>
      {| type := network_error;
         message := js "Failed to fetch from " ++ source ++ js ": " ++ text;
         details := DetailsThrown error |}
  end.

Definition statusDetails (response : Response) (source : jsstring) : Details :=
  DetailsObject [(js "status", DNum (status response));
                 (js "statusText", DStr (statusText response));
                 (js "url", DStr source)].

Definition notJson (response : Response) (source content : jsstring)
  : JsonIngestionError :=
  let contentType :=
    match headers_get response (js "content-type") with
    | Some (c :: s) => c :: s
    | _ => js "unknown"
    end in
  {| type := invalid_json;
     message := js "Response content is not valid JSON. Content-Type: " ++ contentType;
     details :=
       DetailsObject [(js "contentType", DStr contentType);
                      (js "url", DStr source);
                      (js "contentPreview", DStr (substring0 content 200))] |}.

(** [ingest(source)].  The test of the status 429 comes after the
    return on [!response.ok], as in the source. *)
Definition ingest (rt : Runtime) (source : jsstring) : IO JsonIngestionResult :=
  match URL_protocol rt source with
  | Throw error =>
      Ret (Failure {| type := invalid_url;
                      message := js "Invalid URL format: " ++ source;
                      details := DetailsThrown error |})
  | Ok protocol =>
      if negb (JsString.eqb protocol (js "https:"))
      then
        Ret (Failure {| type := invalid_url;
                        message := js "Only HTTPS URLs are supported for security reasons";
                        details := DetailsObject [(js "protocol", DStr protocol)] |})
      else
        response <- await fetch source ;;
        match response with
        | Throw error => Ret (Failure (fetchFailed source error))
        | Ok response =>
            if negb (ok response) then
              Ret (Failure {| type := network_error;
                              message :=
                                js "HTTP " ++ ofInt (status response) ++ js ": "
                                  ++ statusText response;
                              details := statusDetails response source |})
            else if status response =? 429 then
              Ret (Failure {| type := rate_limit_exceeded;
                              message := js "API rate limit exceeded";
                              details := statusDetails response source |})
            else
              content <- await response_text source ;;
              match content with
              | Throw error =>
                  Ret (Failure {| type := network_error;
                                  message := js "Failed to read response content";
                                  details := DetailsThrown error |})
              | Ok content =>
                  match validateJsonContent rt content with
                  | Failure _ => Ret (Failure (notJson response source content))
                  | validation => Ret validation
                  end
              end
        end
  end.

Definition getMetadata : Metadata :=
  {| name := js "HttpsJsonStrategy";
     description :=
       js "Fetches JSON data from HTTPS URLs (static files and API endpoints)";
     supportedSources :=
       [js "HTTPS URLs serving JSON content"; js "JSON API endpoints";
        js "Static .json files"; js "Any HTTPS URL returning valid JSON"] |}.

Definition strategy (rt : Runtime) : JsonIngestionStrategy :=
  {| JsonIngestionStrategy.canHandle := canHandle;
     JsonIngestionStrategy.ingest := ingest rt;
     JsonIngestionStrategy.getMetadata := getMetadata |}.

End HttpsJsonStrategy.

(** ** Further vocabulary *)

Module Relations.

(** A projection stays within a shape: an array holds values within the
    shape; an object has keys of the shape only, with any value under a
    key mapped to [true] and a value within the nested shape under a key
    mapped to one. *)
Fixpoint withinShape (shape : Shape) (v : JsValue) : bool :=
  match v with
  | JArray items => forallb (withinShape shape) items
  | JObject props =>
      forallb (fun e =>
                 match lookup (fst e) (entries shape) with
                 | Some RTrue => true
                 | Some (RShape sub) => withinShape sub (snd e)
                 | _ => false
                 end) props
  | _ => false
  end.

(** The entries of a shape that assign a key of the projection. *)
Definition keeps (data : JsValue) (entry : jsstring * Rule Shape) : bool :=
  match entryEffect data entry with
  | Ok (Some _) => true
  | _ => false
  end.

(** A rule under which [extractWithShape] reads the key of the data. *)
Definition readsData (entry : jsstring * Rule Shape) : bool :=
  match snd entry with
  | ROther => false
  | _ => true
  end.

(** The merge of the breakdowns of the elements of an array, from left
    to right. *)
Definition mergeAll (breakdowns : list Breakdown) : Breakdown :=
  match breakdowns with
  | [] => BObj []
  | first :: rest => fold_left addSizeBreakdowns rest first
  end.

(** A document as [JSON.parse] builds it when no number overflows: no
    [undefined], every number finite. *)
Fixpoint finiteDocument (v : JsValue) : bool :=
  match v with
  | JUndefined => false
  | JNull | JBool _ | JString _ => true
  | JNumber (NumFinite _) => true
  | JNumber _ => false
  | JArray items => forallb finiteDocument items
  | JObject props => forallb (fun e => finiteDocument (snd e)) props
  end.

(** What one entry of the shape adds to a size breakdown, if anything. *)
Definition measureEffect (data : JsValue) (entry : jsstring * Rule Shape)
  : Res (option (jsstring * Breakdown)) :=
  let (key, rule) := entry in
  bind (getProp data key) (fun v =>
    if isUndefined v then Ok None
    else match rule with
         | RTrue => Ok (Some (key, BNum (calculateValueSize v)))
         | RShape sub =>
             bind (calculateSizeWithShape sub v) (fun r => Ok (Some (key, r)))
         | ROther => Ok None
         end).

Definition assignSize (result : list (jsstring * Breakdown))
           (effect : option (jsstring * Breakdown)) : list (jsstring * Breakdown) :=
  match effect with
  | Some (key, b) => objSet result key b
  | None => result
  end.

(** The sum of the sizes at the leaves of a breakdown. *)
Definition sumZ (l : list Z) : Z := fold_right Z.add 0 l.

Fixpoint breakdownTotal (b : Breakdown) : Z :=
  match b with
  | BNum n => n
  | BObj props => sumZ (map (fun e => breakdownTotal (snd e)) props)
  | BMember _ => 0
  end.

Fixpoint nonNegative (b : Breakdown) : bool :=
  match b with
  | BNum n => 0 <=? n
  | BObj props => forallb (fun e => nonNegative (snd e)) props
  | BMember _ => true
  end.

(** A shape none of whose keys, at any depth, is [__proto__]: every
    assignment [result[key] = v] of a traversal creates a property. *)
Fixpoint noProtoKey (shape : Shape) : bool :=
  match shape with
  | MkShape es =>
      forallb (fun e => negb (JsString.eqb (fst e) (js "__proto__"))
                        && match snd e with
                           | RShape sub => noProtoKey sub
                           | _ => true
                           end) es
  end.

(** A shape without a nested shape. *)
Definition flatShape (shape : Shape) : bool :=
  forallb (fun e => match snd e with RShape _ => false | _ => true end)
          (entries shape).

(** The shape descends into objects and arrays only: a nested shape is
    applied to what an object owns under its key, never to a number, a
    boolean or a string, whose keys are those of their prototypes. *)
Fixpoint descendsObjects (shape : Shape) : JsValue -> bool :=
  fix onData (data : JsValue) : bool :=
    match data with
    | JArray items => forallb onData items
    | JObject props =>
        match shape with
        | MkShape es =>
            forallb (fun e =>
                       match snd e with
                       | RShape sub =>
                           match lookup (fst e) props with
                           | Some v => descendsObjects sub v
                           | None => true
                           end
                       | _ => true
                       end) es
        end
    | JUndefined | JNull => true
    | _ => flatShape shape
    end.

(** A key under which a string has a property of its own: [length] or
    an index. *)
Definition stringKey (key : jsstring) : bool :=
  JsString.eqb key (js "length")
  || match arrayIndex key with Some _ => true | None => false end.

(** A shape none of whose keys, at any depth, is a key of a string. *)
Fixpoint namedShape (shape : Shape) : bool :=
  match shape with
  | MkShape es =>
      forallb (fun e => negb (stringKey (fst e))
                        && match snd e with
                           | RShape sub => namedShape sub
                           | _ => true
                           end) es
  end.

(** The accounted size of what a value holds under a key. *)
Definition weight (data : JsValue) (key : jsstring) : Z :=
  match getProp data key with
  | Ok v => calculateValueSize v
  | Throw _ => 0
  end.

(** The kinds of failure each strategy answers. *)
Definition localFailureKinds : list ErrorKind :=
  [file_not_found; content_too_large; invalid_json].

Definition httpFailureKinds : list ErrorKind :=
  [invalid_url; network_error; authentication_required; rate_limit_exceeded;
   server_error; content_too_large; invalid_json].

End Relations.
Export Relations.


(** ** Sample worlds *)

Module Worlds.

(** A disk where every file holds [{}] and weighs [fileSize] bytes, with
    no network. *)
Definition disk (fileSize : Z) : World :=
  {| stat_of := fun _ => Ok {| size := fileSize |};
     file_of := fun _ => Ok (js "{}");
     response_of := fun _ => Throw (ThrownOther (js "offline"));
     body_of := fun _ => Throw (ThrownOther (js "offline")) |}.

(** A network where every URL answers 200 with the body [{}]. *)
Definition online : World := Samples.world 200 [] (js "{}").

End Worlds.

(** * Properties *)

(** ** Strings and lists *)

Lemma eqb_eq (a b : jsstring) : JsString.eqb a b = true <-> a = b.
Proof.
  revert b; induction a as [|x a IH]; intros [|y b]; simpl;
    try (split; [discriminate | discriminate]); [tauto|].
  rewrite andb_true_iff, N.eqb_eq, IH. split.
  - intros [-> ->]; reflexivity.
  - intros H; injection H as -> ->; auto.
Qed.

Lemma eqb_refl (a : jsstring) : JsString.eqb a a = true.
Proof. now apply eqb_eq. Qed.

Lemma eqb_neq (a b : jsstring) : JsString.eqb a b = false <-> a <> b.
Proof.
  split.
  - intros H E. apply eqb_eq in E. congruence.
  - intros H. destruct (JsString.eqb a b) eqn:E; [|reflexivity].
    apply eqb_eq in E. contradiction.
Qed.

Lemma eqb_sym (a b : jsstring) : JsString.eqb a b = JsString.eqb b a.
Proof.
  destruct (JsString.eqb a b) eqn:E.
  - apply eqb_eq in E. subst. symmetry. apply eqb_refl.
  - symmetry. apply eqb_neq. apply eqb_neq in E. congruence.
Qed.

Lemma JsValue_ind (P : JsValue -> Prop) :
  P JUndefined -> P JNull -> (forall b, P (JBool b)) -> (forall n, P (JNumber n)) ->
  (forall s, P (JString s)) ->
  (forall items, Forall P items -> P (JArray items)) ->
  (forall props, Forall (fun e => P (snd e)) props -> P (JObject props)) ->
  forall v, P v.
Proof.
  intros Hu Hn Hb Hnum Hs Ha Ho.
  fix IH 1.
  intros [| |b|n|s|items|props];
    [exact Hu | exact Hn | apply Hb | apply Hnum | apply Hs | apply Ha | apply Ho].
  - induction items as [|x items IHl]; constructor; [apply IH | exact IHl].
  - induction props as [|[k x] props IHl]; constructor; [apply IH | exact IHl].
Qed.

Lemma Breakdown_ind (P : Breakdown -> Prop) :
  (forall n, P (BNum n)) ->
  (forall props, Forall (fun e => P (snd e)) props -> P (BObj props)) ->
  (forall name, P (BMember name)) ->
  forall b, P b.
Proof.
  intros Hn Ho Hm. fix IH 1. intros [n|props|name]; [apply Hn | apply Ho | apply Hm].
  induction props as [|[k x] props IHl]; constructor; [apply IH | exact IHl].
Qed.

Lemma forIn_cons {E S} (body : S -> E -> Res S) (e : E) (l : list E) (s : S) :
  forIn body (e :: l) s = bind (body s e) (forIn body l).
Proof. reflexivity. Qed.

Lemma forIn_app {E S} (body : S -> E -> Res S) (l1 l2 : list E) (s : S) :
  forIn body (l1 ++ l2) s = bind (forIn body l1 s) (forIn body l2).
Proof.
  revert s; induction l1 as [|e l1 IH]; intros s; simpl; [reflexivity|].
  destruct (body s e); simpl; auto.
Qed.

Lemma mapM_Ok {A B} (f : A -> Res B) (l : list A) (rs : list B) :
  mapM f l = Ok rs <-> Forall2 (fun x r => f x = Ok r) l rs.
Proof.
  revert rs; induction l as [|x l IH]; intros rs; simpl.
  - split; intros H; [injection H as <-; constructor | inversion H; reflexivity].
  - split.
    + destruct (f x) eqn:Ex; simpl; [|discriminate].
      destruct (mapM f l) eqn:El; simpl; [|discriminate].
      intros H; injection H as <-. constructor; [assumption|]. now apply IH.
    + intros H; inversion H as [|? r ? rs' Hx Hl]; subst.
      rewrite Hx; simpl. apply IH in Hl. rewrite Hl. reflexivity.
Qed.

Lemma mapM_Throw {A B} (f : A -> Res B) (l : list A) (e : Thrown) :
  mapM f l = Throw e -> exists x, In x l /\ f x = Throw e.
Proof.
  induction l as [|x l IH]; simpl; [discriminate|].
  destruct (f x) eqn:Ex; simpl.
  - destruct (mapM f l) eqn:El; simpl; [discriminate|].
    intros H; injection H as ->. destruct (IH eq_refl) as [y [Hy Hf]].
    exists y; auto.
  - intros H; injection H as ->. exists x; auto.
Qed.

Lemma mapM_In_Throw {A B} (f : A -> Res B) (l : list A) (x : A) (e : Thrown) :
  In x l -> f x = Throw e -> exists e', mapM f l = Throw e'.
Proof.
  induction l as [|y l IH]; simpl; [contradiction|].
  intros [->|Hin] Hx.
  - rewrite Hx. simpl. eauto.
  - destruct (f y); simpl; [|eauto].
    destruct (IH Hin Hx) as [e' ->]. simpl. eauto.
Qed.

Lemma lookup_objSet {V} (props : list (jsstring * V)) (key k : jsstring) (v : V) :
  lookup k (objSet props key v) =
  if JsString.eqb key k then Some v else lookup k props.
Proof.
  induction props as [|[k0 old] props IH]; simpl; [reflexivity|].
  destruct (JsString.eqb k0 key) eqn:E0; simpl.
  - apply eqb_eq in E0; subst k0. destruct (JsString.eqb key k); reflexivity.
  - rewrite IH. destruct (JsString.eqb k0 k) eqn:E1; [|reflexivity].
    apply eqb_eq in E1; subst k0. now rewrite eqb_sym, E0.
Qed.



(** ** The projector *)

Lemma extractWithShape_eq (shape : Shape) (data : JsValue) :
  extractWithShape shape data =
  match data with
  | JArray items => fmap JArray (mapM (extractWithShape shape) items)
  | _ => fmap JObject (forIn (projectEntry data) (entries shape) [])
  end.
Proof. destruct shape, data; reflexivity. Qed.

Lemma projectEntry_effect (data : JsValue) (result : Props)
      (entry : jsstring * Rule Shape) :
  projectEntry data result entry = fmap (assign result) (entryEffect data entry).
Proof.
  destruct entry as [key [|sub|]]; simpl; try reflexivity.
  - destruct (getProp data key); reflexivity.
  - destruct (getProp data key) as [v|]; simpl; [|reflexivity].
    destruct (isUndefined v); simpl; [reflexivity|].
    destruct (extractWithShape sub v); reflexivity.
Qed.

Lemma extractWithShape_array_eq (shape : Shape) (items : list JsValue) :
  extractWithShape shape (JArray items)
  = fmap JArray (mapM (extractWithShape shape) items).
Proof. apply (extractWithShape_eq shape (JArray items)). Qed.

Lemma extractWithShape_object_eq (shape : Shape) (data : JsValue) :
  isArray data = false ->
  extractWithShape shape data
  = fmap JObject (forIn (projectEntry data) (entries shape) []).
Proof.
  intros H. rewrite extractWithShape_eq. destruct data; try reflexivity.
  discriminate.
Qed.

(** C2 (as amended).  The projection of an array is the array of the
    projections of its elements under the same shape: when the projection
    of every element returns, the projection of the array returns an array
    of the same length whose i-th element is the projection of the i-th
    element; when the projection of an element raises, so does the
    projection of the array. *)
Theorem array_projection_elementwise (shape : Shape) (items : list JsValue) :
  (Forall (fun item => exists r, extractWithShape shape item = Ok r) items ->
   exists results,
     extractWithShape shape (JArray items) = Ok (JArray results)
     /\ List.length results = List.length items
     /\ forall i item, nth_error items i = Some item ->
          exists r, nth_error results i = Some r
                    /\ extractWithShape shape item = Ok r)
  /\ (forall item e, In item items -> extractWithShape shape item = Throw e ->
      exists e', extractWithShape shape (JArray items) = Throw e').
Proof.
  rewrite extractWithShape_array_eq. split.
  - intros Hall.
    assert (exists results, Forall2 (fun x r => extractWithShape shape x = Ok r)
                                    items results) as [results H2].
    { induction Hall as [|x l [r Hr] _ [rs IH]].
      - exists []. constructor.
      - exists (r :: rs). constructor; assumption. }
    exists results. split; [|split].
    + apply mapM_Ok in H2. rewrite H2. reflexivity.
    + symmetry. eapply Forall2_length; eassumption.
    + clear Hall. induction H2 as [|x r l rs Hx _ IH]; intros [|i] item Hi;
        simpl in *; try discriminate.
      * injection Hi as <-. eauto.
      * eauto.
  - intros item e Hin Hthrow.
    destruct (mapM_In_Throw _ _ _ _ Hin Hthrow) as [e' ->]. simpl. eauto.
Qed.

Lemma array_projection_elementwise_witness :
  exists results,
    extractWithShape Samples.idOnly (JArray Samples.userList) = Ok (JArray results)
    /\ List.length results = List.length Samples.userList
    /\ forall i item,
         nth_error Samples.userList i = Some item ->
         exists r, nth_error results i = Some r
                   /\ extractWithShape Samples.idOnly item = Ok r.
Proof.
  apply (proj1 (array_projection_elementwise Samples.idOnly Samples.userList)).
  repeat constructor; eexists; reflexivity.
Defined.

(** C2, as stated, fails on an array that holds [null]: under a shape
    with an included key the projection of [[null]] raises a TypeError
    and returns no array. *)
Lemma array_projection_null_element :
  extractWithShape (MkShape [(js "a", RTrue)]) (JArray [JNull])
  = Throw (nullishRead (js "null") (js "a")).
Proof. reflexivity. Qed.

Lemma extractWithShape_empty (v : JsValue) :
  extractWithShape (MkShape []) v = Ok (emptyProjection v).
Proof.
  induction v as [| | | | |items IH|props _] using JsValue_ind;
    try reflexivity.
  rewrite extractWithShape_array_eq.
  assert (mapM (extractWithShape (MkShape [])) items = Ok (map emptyProjection items))
    as ->.
  { apply mapM_Ok. induction IH; simpl; constructor; assumption. }
  reflexivity.
Qed.

(** C9 (as amended).  Under the empty shape every value that is not an
    array, in particular every object, projects to the empty object; an
    array projects to the array of the projections of its elements, so
    that an array of objects gives an array of empty objects. *)
Theorem empty_shape_projection (v : JsValue) :
  extractWithShape (MkShape []) v =
  Ok (match v with
      | JArray items => JArray (map emptyProjection items)
      | _ => JObject []
      end).
Proof. rewrite extractWithShape_empty. destruct v; reflexivity. Qed.

(** C9, as stated, fails on arrays: [[{"a":1}]] projects to [[{}]], an
    array, and not to the empty object. *)
Lemma empty_shape_on_array :
  extractWithShape (MkShape []) (JArray [JObject [(js "a", JNumber (numberOfInt 1))]])
  <> Ok (JObject []).
Proof. discriminate. Qed.

Lemma entryEffect_key (data : JsValue) (entry : jsstring * Rule Shape)
      (k : jsstring) (v : JsValue) :
  entryEffect data entry = Ok (Some (k, v)) -> k = fst entry.
Proof.
  destruct entry as [key [|sub|]]; simpl; [| |discriminate].
  - destruct (getProp data key); simpl; [|discriminate]. congruence.
  - destruct (getProp data key) as [x|]; simpl; [|discriminate].
    destruct (isUndefined x); [discriminate|].
    destruct (extractWithShape sub x); simpl; [|discriminate]. congruence.
Qed.


Lemma forIn_projectEntry_keys (data : JsValue) (es : list (jsstring * Rule Shape))
      (acc acc' : Props) (k : jsstring) :
  forIn (projectEntry data) es acc = Ok acc' ->
  lookup k acc' <> None ->
  lookup k acc <> None \/ In k (map fst es).
Proof.
  revert acc; induction es as [|entry es IH]; intros acc; simpl.
  - intros H; injection H as <-. auto.
  - rewrite projectEntry_effect.
    destruct (entryEffect data entry) as [[[k2 v]|]|] eqn:Eeff; simpl;
      [| |discriminate].
    + intros Hrun Hk. destruct (IH _ Hrun Hk) as [Hin|Hin]; [|auto].
      rewrite lookup_objSet in Hin.
      destruct (JsString.eqb k2 k) eqn:E; [|auto].
      apply eqb_eq in E; subst k2. apply entryEffect_key in Eeff. auto.
    + intros Hrun Hk. destruct (IH _ Hrun Hk); auto.
Qed.




(** C6 (as amended).  For a value that is not an array and a shape key
    mapped to a nested shape, when the value has nothing under that key
    (the read gives [undefined]) the key is dropped silently: the
    projection, result or exception, is what it is for the shape without
    that key, and a returned object has no such key unless the shape
    names it a second time. *)
Theorem nested_key_absent_dropped (data : JsValue) (key : jsstring) (sub : Shape)
        (before after : list (jsstring * Rule Shape)) :
  isArray data = false ->
  getProp data key = Ok JUndefined ->
  extractWithShape (MkShape (before ++ (key, RShape sub) :: after)) data
  = extractWithShape (MkShape (before ++ after)) data
  /\ (forall result,
        extractWithShape (MkShape (before ++ (key, RShape sub) :: after)) data
        = Ok (JObject result) ->
        ~ In key (map fst (before ++ after)) ->
        lookup key result = None).
Proof.
  intros Harr Habs.
  assert (extractWithShape (MkShape (before ++ (key, RShape sub) :: after)) data
          = extractWithShape (MkShape (before ++ after)) data) as Heq.
  { rewrite !extractWithShape_object_eq by assumption. simpl entries.
    rewrite !forIn_app. destruct (forIn (projectEntry data) before []) as [acc|];
      simpl; [|reflexivity].
    rewrite Habs. reflexivity. }
  split; [exact Heq|].
  intros result Hres Hnot. rewrite Heq in Hres.
  rewrite extractWithShape_object_eq in Hres by assumption. simpl entries in Hres.
  destruct (forIn (projectEntry data) (before ++ after) []) as [acc|] eqn:Erun;
    simpl in Hres; [|discriminate].
  injection Hres as <-.
  destruct (lookup key acc) eqn:El; [|reflexivity].
  destruct (forIn_projectEntry_keys _ _ _ _ key Erun) as [H|H].
  - congruence.
  - simpl in H. contradiction.
  - contradiction.
Qed.

Lemma nested_key_absent_dropped_witness :
  extractWithShape
    (MkShape ([(js "name", RTrue)] ++ (js "address", RShape Samples.idOnly) :: []))
    Samples.person
  = extractWithShape (MkShape ([(js "name", RTrue)] ++ [])) Samples.person.
Proof.
  exact (proj1 (nested_key_absent_dropped Samples.person (js "address") Samples.idOnly
                  [(js "name", RTrue)] [] eq_refl eq_refl)).
Defined.

(** C6, as stated, fails for [null]: [{"user":null}] under
    [{"user":{"name":true}}] recurses into [null], the read of [name]
    raises a TypeError, and the filter answers a validation error. *)
Lemma nested_key_null_raises :
  extractWithShape Samples.userName Samples.nullUser
  = Throw (nullishRead (js "null") (js "name"))
  /\ Index.applyShapeFilter Samples.nullUser Samples.userName
     = Index.FilterFailure
         {| type := validation_error;
            message := js "Failed to apply shape filter";
            details := DetailsThrown (nullishRead (js "null") (js "name")) |}.
Proof. split; reflexivity. Qed.



(** ** The size accountant *)

Lemma utf8Length_cons_ascii (c : codeUnit) (s : jsstring) :
  isAscii c = true -> utf8Length (c :: s) = 1 + utf8Length s.
Proof. unfold isAscii. intros H. simpl. rewrite H. reflexivity. Qed.

Lemma ascii_not_low (c : codeUnit) : isAscii c = true -> isLowSurrogate c = false.
Proof.
  unfold isAscii, isLowSurrogate. intros H. apply N.ltb_lt in H.
  apply andb_false_iff. left. apply N.leb_gt. lia.
Qed.

(** Byte lengths add up across a boundary that does not split a
    surrogate pair. *)
Lemma utf8Length_app (a : jsstring) (c : codeUnit) (b : jsstring) :
  isLowSurrogate c = false ->
  utf8Length (a ++ c :: b) = utf8Length a + utf8Length (c :: b).
Proof.
  intros Hc.
  assert (forall n a, (List.length a <= n)%nat ->
            utf8Length (a ++ c :: b) = utf8Length a + utf8Length (c :: b)) as H.
  { remember (utf8Length (c :: b)) as tail eqn:Etail.
    induction n as [|n IH]; intros [|x a'] Hlen; simpl in Hlen;
      try (rewrite Etail; reflexivity); try lia.
    cbn [app utf8Length].
    destruct (N.ltb x 128); [rewrite IH by lia; lia|].
    destruct (N.ltb x 2048); [rewrite IH by lia; lia|].
    destruct (isHighSurrogate x); [|rewrite IH by lia; lia].
    destruct a' as [|d a'']; cbn [app].
    - rewrite Hc, Etail. reflexivity.
    - destruct (isLowSurrogate d).
      + simpl in Hlen. rewrite (IH a'') by lia. lia.
      + rewrite app_comm_cons. rewrite (IH (d :: a'')) by lia. lia. }
  apply (H (List.length a)). lia.
Qed.

Lemma utf8Length_app_ascii (a : jsstring) (c : codeUnit) (b : jsstring) :
  isAscii c = true ->
  utf8Length (a ++ c :: b) = utf8Length a + 1 + utf8Length b.
Proof.
  intros Hc. rewrite utf8Length_app by (apply ascii_not_low; assumption).
  rewrite utf8Length_cons_ascii by assumption. lia.
Qed.

(** The bytes of [parts.join(",")] followed by an ASCII character. *)
Lemma utf8Length_join (parts : list jsstring) (c : codeUnit) (rest : jsstring) :
  isAscii c = true ->
  utf8Length (join (js ",") parts ++ c :: rest)
  = separated utf8Length parts + 1 + utf8Length rest.
Proof.
  intros Hc. induction parts as [|p parts IH].
  - simpl join. simpl separated. rewrite app_nil_l.
    rewrite utf8Length_cons_ascii by assumption. lia.
  - destruct parts as [|q parts].
    + simpl join. simpl separated. rewrite utf8Length_app_ascii by assumption. lia.
    + change (join (js ",") (p :: q :: parts))
        with (p ++ 44%N :: join (js ",") (q :: parts)).
      rewrite <- app_assoc, <- app_comm_cons.
      rewrite utf8Length_app_ascii by reflexivity.
      transitivity (utf8Length p + 1
                    + (separated utf8Length (q :: parts) + 1 + utf8Length rest)).
      * f_equal. exact IH.
      * change (separated utf8Length (p :: q :: parts))
          with (utf8Length p + 1 + separated utf8Length (q :: parts)).
        lia.
Qed.

Lemma separated_map {A B} (f : B -> Z) (h : A -> B) (l : list A) :
  separated f (map h l) = separated (fun a => f (h a)) l.
Proof.
  induction l as [|a l IH]; simpl; [reflexivity|].
  rewrite IH. destruct l; reflexivity.
Qed.

Lemma separated_ext {A} (f g : A -> Z) (l : list A) :
  Forall (fun a => f a = g a) l -> separated f l = separated g l.
Proof.
  induction 1 as [|a l Ha _ IH]; simpl; [reflexivity|]. rewrite Ha, IH. reflexivity.
Qed.

Lemma filter_map_commute {A B} (p : B -> bool) (h : A -> B) (l : list A) :
  filter p (map h l) = map h (filter (fun a => p (h a)) l).
Proof.
  induction l as [|a l IH]; simpl; [reflexivity|].
  rewrite IH. destruct (p (h a)); reflexivity.
Qed.

(** [calculateValueSize] on an object, as the source writes it: the
    entries whose value is not [undefined], each with its quoted key, a
    colon and its value, separated by commas, between two braces. *)
Lemma calculateValueSize_object (props : Props) :
  calculateValueSize (JObject props)
  = 2 + separated
          (fun e => utf8Length (34%N :: fst e ++ [34%N]) + 1 + calculateValueSize (snd e))
          (filter (fun e => negb (isUndefined (snd e))) props).
Proof.
  cbn [calculateValueSize]. f_equal.
  rewrite filter_map_commute, separated_map. reflexivity.
Qed.

Lemma calculateValueSize_array (items : list JsValue) :
  calculateValueSize (JArray items) = 2 + separated calculateValueSize items.
Proof. reflexivity. Qed.

Lemma wrap_compact_length (open close : codeUnit) (partial : list jsstring) :
  isAscii open = true -> isAscii close = true ->
  utf8Length (Json.wrap [] [] [] open close partial)
  = 2 + separated utf8Length partial.
Proof.
  intros Ho Hc. unfold Json.wrap. destruct partial as [|p partial].
  - rewrite !utf8Length_cons_ascii by assumption. reflexivity.
  - rewrite utf8Length_cons_ascii by assumption.
    rewrite utf8Length_join by assumption. simpl utf8Length. lia.
Qed.

(** The accountant is exact on a document whose keys need no escape:
    [calculateValueSize] is the byte length of [JSON.stringify]. *)
Lemma calculateValueSize_plain (v : JsValue) :
  plainDocument v = true ->
  option_map utf8Length (Json.stringify v) = Some (calculateValueSize v).
Proof.
  unfold Json.stringify.
  induction v as [| |b|n|s|items IH|props IH] using JsValue_ind; intros Hplain;
    try discriminate; try reflexivity.
  - destruct b; reflexivity.
  - destruct n; try discriminate. reflexivity.
  - cbn [Json.serialize option_map app]. f_equal.
    rewrite wrap_compact_length by reflexivity.
    rewrite calculateValueSize_array. f_equal.
    rewrite separated_map. apply separated_ext.
    simpl in Hplain. rewrite forallb_forall in Hplain.
    rewrite Forall_forall in IH |- *. intros item Hin.
    specialize (IH item Hin (Hplain item Hin)).
    destruct (Json.serialize [] [] item); simpl in IH; [|discriminate].
    congruence.
  - cbn [Json.serialize option_map app]. f_equal.
    rewrite wrap_compact_length by reflexivity.
    rewrite calculateValueSize_object. f_equal.
    simpl in Hplain.
    induction IH as [|[k x] props Hx _ IHprops]; [reflexivity|].
    simpl in Hplain. apply andb_true_iff in Hplain as [Hkx Hrest].
    apply andb_true_iff in Hkx as [Hk Hpx].
    specialize (Hx Hpx). specialize (IHprops Hrest). cbn [snd] in Hx.
    cbn [flat_map filter fst snd].
    destruct (Json.serialize [] [] x) as [text|] eqn:Ex; simpl in Hx; [|discriminate].
    injection Hx as Hx.
    assert (isUndefined x = false) as -> by (destruct x; try reflexivity; discriminate).
    cbn [negb app].
    change (separated ?f (?e :: ?l))
      with (f e + (match l with [] => 0 | _ => 1 end) + separated f l).
    rewrite IHprops. cbn [fst snd].
    unfold plainKey in Hk. apply eqb_eq in Hk.
    unfold quote. rewrite Hk.
    f_equal. f_equal.
    { rewrite utf8Length_app_ascii by reflexivity. f_equal. exact Hx. }
    clear -Hrest. destruct props as [|[k' x'] props]; [reflexivity|].
    simpl in Hrest. apply andb_true_iff in Hrest as [H1 _].
    apply andb_true_iff in H1 as [_ H1].
    cbn [flat_map filter snd].
    destruct x' as [| |[|]|[r|neg|]|s|items|ps]; try discriminate; reflexivity.
Qed.

(** The fourth testable property: [{"a":1}] measures 7 bytes. *)
Lemma calculateValueSize_a1 : calculateValueSize Samples.a1 = 7.
Proof. reflexivity. Qed.

(** A number that overflows parses to [Infinity], which the accountant
    measures as the 8 letters of its name while it serializes as [null]. *)
Lemma calculateValueSize_infinity :
  calculateValueSize (JNumber (NumInfinity false)) = 8
  /\ option_map utf8Length (Json.stringify (JNumber (NumInfinity false))) = Some 4.
Proof. split; reflexivity. Qed.

(** C1.  On the document [{"a\\b":1}], whose key holds a backslash, the
    accountant counts the key as it is, between two quotes, and answers 9,
    while the document serializes to 10 bytes: the key is escaped in the
    serialization. *)
Theorem calculateValueSize_escaped_key :
  calculateValueSize Samples.escapedKey = 9
  /\ option_map utf8Length (Json.stringify Samples.escapedKey) = Some 10.
Proof. split; reflexivity. Qed.

(** ** The merge of size breakdowns *)

Lemma Shape_ind (P : Shape -> Prop) :
  (forall es,
      Forall (fun e => match snd e with RShape s => P s | _ => True end) es ->
      P (MkShape es)) ->
  forall s, P s.
Proof.
  intros H. fix IH 1. intros [es]. apply H.
  induction es as [|[k [|s|]] es IHes]; constructor; simpl;
    [exact I | exact IHes | apply IH | exact IHes | exact I | exact IHes].
Qed.

Lemma mem_In (k : jsstring) (l : list jsstring) : mem k l = true <-> In k l.
Proof.
  unfold mem. rewrite existsb_exists. split.
  - intros [x [Hin E]]. apply eqb_eq in E. congruence.
  - intros Hin. exists k. split; [assumption | apply eqb_refl].
Qed.

Lemma mem_app (k : jsstring) (l1 l2 : list jsstring) :
  mem k (l1 ++ l2) = mem k l1 || mem k l2.
Proof. unfold mem. apply existsb_app. Qed.

Lemma In_setOf (k : jsstring) (l : list jsstring) : In k (setOf l) <-> In k l.
Proof.
  induction l as [|x l IH]; simpl; [tauto|].
  rewrite filter_In, IH. split.
  - intros [H|[H _]]; auto.
  - intros [H|H]; [auto|].
    destruct (JsString.eqb k x) eqn:E.
    + apply eqb_eq in E. auto.
    + right. split; [assumption | reflexivity].
Qed.

Lemma mem_setOf (k : jsstring) (l : list jsstring) : mem k (setOf l) = mem k l.
Proof.
  destruct (mem k l) eqn:E.
  - apply mem_In. apply In_setOf. apply mem_In. assumption.
  - destruct (mem k (setOf l)) eqn:E'; [|reflexivity].
    apply (proj1 (mem_In _ _)) in E'. apply (proj1 (In_setOf k l)) in E'.
    apply (proj2 (mem_In k l)) in E'.
    rewrite E in E'. discriminate.
Qed.

Lemma NoDup_setOf (l : list jsstring) : NoDup (setOf l).
Proof.
  induction l as [|x l IH]; simpl; constructor.
  - rewrite filter_In, negb_true_iff, eqb_refl. intros [_ H]. discriminate.
  - apply NoDup_filter. assumption.
Qed.

Lemma setOf_NoDup (l : list jsstring) : NoDup l -> setOf l = l.
Proof.
  induction 1 as [|x l Hx _ IH]; simpl; [reflexivity|].
  rewrite IH. f_equal. apply forallb_filter_id. apply forallb_forall.
  intros y Hy. apply negb_true_iff, eqb_neq. congruence.
Qed.

Lemma filter_twice {A} (p q : A -> bool) (l : list A) :
  filter p (filter q l) = filter (fun x => q x && p x) l.
Proof.
  induction l as [|x l IH]; simpl; [reflexivity|].
  destruct (q x); simpl; [destruct (p x)|]; now rewrite IH.
Qed.

Lemma setOf_app (x y : list jsstring) :
  setOf (x ++ y) = setOf x ++ filter (fun k => negb (mem k x)) (setOf y).
Proof.
  induction x as [|k x IH]; simpl.
  - symmetry. apply forallb_filter_id. apply forallb_forall. reflexivity.
  - rewrite IH, filter_app. do 2 f_equal.
    rewrite filter_twice. apply filter_ext. intros j. unfold mem. simpl.
    rewrite (eqb_sym k j).
    destruct (JsString.eqb j k), (existsb (fun x0 => JsString.eqb x0 j) x); reflexivity.
Qed.

Lemma setOf_setOf_l (x z : list jsstring) : setOf (setOf x ++ z) = setOf (x ++ z).
Proof.
  rewrite !setOf_app, (setOf_NoDup _ (NoDup_setOf x)). f_equal.
  apply filter_ext. intros k. now rewrite mem_setOf.
Qed.

Lemma setOf_setOf_r (x y : list jsstring) : setOf (x ++ setOf y) = setOf (x ++ y).
Proof. rewrite !setOf_app, (setOf_NoDup _ (NoDup_setOf y)). reflexivity. Qed.

Lemma lookup_In {V} (k : jsstring) (props : list (jsstring * V)) (v : V) :
  lookup k props = Some v -> In (k, v) props.
Proof.
  induction props as [|[k0 x] props IH]; simpl; [discriminate|].
  destruct (JsString.eqb k0 k) eqn:E.
  - apply eqb_eq in E. intros H; injection H as <-. left; congruence.
  - auto.
Qed.

Lemma lookup_None {V} (k : jsstring) (props : list (jsstring * V)) :
  lookup k props = None <-> ~ In k (map fst props).
Proof.
  induction props as [|[k0 x] props IH]; simpl; [tauto|].
  destruct (JsString.eqb k0 k) eqn:E.
  - apply eqb_eq in E. split; [discriminate | intros H; exfalso; auto].
  - apply eqb_neq in E. rewrite IH. tauto.
Qed.

Lemma lookup_tabulate {V} (f : jsstring -> V) (keys : list jsstring) (k : jsstring) :
  lookup k (map (fun key => (key, f key)) keys)
  = if mem k keys then Some (f k) else None.
Proof.
  induction keys as [|x keys IH]; simpl; [reflexivity|].
  destruct (JsString.eqb x k) eqn:E; simpl; [|assumption].
  apply eqb_eq in E. congruence.
Qed.

Lemma keys_tabulate {V} (f : jsstring -> V) (keys : list jsstring) :
  map fst (map (fun key => (key, f key)) keys) = keys.
Proof. rewrite map_map. simpl. apply map_id. Qed.

Lemma orZero_Some (b : Breakdown) : orZero (Some b) = b.
Proof.
  destruct b as [n|props|name]; simpl; try reflexivity.
  unfold orElse; simpl. destruct (n =? 0) eqn:E; simpl; [|reflexivity].
  apply Z.eqb_eq in E. congruence.
Qed.

(** [0] is neutral for the merge, on both sides. *)
Lemma addSizeBreakdowns_zero_l (b : Breakdown) : addSizeBreakdowns (BNum 0) b = b.
Proof. destruct b; simp addSizeBreakdowns; reflexivity. Qed.

Lemma addSizeBreakdowns_zero_r (b : Breakdown) : addSizeBreakdowns b (BNum 0) = b.
Proof.
  destruct b as [n|props|name]; simp addSizeBreakdowns; try reflexivity.
  now rewrite Z.add_0_r.
Qed.

Lemma mem_allKeys (k : jsstring) (o1 o2 : list (jsstring * Breakdown)) :
  mem k (allKeys o1 o2) = mem k (map fst o1) || mem k (map fst o2).
Proof. unfold allKeys. now rewrite mem_setOf, mem_app. Qed.

Lemma mem_keys_lookup {V} (k : jsstring) (props : list (jsstring * V)) :
  mem k (map fst props) = false -> lookup k props = None.
Proof.
  intros H. apply lookup_None. intros Hin. apply mem_In in Hin. congruence.
Qed.

(** A read finds what the object owns when the key is the name of no
    member of [Object.prototype]. *)
Lemma getMember_own (o : list (jsstring * Breakdown)) (k : jsstring) :
  inheritedMember k = false -> getMember o k = lookup k o.
Proof. unfold getMember. intros ->. destruct (lookup k o); reflexivity. Qed.

Lemma In_allKeys (k : jsstring) (o1 o2 : list (jsstring * Breakdown)) :
  In k (allKeys o1 o2) -> In k (map fst o1) \/ In k (map fst o2).
Proof.
  unfold allKeys. intros H. apply (proj1 (In_setOf _ _)) in H.
  apply in_app_or in H. exact H.
Qed.

(** The merge of two objects that own no key named like a member of
    [Object.prototype] reads own properties only. *)
Lemma addSizeBreakdowns_objects (o1 o2 : list (jsstring * Breakdown)) :
  (forall k, In k (map fst o1) -> inheritedMember k = false) ->
  (forall k, In k (map fst o2) -> inheritedMember k = false) ->
  addSizeBreakdowns (BObj o1) (BObj o2)
  = BObj (map (fun key =>
                 (key, addSizeBreakdowns (orZero (lookup key o1))
                                         (orZero (lookup key o2))))
              (allKeys o1 o2)).
Proof.
  intros H1 H2. simp addSizeBreakdowns. f_equal. apply map_ext_in. intros k Hk.
  assert (inheritedMember k = false) as Hown
      by (destruct (In_allKeys _ _ _ Hk); auto).
  now rewrite !getMember_own.
Qed.

Lemma keys_allKeys_own (o1 o2 : list (jsstring * Breakdown))
      (f : jsstring -> Breakdown) :
  (forall k, In k (map fst o1) -> inheritedMember k = false) ->
  (forall k, In k (map fst o2) -> inheritedMember k = false) ->
  forall k, In k (map fst (map (fun key => (key, f key)) (allKeys o1 o2))) ->
            inheritedMember k = false.
Proof.
  intros H1 H2 k Hk. rewrite keys_tabulate in Hk.
  destruct (In_allKeys _ _ _ Hk); auto.
Qed.

Lemma noInheritedKey_lookup (es : list (jsstring * Rule Shape)) (k : jsstring)
      (r : Rule Shape) :
  noInheritedKey (MkShape es) = true -> lookup k es = Some r ->
  inheritedMember k = false /\ noInheritedRule r = true.
Proof.
  cbn [noInheritedKey]. rewrite forallb_forall. intros H E.
  specialize (H (k, r) (lookup_In _ _ _ E)). cbn [fst snd] in H.
  apply andb_true_iff in H as [H1 H2]. apply negb_true_iff in H1.
  split; [exact H1|]. destruct r; [reflexivity|exact H2|reflexivity].
Qed.

(** A key of the merge of two objects holds the merge of what the two
    objects hold there, [0] standing for a missing key. *)
Lemma orZero_lookup_merge (o1 o2 : list (jsstring * Breakdown)) (k : jsstring) :
  orZero (lookup k
            (map (fun key => (key, addSizeBreakdowns (orZero (lookup key o1))
                                                     (orZero (lookup key o2))))
                 (allKeys o1 o2)))
  = addSizeBreakdowns (orZero (lookup k o1)) (orZero (lookup k o2)).
Proof.
  rewrite lookup_tabulate, mem_allKeys.
  destruct (mem k (map fst o1)) eqn:E1; simpl; [apply orZero_Some|].
  destruct (mem k (map fst o2)) eqn:E2; simpl; [apply orZero_Some|].
  rewrite (mem_keys_lookup _ _ E1), (mem_keys_lookup _ _ E2). reflexivity.
Qed.

Lemma fits_number (r : Rule Shape) (n : Z) : fits r (BNum n) = true -> r = RTrue.
Proof. destruct r; simpl; congruence. Qed.

Lemma fits_true (b : Breakdown) : fitsOrZero RTrue b -> exists n, b = BNum n.
Proof.
  intros [->|H]; [eauto|]. destruct b as [n|props|name]; [eauto|discriminate|discriminate].
Qed.

Lemma fits_object (r : Rule Shape) (props : list (jsstring * Breakdown)) :
  fits r (BObj props) = true ->
  exists es, r = RShape (MkShape es)
             /\ forall k v, In (k, v) props ->
                  exists r', lookup k es = Some r' /\ fits r' v = true.
Proof.
  destruct r as [|[es]|]; simpl; try discriminate.
  intros H. exists es. split; [reflexivity|].
  rewrite forallb_forall in H. intros k v Hin. specialize (H (k, v) Hin).
  simpl in H. destruct (lookup k es) as [r'|]; [eauto|discriminate].
Qed.

Lemma fits_shape (es : list (jsstring * Rule Shape)) (b : Breakdown) :
  fitsOrZero (RShape (MkShape es)) b ->
  b = BNum 0
  \/ exists props, b = BObj props
       /\ forall k v, In (k, v) props ->
            exists r', lookup k es = Some r' /\ fits r' v = true.
Proof.
  intros [->|H]; [auto|]. destruct b as [n|props|name]; [discriminate| |discriminate].
  right. exists props. split; [reflexivity|].
  destruct (fits_object _ _ H) as [es' [E H']]. injection E as <-. exact H'.
Qed.

Lemma fits_keys_own (es : list (jsstring * Rule Shape))
      (o : list (jsstring * Breakdown)) :
  noInheritedKey (MkShape es) = true ->
  (forall k v, In (k, v) o -> exists r', lookup k es = Some r' /\ fits r' v = true) ->
  forall k, In k (map fst o) -> inheritedMember k = false.
Proof.
  intros Hp H k Hk. apply in_map_iff in Hk as [[k' v] [E Hin]].
  cbn [fst] in E. subst k'. destruct (H k v Hin) as [r' [Hr' _]].
  apply (noInheritedKey_lookup es k r' Hp Hr').
Qed.

(** What an object that fits a shape holds at a key, [0] included. *)
Lemma fits_orZero_lookup (es : list (jsstring * Rule Shape))
      (props : list (jsstring * Breakdown)) (k : jsstring) (r : Rule Shape) :
  (forall k v, In (k, v) props -> exists r', lookup k es = Some r' /\ fits r' v = true) ->
  lookup k es = Some r ->
  fitsOrZero r (orZero (lookup k props)).
Proof.
  intros H Hr. destruct (lookup k props) as [v|] eqn:E; [|left; reflexivity].
  rewrite orZero_Some. right.
  destruct (H k v (lookup_In _ _ _ E)) as [r' [Hr' Hv]]. congruence.
Qed.

Lemma allKeys_assoc (oa ob oc : list (jsstring * Breakdown))
      (f g : jsstring -> Breakdown) :
  allKeys oa (map (fun key => (key, f key)) (allKeys ob oc))
  = allKeys (map (fun key => (key, g key)) (allKeys oa ob)) oc.
Proof.
  unfold allKeys. rewrite !keys_tabulate, setOf_setOf_r, setOf_setOf_l, app_assoc.
  reflexivity.
Qed.

(** The merge is associative on breakdowns that fit one rule, no key of
    which is the name of a member of [Object.prototype]. *)
Lemma addSizeBreakdowns_assoc_fits (a : Breakdown) :
  forall (r : Rule Shape) (b c : Breakdown),
    noInheritedRule r = true ->
    fitsOrZero r a -> fitsOrZero r b -> fitsOrZero r c ->
    addSizeBreakdowns a (addSizeBreakdowns b c)
    = addSizeBreakdowns (addSizeBreakdowns a b) c.
Proof.
  induction a as [n|oa IH|name] using Breakdown_ind; intros r b c Hr Ha Hb Hc.
  - destruct Ha as [Ha|Ha].
    + injection Ha as ->. now rewrite !addSizeBreakdowns_zero_l.
    + apply fits_number in Ha; subst r.
      destruct (fits_true _ Hb) as [m ->], (fits_true _ Hc) as [p ->].
      simp addSizeBreakdowns. now rewrite Z.add_assoc.
  - destruct Ha as [Ha|Ha]; [discriminate|].
    destruct (fits_object _ _ Ha) as [es [-> Hoa]]. cbn [noInheritedRule] in Hr.
    destruct (fits_shape _ _ Hb) as [->|[ob [-> Hob]]].
    { now rewrite addSizeBreakdowns_zero_l, addSizeBreakdowns_zero_r. }
    destruct (fits_shape _ _ Hc) as [->|[oc [-> Hoc]]].
    { now rewrite !addSizeBreakdowns_zero_r. }
    pose proof (fits_keys_own es oa Hr Hoa) as Ka.
    pose proof (fits_keys_own es ob Hr Hob) as Kb.
    pose proof (fits_keys_own es oc Hr Hoc) as Kc.
    rewrite (addSizeBreakdowns_objects ob oc Kb Kc),
      (addSizeBreakdowns_objects oa ob Ka Kb).
    rewrite (addSizeBreakdowns_objects oa _ Ka (keys_allKeys_own ob oc _ Kb Kc)).
    rewrite (addSizeBreakdowns_objects _ oc (keys_allKeys_own oa ob _ Ka Kb) Kc).
    f_equal.
    erewrite allKeys_assoc. apply map_ext. intros k. f_equal.
    rewrite !orZero_lookup_merge.
    destruct (lookup k oa) as [v|] eqn:E.
    + rewrite orZero_Some.
      pose proof (lookup_In _ _ _ E) as Hin.
      destruct (Hoa k v Hin) as [r' [Hr' Hv]].
      rewrite Forall_forall in IH.
      apply (IH (k, v) Hin r').
      * apply (noInheritedKey_lookup es k r' Hr Hr').
      * right; exact Hv.
      * eapply fits_orZero_lookup; eassumption.
      * eapply fits_orZero_lookup; eassumption.
    + simpl orZero. now rewrite !addSizeBreakdowns_zero_l.
  - destruct Ha as [Ha|Ha]; discriminate.
Qed.

(** The merge is commutative, as a mapping from keys to sizes, on
    breakdowns that fit one rule, no key of which is the name of a member
    of [Object.prototype]. *)
Lemma addSizeBreakdowns_comm_fits (a : Breakdown) :
  forall (r : Rule Shape) (b : Breakdown),
    noInheritedRule r = true ->
    fitsOrZero r a -> fitsOrZero r b ->
    sameSizes (addSizeBreakdowns a b) (addSizeBreakdowns b a).
Proof.
  induction a as [n|oa IH|name] using Breakdown_ind; intros r b Hr Ha Hb.
  - destruct Ha as [Ha|Ha].
    + injection Ha as ->.
      rewrite addSizeBreakdowns_zero_l, addSizeBreakdowns_zero_r. intros p; reflexivity.
    + apply fits_number in Ha; subst r. destruct (fits_true _ Hb) as [m ->].
      simp addSizeBreakdowns. rewrite Z.add_comm. intros p; reflexivity.
  - destruct Ha as [Ha|Ha]; [discriminate|].
    destruct (fits_object _ _ Ha) as [es [-> Hoa]]. cbn [noInheritedRule] in Hr.
    destruct (fits_shape _ _ Hb) as [->|[ob [-> Hob]]].
    { rewrite addSizeBreakdowns_zero_l, addSizeBreakdowns_zero_r. intros p; reflexivity. }
    pose proof (fits_keys_own es oa Hr Hoa) as Ka.
    pose proof (fits_keys_own es ob Hr Hob) as Kb.
    rewrite (addSizeBreakdowns_objects oa ob Ka Kb),
      (addSizeBreakdowns_objects ob oa Kb Ka).
    intros [|k p]; [reflexivity|].
    cbn [valueAt]. rewrite !lookup_tabulate, !mem_allKeys, orb_comm.
    destruct (mem k (map fst ob) || mem k (map fst oa)); [|reflexivity].
    destruct (lookup k oa) as [v|] eqn:E.
    + rewrite orZero_Some.
      pose proof (lookup_In _ _ _ E) as Hin.
      destruct (Hoa k v Hin) as [r' [Hr' Hv]].
      rewrite Forall_forall in IH.
      apply (IH (k, v) Hin r').
      * apply (noInheritedKey_lookup es k r' Hr Hr').
      * right; exact Hv.
      * eapply fits_orZero_lookup; eassumption.
    + simpl orZero.
      now rewrite addSizeBreakdowns_zero_l, addSizeBreakdowns_zero_r.
  - destruct Ha as [Ha|Ha]; discriminate.
Qed.

(** The merge of two breakdowns that fit a rule fits it. *)
Lemma addSizeBreakdowns_fits (a : Breakdown) :
  forall (r : Rule Shape) (b : Breakdown),
    noInheritedRule r = true ->
    fitsOrZero r a -> fitsOrZero r b ->
    fits r a = true \/ fits r b = true ->
    fits r (addSizeBreakdowns a b) = true.
Proof.
  induction a as [n|oa IH|name] using Breakdown_ind; intros r b Hr Ha Hb Hab;
    [| |destruct Ha as [Ha|Ha]; discriminate].
  - destruct (fits r (BNum n)) eqn:Hn.
    + apply fits_number in Hn; subst r. destruct (fits_true _ Hb) as [m ->].
      simp addSizeBreakdowns. reflexivity.
    + destruct Ha as [Ha|Ha]; [|congruence]. injection Ha as ->.
      rewrite addSizeBreakdowns_zero_l. destruct Hab; congruence.
  - destruct Ha as [Ha|Ha]; [discriminate|].
    destruct (fits_object _ _ Ha) as [es [-> Hoa]]. cbn [noInheritedRule] in Hr.
    destruct (fits_shape _ _ Hb) as [->|[ob [-> Hob]]].
    { now rewrite addSizeBreakdowns_zero_r. }
    rewrite (addSizeBreakdowns_objects oa ob (fits_keys_own es oa Hr Hoa)
               (fits_keys_own es ob Hr Hob)).
    cbn [fits]. apply forallb_forall.
    intros [k x] Hin. apply in_map_iff in Hin as [k' [E Hk]].
    injection E as -> <-. cbn [fst snd].
    apply (proj2 (mem_In _ _)) in Hk. rewrite mem_allKeys in Hk.
    destruct (lookup k oa) as [v|] eqn:Ea.
    + rewrite orZero_Some.
      pose proof (lookup_In _ _ _ Ea) as Hin.
      destruct (Hoa k v Hin) as [r' [Hr' Hv]]. rewrite Hr'.
      rewrite Forall_forall in IH.
      apply (IH (k, v) Hin r').
      * apply (noInheritedKey_lookup es k r' Hr Hr').
      * right; exact Hv.
      * eapply fits_orZero_lookup; eassumption.
      * left; exact Hv.
    + simpl orZero. rewrite addSizeBreakdowns_zero_l.
      assert (mem k (map fst oa) = false) as Hna.
      { destruct (mem k (map fst oa)) eqn:Em; [|reflexivity].
        apply mem_In in Em. apply lookup_None in Ea. contradiction. }
      rewrite Hna in Hk. simpl in Hk.
      destruct (lookup k ob) as [w|] eqn:Eb.
      * rewrite orZero_Some.
        destruct (Hob k w (lookup_In _ _ _ Eb)) as [r' [Hr' Hw]]. now rewrite Hr'.
      * apply mem_In in Hk. apply lookup_None in Eb. contradiction.
Qed.





(** Nor is the merge associative there: with [{"toString":1}], [{}] and
    [{"toString":2}], one grouping ends with 1 under [toString], the
    other with 3. *)
Lemma addSizeBreakdowns_inherited_not_associative :
  addSizeBreakdowns (BObj [(js "toString", BNum 1)])
    (addSizeBreakdowns (BObj []) (BObj [(js "toString", BNum 2)]))
  = BObj [(js "toString", BNum 1)]
  /\ addSizeBreakdowns
       (addSizeBreakdowns (BObj [(js "toString", BNum 1)]) (BObj []))
       (BObj [(js "toString", BNum 2)])
     = BObj [(js "toString", BNum 3)].
Proof. split; vm_compute; reflexivity. Qed.

(** The last [return] of the merge, for a number on one side and an
    object on the other, keeps the first side that is not 0.  No two
    breakdowns of one shape differ so, and the accountant never merges
    such a pair; on [{"k":5}] and [{"k":{"x":1}}] the function keeps 5 one
    way and [{"x":1}] the other. *)
Lemma addSizeBreakdowns_mismatched_types :
  ~ sameSizes (addSizeBreakdowns Samples.flatFive Samples.nestedOne)
              (addSizeBreakdowns Samples.nestedOne Samples.flatFive).
Proof. intros H. specialize (H [js "k"]). vm_compute in H. discriminate. Qed.

(** And with [{"k":{"x":1}}], [{"k":3}] and [{"k":{"x":2}}] one grouping
    ends with 1 under [k.x], the other with 3. *)
Lemma addSizeBreakdowns_not_associative :
  ~ sameSizes
      (addSizeBreakdowns Samples.nestedOne
         (addSizeBreakdowns Samples.flatThree Samples.nestedTwo))
      (addSizeBreakdowns
         (addSizeBreakdowns Samples.nestedOne Samples.flatThree) Samples.nestedTwo).
Proof. intros H. specialize (H [js "k"; js "x"]). vm_compute in H. discriminate. Qed.

(** The order of the keys of a merge depends on the order of its
    arguments. *)
Lemma addSizeBreakdowns_key_order :
  addSizeBreakdowns Samples.sizesName Samples.sizesAge
  = BObj [(js "name", BNum 4); (js "age", BNum 3)]
  /\ addSizeBreakdowns Samples.sizesAge Samples.sizesName
     = BObj [(js "age", BNum 3); (js "name", BNum 4)].
Proof. split; vm_compute; reflexivity. Qed.

(** ** The breakdowns the accountant computes *)

Lemma calculateSizeWithShape_eq (shape : Shape) (data : JsValue) :
  calculateSizeWithShape shape data =
  match data with
  | JArray items => fmap fst (forIn (mergeItem shape) items (BObj [], true))
  | _ => fmap BObj (forIn (measureEntry data) (entries shape) [])
  end.
Proof. destruct shape, data; reflexivity. Qed.

Lemma In_objSet {V} (props : list (jsstring * V)) (key : jsstring) (v : V)
      (k : jsstring) (x : V) :
  In (k, x) (objSet props key v) -> In (k, x) props \/ (k = key /\ x = v).
Proof.
  induction props as [|[k0 old] props IH]; simpl.
  - intros [E|[]]. injection E as <- <-. auto.
  - destruct (JsString.eqb k0 key) eqn:E0.
    + apply eqb_eq in E0; subst k0. intros [E|Hin]; [|auto].
      injection E as <- <-. auto.
    + intros [E|Hin]; [auto|]. destruct (IH Hin); auto.
Qed.

Lemma lookup_unique {V} (es : list (jsstring * V)) (k : jsstring) (v : V) :
  uniqueKeys (map fst es) = true -> In (k, v) es -> lookup k es = Some v.
Proof.
  induction es as [|[k0 v0] es IH]; simpl; [contradiction|].
  intros Hu [E|Hin].
  - injection E as -> ->. now rewrite eqb_refl.
  - apply andb_true_iff in Hu as [Hk0 Hu].
    destruct (JsString.eqb k0 k) eqn:E0; [|auto].
    apply eqb_eq in E0; subst k0. apply negb_true_iff in Hk0.
    assert (mem k (map fst es) = true) as Hm.
    { apply mem_In. apply in_map_iff. exists (k, v). auto. }
    congruence.
Qed.

(** The object loop of the accountant keeps its result fitting the
    entries of the shape. *)
Lemma forIn_measureEntry_fits (data : JsValue) (es : list (jsstring * Rule Shape)) :
  uniqueKeys (map fst es) = true ->
  Forall (fun e => match snd e with
                   | RShape sub =>
                       forall v r, calculateSizeWithShape sub v = Ok r ->
                                   conforms sub r = true
                   | _ => True
                   end) es ->
  forall todo acc acc',
    (forall e, In e todo -> In e es) ->
    (forall k v, In (k, v) acc ->
       exists r, lookup k es = Some r /\ fits r v = true) ->
    forIn (measureEntry data) todo acc = Ok acc' ->
    (forall k v, In (k, v) acc' ->
       exists r, lookup k es = Some r /\ fits r v = true).
Proof.
  intros Hu Hsub. induction todo as [|[key rule] todo IH]; intros acc acc' Hin Hacc; simpl.
  - intros H; injection H as <-. exact Hacc.
  - destruct (getProp data key) as [x|]; simpl; [|discriminate].
    assert (lookup key es = Some rule) as Hrule.
    { apply lookup_unique; [assumption|]. apply Hin. left; reflexivity. }
    assert (forall e, In e todo -> In e es) as Hin' by (intros e He; apply Hin; right; exact He).
    destruct (isUndefined x); simpl; [apply IH; assumption|].
    destruct rule as [|sub|]; simpl.
    + apply IH; [assumption|].
      intros k v Hk. apply In_objSet in Hk as [Hk|[-> ->]]; [auto|].
      exists RTrue. auto.
    + destruct (calculateSizeWithShape sub x) as [r|] eqn:Er; simpl; [|discriminate].
      apply IH; [assumption|].
      intros k v Hk. apply In_objSet in Hk as [Hk|[-> ->]]; [auto|].
      exists (RShape sub). split; [assumption|].
      rewrite Forall_forall in Hsub.
      apply (Hsub (key, RShape sub) (Hin _ (or_introl eq_refl)) x r Er).
    + apply IH; assumption.
Qed.

(** Every breakdown the accountant computes against a shape with no
    repeated key, and no key named like a member of [Object.prototype],
    conforms to that shape: the breakdowns it merges for the elements of
    an array are in the domain where the merge is associative and
    commutative. *)
Lemma calculateSizeWithShape_conforms (shape : Shape) :
  wfShape shape = true ->
  noInheritedKey shape = true ->
  forall data b, calculateSizeWithShape shape data = Ok b -> conforms shape b = true.
Proof.
  induction shape as [es IHes] using Shape_ind. intros Hwf Hown.
  simpl in Hwf. apply andb_true_iff in Hwf as [Hu Hsubs].
  assert (Forall (fun e => match snd e with
                           | RShape sub =>
                               forall v r, calculateSizeWithShape sub v = Ok r ->
                                           conforms sub r = true
                           | _ => True
                           end) es) as Hsub.
  { rewrite forallb_forall in Hsubs. rewrite Forall_forall in IHes |- *.
    pose proof Hown as Hown'. cbn [noInheritedKey] in Hown'.
    rewrite forallb_forall in Hown'.
    intros [k [|sub|]] He; simpl; auto.
    apply (IHes _ He). apply (Hsubs _ He).
    specialize (Hown' _ He). cbn [fst snd] in Hown'.
    apply andb_true_iff in Hown'. apply Hown'. }
  assert (forall data b, isArray data = false ->
            calculateSizeWithShape (MkShape es) data = Ok b ->
            conforms (MkShape es) b = true) as Hobject.
  { intros data b Harr. rewrite calculateSizeWithShape_eq.
    assert (fmap BObj (forIn (measureEntry data) es []) = Ok b ->
            conforms (MkShape es) b = true) as Hgoal.
    { destruct (forIn (measureEntry data) es []) as [acc|] eqn:Erun; simpl;
        [|discriminate].
      intros H; injection H as <-.
      unfold conforms. cbn [fits]. apply forallb_forall. intros [k v] Hk.
      destruct (forIn_measureEntry_fits data es Hu Hsub es [] acc
                  (fun e He => He) (fun k v (F : In (k, v) []) => match F with end)
                  Erun k v Hk) as [r [Hr Hv]].
      cbn [fst snd]. now rewrite Hr. }
    destruct data; try exact Hgoal. discriminate. }
  induction data as [| |flag|n|s|items IHitems|props _] using JsValue_ind; intros b;
    try (apply Hobject; reflexivity).
  rewrite calculateSizeWithShape_eq.
  assert (forall state state',
            (snd state = true \/ conforms (MkShape es) (fst state) = true) ->
            conforms (MkShape es) (BObj []) = true ->
            forIn (mergeItem (MkShape es)) items state = Ok state' ->
            (state' = state \/ conforms (MkShape es) (fst state') = true)) as Hloop.
  { clear b. induction IHitems as [|item items Hitem _ IHloop]; intros state state' Hs He.
    - simpl. intros H; injection H as <-. auto.
    - rewrite forIn_cons. destruct state as [total first]. unfold mergeItem at 1.
      destruct (calculateSizeWithShape (MkShape es) item) as [bi|] eqn:Ei;
        cbn [bind]; [|discriminate].
      specialize (Hitem bi eq_refl).
      destruct first; intros Hrun.
      + destruct (IHloop (bi, false) state' (or_intror Hitem) He Hrun) as [->|H];
          right; [exact Hitem | exact H].
      + simpl in Hs. destruct Hs as [Hs|Hs]; [discriminate|].
        assert (conforms (MkShape es) (addSizeBreakdowns total bi) = true) as Hadd.
        { apply addSizeBreakdowns_fits; [exact Hown|right; assumption..|auto]. }
        destruct (IHloop (addSizeBreakdowns total bi, false) state'
                    (or_intror Hadd) He Hrun) as [->|H];
          right; [exact Hadd | exact H]. }
  destruct (forIn (mergeItem (MkShape es)) items (BObj [], true)) as [state'|] eqn:Erun;
    simpl; [|discriminate].
  intros H; injection H as <-.
  destruct (Hloop (BObj [], true) state' (or_introl eq_refl) eq_refl Erun) as [->|H];
    [reflexivity|exact H].
Qed.

(** The two end-to-end examples: the projection, the breakdown and the
    total of a flat document, and the merged breakdown of an array. *)
Lemma person_example :
  extractWithShape Samples.nameAndAge Samples.person
  = Ok (JObject [(js "name", Samples.str "John"); (js "age", Samples.num 30)])
  /\ Index.measure Samples.person Samples.nameAndAge
     = Index.DryRunSuccess (BObj [(js "name", BNum 6); (js "age", BNum 2)]) 42.
Proof. split; vm_compute; reflexivity. Qed.

Lemma users_example :
  extractWithShape Samples.userIds Samples.users
  = Ok (JObject [(js "users", JArray [JObject [(js "id", Samples.num 1)];
                                       JObject [(js "id", Samples.num 2)]])])
  /\ calculateSizeWithShape Samples.userIds Samples.users
     = Ok (BObj [(js "users", BObj [(js "id", BNum 2)])]).
Proof. split; vm_compute; reflexivity. Qed.

(** ** Local ingestion *)

(** C4.  When the stat of the resolved path reports a size above the
    50 MB cap, local ingestion answers [content_too_large], with the
    rounded sizes in the message and the exact file size and the cap in
    the details, and the stat is the only operation it performed: the
    file is not read, and no [invalid_json] is answered. *)
Theorem local_oversized_file (rt : Runtime) (w : World) (source : jsstring)
        (stats : Stats) :
  stat_of w (path_resolve rt source) = Ok stats ->
  size stats > 50 * 1024 * 1024 ->
  let resolvedPath := path_resolve rt source in
  let error :=
    {| type := content_too_large;
       message :=
         js "File too large (" ++ ofInt (roundMB (size stats))
           ++ js "MB). This tool is optimized for JSON files under "
           ++ ofInt (roundMB (50 * 1024 * 1024)) ++ js "MB.";
       details :=
         DetailsObject [(js "fileSize", DNum (size stats));
                        (js "maxSize", DNum (50 * 1024 * 1024));
                        (js "filePath", DStr resolvedPath)] |} in
  run w (LocalFileStrategy.ingest rt source) = (Failure error, [EvStat resolvedPath])
  /\ existsb readsFile (snd (run w (LocalFileStrategy.ingest rt source))) = false
  /\ (forall e, fst (run w (LocalFileStrategy.ingest rt source)) = Failure e ->
      type e <> invalid_json).
Proof.
  intros Hstat Hsize resolvedPath error.
  assert (run w (LocalFileStrategy.ingest rt source)
          = (Failure error, [EvStat resolvedPath])) as Hrun.
  { unfold LocalFileStrategy.ingest. cbn [run io_bind fs_stat].
    fold resolvedPath. unfold resolvedPath at 1. rewrite Hstat.
    assert ((size stats >? LocalFileStrategy.maxFileSize) = true) as ->.
    { apply Z.gtb_lt. unfold LocalFileStrategy.maxFileSize. lia. }
    reflexivity. }
  rewrite Hrun. split; [reflexivity|]. split; [reflexivity|].
  intros e He. injection He as <-. discriminate.
Qed.

Lemma local_oversized_file_witness :
  fst (run (Samples.world 200 [] (js "{}"))
           (LocalFileStrategy.ingest Samples.runtime (js "big.json")))
  = Failure (LocalFileStrategy.tooLarge (60 * 1024 * 1024) (js "/data/big.json")).
Proof.
  pose proof (local_oversized_file Samples.runtime (Samples.world 200 [] (js "{}"))
                (js "big.json") {| size := 60 * 1024 * 1024 |} eq_refl eq_refl) as H.
  destruct H as [H _]. rewrite H. reflexivity.
Defined.

(** A file within the cap is read after the stat, and validated. *)
Lemma local_file_within_cap (rt : Runtime) (w : World) (source : jsstring)
      (stats : Stats) (content : jsstring) :
  stat_of w (path_resolve rt source) = Ok stats ->
  size stats <= 50 * 1024 * 1024 ->
  file_of w (path_resolve rt source) = Ok content ->
  run w (LocalFileStrategy.ingest rt source)
  = (validateJsonContent rt content,
     [EvStat (path_resolve rt source); EvReadFile (path_resolve rt source)]).
Proof.
  intros Hstat Hsize Hfile.
  unfold LocalFileStrategy.ingest. cbn [run io_bind fs_stat]. rewrite Hstat.
  assert ((size stats >? LocalFileStrategy.maxFileSize) = false) as ->.
  { rewrite Z.gtb_ltb. apply Z.ltb_ge. unfold LocalFileStrategy.maxFileSize. lia. }
  cbn [run io_bind fs_readFile]. rewrite Hfile. reflexivity.
Qed.

(** ** Remote ingestion *)

(** Once the URL is accepted and the fetch has answered, the strategy
    continues with the status of the response. *)
Lemma http_response_reached (rt : Runtime) (w : World) (source protocol : jsstring)
      (response : Response) :
  URL_protocol rt source = Ok protocol ->
  protocol = js "http:" \/ protocol = js "https:" ->
  response_of w source = Ok response ->
  run w (HttpJsonStrategy.ingest rt source)
  = (fst (run w (if negb (ok response)
                 then HttpJsonStrategy.rejectStatus response source
                 else HttpJsonStrategy.acceptBody rt response source)),
     EvFetch source
       :: snd (run w (if negb (ok response)
                      then HttpJsonStrategy.rejectStatus response source
                      else HttpJsonStrategy.acceptBody rt response source))).
Proof.
  intros Hurl Hprotocol Hfetch. unfold HttpJsonStrategy.ingest. rewrite Hurl.
  assert (negb (JsString.eqb protocol (js "http:"))
          && negb (JsString.eqb protocol (js "https:")) = false) as ->.
  { destruct Hprotocol as [-> | ->]; reflexivity. }
  cbn [run io_bind fetch]. rewrite Hfetch.
  destruct (run w (if negb (ok response)
                   then HttpJsonStrategy.rejectStatus response source
                   else HttpJsonStrategy.acceptBody rt response source)).
  reflexivity.
Qed.

Lemma declaredTooLarge_absent (response : Response) (source : jsstring) :
  headers_get response (js "content-length") = None ->
  HttpJsonStrategy.declaredTooLarge response source = None.
Proof. unfold HttpJsonStrategy.declaredTooLarge. now intros ->. Qed.

Lemma run_readBody_too_large (rt : Runtime) (w : World) (response : Response)
      (source content : jsstring) :
  body_of w source = Ok content ->
  utf8Length content > 50 * 1024 * 1024 ->
  run w (HttpJsonStrategy.readBody rt response source)
  = (Failure (HttpJsonStrategy.tooLargeMeasured (utf8Length content) source),
     [EvResponseText source]).
Proof.
  intros Hbody Hsize. unfold HttpJsonStrategy.readBody.
  cbn [run io_bind response_text]. rewrite Hbody.
  assert ((utf8Length content >? HttpJsonStrategy.maxResponseSize) = true) as ->.
  { apply Z.gtb_lt. unfold HttpJsonStrategy.maxResponseSize. lia. }
  reflexivity.
Qed.

(** C5.  For a response with a 2xx status: when the Content-Length
    header parses to a size above the 50 MB cap, remote ingestion answers
    [content_too_large] with that size and the fetch is the only
    operation performed, the body is not read; when the declared size
    does not reject the response (in particular when there is no
    Content-Length) and the body that is read measures more than the cap
    in UTF-8, it answers [content_too_large] with the measured size; and
    whatever the header says, a body above the cap is never accepted. *)
Theorem http_oversized_response (rt : Runtime) (w : World)
        (source protocol : jsstring) (response : Response) :
  URL_protocol rt source = Ok protocol ->
  protocol = js "http:" \/ protocol = js "https:" ->
  response_of w source = Ok response ->
  ok response = true ->
  (forall text size,
      headers_get response (js "content-length") = Some text ->
      HttpJsonStrategy.parseInt10 text = Some size ->
      size > 50 * 1024 * 1024 ->
      run w (HttpJsonStrategy.ingest rt source)
      = (Failure
           {| type := content_too_large;
              message :=
                js "Response too large (" ++ ofInt (roundMB size)
                  ++ js "MB). This tool is optimized for JSON files under "
                  ++ ofInt (roundMB (50 * 1024 * 1024)) ++ js "MB.";
              details :=
                DetailsObject [(js "contentLength", DNum size);
                               (js "maxSize", DNum (50 * 1024 * 1024));
                               (js "url", DStr source)] |},
         [EvFetch source]))
  /\ (forall content,
        HttpJsonStrategy.declaredTooLarge response source = None ->
        body_of w source = Ok content ->
        utf8Length content > 50 * 1024 * 1024 ->
        run w (HttpJsonStrategy.ingest rt source)
        = (Failure
             {| type := content_too_large;
                message :=
                  js "Response too large (" ++ ofInt (roundMB (utf8Length content))
                    ++ js "MB after reading). This tool is optimized for JSON files under "
                    ++ ofInt (roundMB (50 * 1024 * 1024)) ++ js "MB.";
                details :=
                  DetailsObject [(js "actualSize", DNum (utf8Length content));
                                 (js "maxSize", DNum (50 * 1024 * 1024));
                                 (js "url", DStr source)] |},
           [EvFetch source; EvResponseText source]))
  /\ (headers_get response (js "content-length") = None ->
      HttpJsonStrategy.declaredTooLarge response source = None)
  /\ (forall content,
        body_of w source = Ok content ->
        utf8Length content > 50 * 1024 * 1024 ->
        exists error,
          fst (run w (HttpJsonStrategy.ingest rt source)) = Failure error
          /\ type error = content_too_large).
Proof.
  intros Hurl Hprotocol Hfetch Hok.
  rewrite (http_response_reached rt w source protocol response Hurl Hprotocol Hfetch).
  rewrite Hok. cbn [negb]. unfold HttpJsonStrategy.acceptBody.
  split; [|split; [|split]].
  - intros text size Hheader Hparse Hsize.
    unfold HttpJsonStrategy.declaredTooLarge. rewrite Hheader.
    destruct text as [|c text]; [discriminate|]. rewrite Hparse.
    assert ((size >? HttpJsonStrategy.maxResponseSize) = true) as ->.
    { apply Z.gtb_lt. unfold HttpJsonStrategy.maxResponseSize. lia. }
    reflexivity.
  - intros content Hdeclared Hbody Hsize. rewrite Hdeclared.
    rewrite (run_readBody_too_large rt w response source content Hbody Hsize).
    reflexivity.
  - apply declaredTooLarge_absent.
  - intros content Hbody Hsize.
    destruct (HttpJsonStrategy.declaredTooLarge response source) as [error|] eqn:Ed.
    + exists error. split; [reflexivity|].
      unfold HttpJsonStrategy.declaredTooLarge in Ed.
      destruct (headers_get response (js "content-length")) as [[|c text]|];
        try discriminate.
      destruct (HttpJsonStrategy.parseInt10 (c :: text)) as [size|]; [|discriminate].
      destruct (size >? HttpJsonStrategy.maxResponseSize); [|discriminate].
      injection Ed as <-. reflexivity.
    + rewrite (run_readBody_too_large rt w response source content Hbody Hsize).
      eexists. split; reflexivity.
Qed.

Lemma utf8Length_repeat_ascii (c : codeUnit) (n : nat) :
  isAscii c = true -> utf8Length (repeat c n) = Z.of_nat n.
Proof.
  intros Hc. induction n as [|n IH]; [reflexivity|].
  cbn [repeat]. rewrite utf8Length_cons_ascii by assumption. lia.
Qed.

Lemma bigBody_size : utf8Length Samples.bigBody > 50 * 1024 * 1024.
Proof.
  unfold Samples.bigBody. rewrite utf8Length_repeat_ascii by reflexivity.
  rewrite Z2Nat.id; lia.
Defined.

Lemma http_oversized_response_witness :
  fst (run (Samples.world 200 [(js "content-length", js "62914560")] (js "{}"))
           (HttpJsonStrategy.ingest Samples.runtime (js "https://example.com/big.json")))
  = Failure (HttpJsonStrategy.tooLargeDeclared 62914560 (js "https://example.com/big.json"))
  /\ exists error,
       fst (run (Samples.world 200 [] Samples.bigBody)
                (HttpJsonStrategy.ingest Samples.runtime (js "https://example.com/big.json")))
       = Failure error
       /\ type error = content_too_large.
Proof.
  split.
  - destruct (http_oversized_response Samples.runtime
                (Samples.world 200 [(js "content-length", js "62914560")] (js "{}"))
                (js "https://example.com/big.json") (js "https:")
                (Samples.response 200 [(js "content-length", js "62914560")])
                eq_refl (or_intror eq_refl) eq_refl eq_refl) as [H _].
    rewrite (H (js "62914560") 62914560 eq_refl eq_refl eq_refl).
    reflexivity.
  - destruct (http_oversized_response Samples.runtime
                (Samples.world 200 [] Samples.bigBody)
                (js "https://example.com/big.json") (js "https:")
                (Samples.response 200 [])
                eq_refl (or_intror eq_refl) eq_refl eq_refl) as [_ [_ [_ H]]].
    exact (H Samples.bigBody eq_refl bigBody_size).
Defined.

Lemma firstn_bound {A} (n : nat) (l : list A) : (List.length (firstn n l) <= n)%nat.
Proof. rewrite length_firstn. lia. Qed.

(** C8 (as amended).  For a response whose status is not 2xx, in this
    order: 401 or 403 give [authentication_required], with one message
    for 401 and another for 403, after one attempt to read the body, of
    which the first 200 UTF-16 code units at most are kept as a preview
    (none when the read fails); 429 gives [rate_limit_exceeded] with the
    Retry-After header, if any, in the details; a status of 500 or more
    gives [server_error]; every other status gives [network_error], with
    the hint to verify the URL for 404 and for 404 only. *)
Theorem http_status_classification (rt : Runtime) (w : World)
        (source protocol : jsstring) (response : Response) :
  URL_protocol rt source = Ok protocol ->
  protocol = js "http:" \/ protocol = js "https:" ->
  response_of w source = Ok response ->
  ok response = false ->
  let preview :=
    match body_of w source with
    | Ok responseText => substring0 responseText 200
    | Throw _ => []
    end in
  let result := run w (HttpJsonStrategy.ingest rt source) in
  (status response = 401 \/ status response = 403 ->
   result = (Failure (HttpJsonStrategy.authenticationRequired response source preview),
             [EvFetch source; EvResponseText source]))
  /\ (status response = 429 ->
      result = (Failure (HttpJsonStrategy.rateLimitExceeded response source),
                [EvFetch source]))
  /\ (status response >= 500 ->
      result = (Failure (HttpJsonStrategy.serverError response source),
                [EvFetch source]))
  /\ (status response <> 401 -> status response <> 403 ->
      status response <> 429 -> status response < 500 ->
      result = (Failure (HttpJsonStrategy.clientError response source),
                [EvFetch source]))
  /\ type (HttpJsonStrategy.authenticationRequired response source preview)
     = authentication_required
  /\ type (HttpJsonStrategy.rateLimitExceeded response source) = rate_limit_exceeded
  /\ type (HttpJsonStrategy.serverError response source) = server_error
  /\ type (HttpJsonStrategy.clientError response source) = network_error
  /\ HttpJsonStrategy.authMessage 401 <> HttpJsonStrategy.authMessage 403
  /\ (List.length preview <= 200)%nat
  /\ lookup (js "retryAfter") (match details (HttpJsonStrategy.rateLimitExceeded response source) with
                               | DetailsObject fields => fields
                               | DetailsThrown _ => []
                               end)
     = Some (HttpJsonStrategy.orUndefined (headers_get response (js "Retry-After")))
  /\ (message (HttpJsonStrategy.clientError response source)
      = js "HTTP " ++ ofInt (status response) ++ js ": " ++ statusText response
          ++ js ". "
          ++ (if status response =? 404
              then js "Endpoint not found - verify the URL is correct."
              else js "Client error occurred.")).
Proof.
  intros Hurl Hprotocol Hfetch Hok preview result. unfold result.
  rewrite (http_response_reached rt w source protocol response Hurl Hprotocol Hfetch).
  rewrite Hok. cbn [negb]. unfold HttpJsonStrategy.rejectStatus.
  repeat split; try reflexivity.
  - intros Hauth.
    assert ((status response =? 401) || (status response =? 403) = true) as ->.
    { apply orb_true_iff. rewrite !Z.eqb_eq. exact Hauth. }
    cbn [run io_bind response_text]. unfold preview.
    destruct (body_of w source); reflexivity.
  - intros ->. reflexivity.
  - intros Hserver.
    assert ((status response =? 401) || (status response =? 403) = false) as ->.
    { apply orb_false_iff. rewrite !Z.eqb_neq. lia. }
    assert ((status response =? 429) = false) as -> by (apply Z.eqb_neq; lia).
    assert ((status response >=? 500) = true) as ->.
    { rewrite Z.geb_leb. apply Z.leb_le. lia. }
    reflexivity.
  - intros H401 H403 H429 H500.
    assert ((status response =? 401) || (status response =? 403) = false) as ->.
    { apply orb_false_iff. rewrite !Z.eqb_neq. auto. }
    assert ((status response =? 429) = false) as -> by (apply Z.eqb_neq; assumption).
    assert ((status response >=? 500) = false) as ->.
    { rewrite Z.geb_leb. apply Z.leb_gt. lia. }
    reflexivity.
  - discriminate.
  - unfold preview. destruct (body_of w source); [apply firstn_bound | simpl; lia].
Qed.

Lemma http_status_classification_witness :
  run (Samples.world 404 [] (js "Not Found"))
      (HttpJsonStrategy.ingest Samples.runtime (js "https://example.com/missing.json"))
  = (Failure (HttpJsonStrategy.clientError (Samples.response 404 [])
                (js "https://example.com/missing.json")),
     [EvFetch (js "https://example.com/missing.json")]).
Proof.
  destruct (http_status_classification Samples.runtime
              (Samples.world 404 [] (js "Not Found"))
              (js "https://example.com/missing.json") (js "https:")
              (Samples.response 404 [])
              eq_refl (or_intror eq_refl) eq_refl eq_refl) as [_ [_ [_ [H _]]]].
  apply H; [discriminate | discriminate | discriminate | reflexivity].
Defined.

(** C8, as stated, fails on the size of the preview: of a body of 200
    accented letters answered with status 401, the preview keeps the 200
    code units, which are 400 bytes in UTF-8. *)
Lemma http_preview_exceeds_200_bytes :
  fst (run (Samples.world 401 [] Samples.accents)
           (HttpJsonStrategy.ingest Samples.runtime (js "https://example.com/private")))
  = Failure (HttpJsonStrategy.authenticationRequired (Samples.response 401 [])
               (js "https://example.com/private") Samples.accents)
  /\ utf8Length Samples.accents = 400.
Proof. split; vm_compute; reflexivity. Qed.

(** ** Strategy selection *)

(** A returned failure is read off the run, and its kind compared. *)
Ltac failure_kind :=
  cbn [run fst];
  let H := fresh "H" in
  intros H; first [discriminate H | injection H as <-; discriminate].

(** Neither strategy answers a validation error. *)
Lemma local_never_validation_error (rt : Runtime) (w : World) (source : jsstring)
      (e : JsonIngestionError) :
  fst (run w (LocalFileStrategy.ingest rt source)) = Failure e ->
  type e <> validation_error.
Proof.
  unfold LocalFileStrategy.ingest. cbn [run io_bind fs_stat].
  destruct (stat_of w (path_resolve rt source)) as [stats|error].
  - destruct (size stats >? LocalFileStrategy.maxFileSize).
    + failure_kind.
    + cbn [run io_bind fs_readFile].
      destruct (file_of w (path_resolve rt source)) as [content|error].
      * unfold validateJsonContent.
        destruct (JSON_parse rt content); failure_kind.
      * failure_kind.
  - failure_kind.
Qed.

Lemma http_never_validation_error (rt : Runtime) (w : World) (source : jsstring)
      (e : JsonIngestionError) :
  fst (run w (HttpJsonStrategy.ingest rt source)) = Failure e ->
  type e <> validation_error.
Proof.
  unfold HttpJsonStrategy.ingest.
  destruct (URL_protocol rt source) as [protocol|error].
  2:{ failure_kind. }
  destruct (negb (JsString.eqb protocol (js "http:"))
            && negb (JsString.eqb protocol (js "https:"))).
  { failure_kind. }
  cbn [run io_bind fetch].
  destruct (response_of w source) as [response|error].
  2:{ unfold HttpJsonStrategy.fetchFailed.
      destruct error as [err|text];
        [destruct (JsString.eqb (err_name err) (js "AbortError"))|];
        failure_kind. }
  destruct (negb (ok response)).
  - unfold HttpJsonStrategy.rejectStatus.
    destruct ((status response =? 401) || (status response =? 403)).
    + cbn [run io_bind response_text fst].
      destruct (body_of w source); failure_kind.
    + destruct (status response =? 429);
        [|destruct (status response >=? 500)];
        failure_kind.
  - unfold HttpJsonStrategy.acceptBody.
    destruct (HttpJsonStrategy.declaredTooLarge response source) as [error|] eqn:Ed.
    + cbn [run fst]. intros H; injection H as <-.
      unfold HttpJsonStrategy.declaredTooLarge in Ed.
      destruct (headers_get response (js "content-length")) as [[|c text]|];
        try discriminate.
      destruct (HttpJsonStrategy.parseInt10 (c :: text)) as [size|]; [|discriminate].
      destruct (size >? HttpJsonStrategy.maxResponseSize); [|discriminate].
      injection Ed as <-. discriminate.
    + unfold HttpJsonStrategy.readBody. cbn [run io_bind response_text].
      destruct (body_of w source) as [content|error].
      * destruct (utf8Length content >? HttpJsonStrategy.maxResponseSize).
        -- failure_kind.
        -- unfold validateJsonContent. destruct (JSON_parse rt content);
             failure_kind.
      * failure_kind.
Qed.

Lemma strategies_new (rt : Runtime) :
  JsonIngestionContext.strategies (JsonIngestionContext.new rt)
  = [LocalFileStrategy.strategy rt; HttpJsonStrategy.strategy rt].
Proof. reflexivity. Qed.

(** C10.  The local strategy handles exactly the sources that begin
    with neither [http://] nor [https://], the HTTP strategy exactly
    those that begin with one of them; so one of the two registered
    strategies handles every source, the search for a strategy always
    finds one, ingestion is the ingestion of that strategy, and the
    answer is never the [No strategy found] validation error. *)
Theorem strategy_always_found (rt : Runtime) (source : jsstring) :
  (LocalFileStrategy.canHandle source = true
   <-> startsWith source (js "http://") = false
       /\ startsWith source (js "https://") = false)
  /\ (HttpJsonStrategy.canHandle source = true
      <-> startsWith source (js "http://") = true
          \/ startsWith source (js "https://") = true)
  /\ existsb (fun strategy => canHandle strategy source)
             (JsonIngestionContext.strategies (JsonIngestionContext.new rt)) = true
  /\ JsonIngestionContext.findStrategy (JsonIngestionContext.new rt) source
     = Some (if HttpJsonStrategy.canHandle source
             then HttpJsonStrategy.strategy rt
             else LocalFileStrategy.strategy rt)
  /\ JsonIngestionContext.ingest (JsonIngestionContext.new rt) source
     = (if HttpJsonStrategy.canHandle source
        then HttpJsonStrategy.ingest rt source
        else LocalFileStrategy.ingest rt source)
  /\ (forall w : World,
        fst (run w (JsonIngestionContext.ingest (JsonIngestionContext.new rt) source))
        <> Failure (JsonIngestionContext.noStrategy (JsonIngestionContext.new rt) source)).
Proof.
  assert (LocalFileStrategy.canHandle source = negb (HttpJsonStrategy.canHandle source))
    as Hcomplement.
  { unfold LocalFileStrategy.canHandle, HttpJsonStrategy.canHandle.
    now rewrite negb_orb. }
  assert (JsonIngestionContext.ingest (JsonIngestionContext.new rt) source
          = (if HttpJsonStrategy.canHandle source
             then HttpJsonStrategy.ingest rt source
             else LocalFileStrategy.ingest rt source)) as Hingest.
  { unfold JsonIngestionContext.ingest, JsonIngestionContext.findStrategy.
    rewrite strategies_new.
    cbn [find LocalFileStrategy.strategy HttpJsonStrategy.strategy canHandle].
    rewrite Hcomplement.
    destruct (HttpJsonStrategy.canHandle source); reflexivity. }
  split; [|split; [|split; [|split; [|split]]]].
  - unfold LocalFileStrategy.canHandle.
    rewrite andb_true_iff, !negb_true_iff. tauto.
  - unfold HttpJsonStrategy.canHandle. apply orb_true_iff.
  - rewrite strategies_new.
    cbn [existsb LocalFileStrategy.strategy HttpJsonStrategy.strategy canHandle].
    rewrite Hcomplement. destruct (HttpJsonStrategy.canHandle source); reflexivity.
  - unfold JsonIngestionContext.findStrategy. rewrite strategies_new.
    cbn [find LocalFileStrategy.strategy HttpJsonStrategy.strategy canHandle].
    rewrite Hcomplement. destruct (HttpJsonStrategy.canHandle source); reflexivity.
  - exact Hingest.
  - intros w Hno. rewrite Hingest in Hno.
    destruct (HttpJsonStrategy.canHandle source).
    + apply (http_never_validation_error rt w source _ Hno). reflexivity.
    + apply (local_never_validation_error rt w source _ Hno). reflexivity.
Qed.

(** * Further properties *)

(** ** The projection as a mapping *)

Lemma objSet_fresh {V} (props : list (jsstring * V)) (key : jsstring) (v : V) :
  lookup key props = None -> objSet props key v = props ++ [(key, v)].
Proof.
  induction props as [|[k old] props IH]; simpl; [reflexivity|].
  destruct (JsString.eqb k key); [discriminate|].
  intros H. now rewrite IH.
Qed.

Lemma uniqueKeys_cons (k : jsstring) (keys : list jsstring) :
  uniqueKeys (k :: keys) = true -> ~ In k keys /\ uniqueKeys keys = true.
Proof.
  simpl. intros H. apply andb_true_iff in H as [Hk Hu]. split; [|assumption].
  intros Hin. apply mem_In in Hin. rewrite Hin in Hk. discriminate.
Qed.

Lemma forIn_projectEntry_ext (d1 d2 : JsValue) (es : list (jsstring * Rule Shape)) :
  (forall e, In e es -> entryEffect d2 e = entryEffect d1 e) ->
  forall acc, forIn (projectEntry d2) es acc = forIn (projectEntry d1) es acc.
Proof.
  induction es as [|e es IH]; intros Hext acc; [reflexivity|].
  rewrite !forIn_cons, !projectEntry_effect, (Hext e (or_introl eq_refl)).
  destruct (entryEffect d1 e) as [eff|]; simpl; [|reflexivity].
  apply IH. intros e' He'. apply Hext. right; exact He'.
Qed.

(** The loop of the projector over entries with distinct keys, none of
    them in the result yet: every entry leaves under its key what it
    assigns, the other keys are untouched, and the new keys come in the
    order of the entries. *)
Lemma forIn_projectEntry_unique (data : JsValue) (es : list (jsstring * Rule Shape)) :
  uniqueKeys (map fst es) = true ->
  forall acc acc',
    (forall k, In k (map fst es) -> lookup k acc = None) ->
    forIn (projectEntry data) es acc = Ok acc' ->
    (forall k rule, In (k, rule) es ->
       exists eff, entryEffect data (k, rule) = Ok eff
                   /\ lookup k acc' = option_map snd eff)
    /\ (forall k, ~ In k (map fst es) -> lookup k acc' = lookup k acc)
    /\ map fst acc' = map fst acc ++ map fst (filter (keeps data) es)
    /\ (forall k x, In (k, x) acc' ->
          In (k, x) acc
          \/ exists rule, In (k, rule) es
                          /\ entryEffect data (k, rule) = Ok (Some (k, x))).
Proof.
  induction es as [|[k0 rule0] es IH]; intros Hu acc acc' Hfresh Hrun.
  - simpl in Hrun. injection Hrun as <-. repeat split.
    + intros k rule [].
    + simpl. now rewrite app_nil_r.
    + auto.
  - cbn [map fst] in Hu. apply uniqueKeys_cons in Hu as [Hk0 Hu].
    rewrite forIn_cons, projectEntry_effect in Hrun.
    destruct (entryEffect data (k0, rule0)) as [eff0|] eqn:Eeff; [|discriminate].
    cbn [fmap bind] in Hrun.
    assert (forall k, In k (map fst es) -> lookup k (assign acc eff0) = None) as Hfresh'.
    { intros k Hk. destruct eff0 as [[k2 v]|]; simpl.
      - apply entryEffect_key in Eeff. simpl in Eeff. subst k2.
        rewrite lookup_objSet. destruct (JsString.eqb k0 k) eqn:E.
        + apply eqb_eq in E. subst k. contradiction.
        + apply Hfresh. right; exact Hk.
      - apply Hfresh. right; exact Hk. }
    destruct (IH Hu _ _ Hfresh' Hrun) as [Hentries [Hother [Hkeys Horigin]]].
    assert (lookup k0 acc = None) as Hk0acc by (apply Hfresh; left; reflexivity).
    repeat split.
    + intros k rule [E|Hin].
      * injection E as <- <-. exists eff0. split; [assumption|].
        rewrite (Hother k0 Hk0). destruct eff0 as [[k2 v]|]; simpl; [|assumption].
        pose proof (entryEffect_key _ _ _ _ Eeff) as Ek. simpl in Ek. subst k2.
        now rewrite lookup_objSet, eqb_refl.
      * apply Hentries; assumption.
    + intros k Hk. simpl in Hk.
      rewrite (Hother k (fun H => Hk (or_intror H))).
      destruct eff0 as [[k2 v]|]; simpl; [|reflexivity].
      pose proof (entryEffect_key _ _ _ _ Eeff) as Ek. simpl in Ek. subst k2.
      rewrite lookup_objSet. destruct (JsString.eqb k0 k) eqn:E; [|reflexivity].
      apply eqb_eq in E. subst k. exfalso. apply Hk. left; reflexivity.
    + rewrite Hkeys. cbn [filter]. unfold keeps at 2. rewrite Eeff.
      destruct eff0 as [[k2 v]|]; simpl; [|reflexivity].
      pose proof (entryEffect_key _ _ _ _ Eeff) as Ek. simpl in Ek. subst k2.
      rewrite (objSet_fresh _ _ _ Hk0acc), map_app, <- app_assoc. reflexivity.
    + intros k x Hin. destruct (Horigin k x Hin) as [Hacc|[rule [Hrule Heff]]].
      * destruct eff0 as [[k2 v]|]; simpl in Hacc; [|auto].
        pose proof (entryEffect_key _ _ _ _ Eeff) as Ek. simpl in Ek. subst k2.
        rewrite (objSet_fresh _ _ _ Hk0acc) in Hacc.
        apply in_app_or in Hacc as [Hacc|[E|[]]]; [auto|].
        injection E as <- <-. right. exists rule0. split; [left; reflexivity|assumption].
      * right. exists rule. split; [right; assumption|assumption].
Qed.

Lemma extractWithShape_not_undefined (shape : Shape) (data r : JsValue) :
  extractWithShape shape data = Ok r -> isUndefined r = false.
Proof.
  rewrite extractWithShape_eq. destruct data; simpl;
    match goal with
    | |- fmap _ ?m = _ -> _ => destruct m; simpl; intros H; [injection H as <-; reflexivity | discriminate]
    end.
Qed.

(** X1.  Of a value that is not an array, under a shape with no
    repeated key and without the key [__proto__] (an assignment to that
    key creates no property), the projection is an object that holds, for
    every key of the shape: under a key mapped to [true], what the data
    holds there ([undefined] when it holds nothing); under a key mapped to
    a nested shape, nothing when the data holds nothing there, the
    projection of what it holds otherwise; nothing under any other key.
    Its keys come in the order of the shape, not of the document. *)
Theorem projection_by_key (data : JsValue) (es : list (jsstring * Rule Shape))
        (result : Props) :
  isArray data = false ->
  uniqueKeys (map fst es) = true ->
  mem (js "__proto__") (map fst es) = false ->
  extractWithShape (MkShape es) data = Ok (JObject result) ->
  (forall key, In (key, RTrue) es ->
     exists v, getProp data key = Ok v /\ lookup key result = Some v)
  /\ (forall key sub, In (key, RShape sub) es ->
        exists v, getProp data key = Ok v
                  /\ (isUndefined v = true -> lookup key result = None)
                  /\ (isUndefined v = false ->
                      exists r, extractWithShape sub v = Ok r
                                /\ lookup key result = Some r))
  /\ (forall key, In (key, ROther) es -> lookup key result = None)
  /\ (forall key, ~ In key (map fst es) -> lookup key result = None)
  /\ map fst result = map fst (filter (keeps data) es).
Proof.
  intros Harr Hu _ Hrun.
  rewrite extractWithShape_object_eq in Hrun by assumption. simpl entries in Hrun.
  destruct (forIn (projectEntry data) es []) as [acc|] eqn:Erun; [|discriminate].
  injection Hrun as <-.
  destruct (forIn_projectEntry_unique data es Hu [] acc (fun _ _ => eq_refl) Erun)
    as [Hentries [Hother [Hkeys _]]].
  repeat split.
  - intros key Hin. destruct (Hentries _ _ Hin) as [eff [Heff Hl]].
    simpl in Heff. destruct (getProp data key) as [v|]; [|discriminate].
    injection Heff as <-. exists v. auto.
  - intros key sub Hin. destruct (Hentries _ _ Hin) as [eff [Heff Hl]].
    simpl in Heff. destruct (getProp data key) as [v|]; [|discriminate].
    exists v. split; [reflexivity|]. simpl in Heff.
    destruct (isUndefined v).
    + injection Heff as <-. split; [auto | discriminate].
    + destruct (extractWithShape sub v) as [r|]; [|discriminate].
      injection Heff as <-. split; [discriminate | eauto].
  - intros key Hin. destruct (Hentries _ _ Hin) as [eff [Heff Hl]].
    simpl in Heff. injection Heff as <-. exact Hl.
  - intros key Hk. apply (Hother key Hk).
  - exact Hkeys.
Qed.

Lemma projection_by_key_witness :
  map fst [(js "name", Samples.str "John"); (js "age", Samples.num 30)]
  = map fst (filter (keeps Samples.person)
               [(js "name", RTrue); (js "address", RShape Samples.idOnly);
                (js "age", RTrue)]).
Proof.
  destruct (projection_by_key Samples.person
              [(js "name", RTrue); (js "address", RShape Samples.idOnly);
               (js "age", RTrue)]
              [(js "name", Samples.str "John"); (js "age", Samples.num 30)]
              eq_refl eq_refl eq_refl eq_refl) as [_ [_ [_ [_ H]]]].
  exact H.
Defined.

(** ** The allow-list, at every depth *)

(** X2.  Under a shape with no repeated key at any depth, whatever
    [extractWithShape] returns stays within the shape: an array of values
    within it, or an object whose keys are keys of the shape, holding
    under a key mapped to a nested shape a value within that shape. *)
Theorem projection_within_shape (shape : Shape) :
  wfShape shape = true ->
  forall data r, extractWithShape shape data = Ok r -> withinShape shape r = true.
Proof.
  induction shape as [es IHes] using Shape_ind. intros Hwf.
  simpl in Hwf. apply andb_true_iff in Hwf as [Hu Hsubs].
  rewrite forallb_forall in Hsubs. rewrite Forall_forall in IHes.
  assert (forall data r, isArray data = false ->
            extractWithShape (MkShape es) data = Ok r ->
            withinShape (MkShape es) r = true) as Hobject.
  { intros data r Harr Hrun.
    rewrite extractWithShape_object_eq in Hrun by assumption. simpl entries in Hrun.
    destruct (forIn (projectEntry data) es []) as [acc|] eqn:Erun; [|discriminate].
    injection Hrun as <-.
    destruct (forIn_projectEntry_unique data es Hu [] acc (fun _ _ => eq_refl) Erun)
      as [_ [_ [_ Horigin]]].
    cbn [withinShape entries]. apply forallb_forall. intros [k x] Hin. cbn [fst snd].
    destruct (Horigin k x Hin) as [[]|[rule [Hrule Heff]]].
    rewrite (lookup_unique es k rule Hu Hrule).
    destruct rule as [|sub|]; [reflexivity| |discriminate].
    simpl in Heff. destruct (getProp data k) as [v|]; [|discriminate].
    simpl in Heff. destruct (isUndefined v); [discriminate|].
    destruct (extractWithShape sub v) as [r|] eqn:Er; [|discriminate].
    injection Heff as <-.
    apply (IHes (k, RShape sub) Hrule (Hsubs (k, RShape sub) Hrule) v r Er). }
  induction data as [| |flag|n|s|items IHitems|props _] using JsValue_ind; intros r;
    try (apply Hobject; reflexivity).
  rewrite extractWithShape_array_eq.
  destruct (mapM (extractWithShape (MkShape es)) items) as [rs|] eqn:Emap; [|discriminate].
  intros H; injection H as <-. apply mapM_Ok in Emap.
  cbn [withinShape]. apply forallb_forall. intros x Hx.
  rewrite Forall_forall in IHitems.
  clear Hobject. induction Emap as [|item y items rs Hitem _ IH]; [destruct Hx|].
  destruct Hx as [<-|Hx].
  - apply (IHitems item (or_introl eq_refl) y Hitem).
  - apply IH; [|assumption]. intros z Hz. apply IHitems. right; exact Hz.
Qed.

Lemma projection_within_shape_witness :
  withinShape Samples.userIds
    (JObject [(js "users", JArray [JObject [(js "id", Samples.num 1)];
                                    JObject [(js "id", Samples.num 2)]])]) = true.
Proof.
  exact (projection_within_shape Samples.userIds eq_refl Samples.users _ eq_refl).
Defined.

(** ** Projecting twice *)

(** Over own properties, projecting a projection again returns it. *)
Lemma extractWithShape_twice (shape : Shape) :
  wfShape shape = true ->
  forall data r, extractWithShape shape data = Ok r -> extractWithShape shape r = Ok r.
Proof.
  induction shape as [es IHes] using Shape_ind. intros Hwf.
  simpl in Hwf. apply andb_true_iff in Hwf as [Hu Hsubs].
  rewrite forallb_forall in Hsubs. rewrite Forall_forall in IHes.
  assert (forall data r, isArray data = false ->
            extractWithShape (MkShape es) data = Ok r ->
            extractWithShape (MkShape es) r = Ok r) as Hobject.
  { intros data r Harr Hrun.
    rewrite extractWithShape_object_eq in Hrun by assumption. simpl entries in Hrun.
    destruct (forIn (projectEntry data) es []) as [acc|] eqn:Erun; [|discriminate].
    injection Hrun as <-.
    destruct (forIn_projectEntry_unique data es Hu [] acc (fun _ _ => eq_refl) Erun)
      as [Hentries _].
    rewrite extractWithShape_object_eq by reflexivity. simpl entries.
    rewrite (forIn_projectEntry_ext data (JObject acc) es), Erun; [reflexivity|].
    intros [k rule] Hin. destruct (Hentries k rule Hin) as [eff [Heff Hl]].
    rewrite Heff. destruct rule as [|sub|]; simpl in Heff |- *.
    - destruct (getProp data k) as [v|]; [|discriminate].
      injection Heff as <-. simpl in Hl. rewrite Hl. reflexivity.
    - destruct (getProp data k) as [v|]; [|discriminate]. simpl in Heff.
      destruct (isUndefined v).
      + injection Heff as <-. simpl in Hl. rewrite Hl. reflexivity.
      + destruct (extractWithShape sub v) as [r|] eqn:Er; [|discriminate].
        injection Heff as <-. simpl in Hl. rewrite Hl. simpl.
        rewrite (extractWithShape_not_undefined sub v r Er).
        rewrite (IHes (k, RShape sub) Hin (Hsubs (k, RShape sub) Hin) v r Er).
        reflexivity.
    - injection Heff as <-. reflexivity. }
  induction data as [| |flag|n|s|items IHitems|props _] using JsValue_ind; intros r;
    try (apply Hobject; reflexivity).
  rewrite extractWithShape_array_eq.
  destruct (mapM (extractWithShape (MkShape es)) items) as [rs|] eqn:Emap; [|discriminate].
  intros H; injection H as <-. apply mapM_Ok in Emap.
  rewrite extractWithShape_array_eq.
  assert (mapM (extractWithShape (MkShape es)) rs = Ok rs) as ->; [|reflexivity].
  apply mapM_Ok. rewrite Forall_forall in IHitems. clear Hobject.
  induction Emap as [|item y items rs Hitem _ IH]; constructor.
  - apply (IHitems item (or_introl eq_refl) y Hitem).
  - apply IH. intros z Hz. apply IHitems. right; exact Hz.
Qed.

(** X3.  Under a shape with no repeated key and no key named like a
    member of [Object.prototype] ([toString], [constructor], [__proto__],
    ...), at any depth, projecting a projection again under the same shape
    returns it unchanged: what the first pass left out, the second pass
    finds neither in the projection nor in its prototype. *)
Theorem projection_idempotent (shape : Shape) (data r : JsValue) :
  wfShape shape = true ->
  noInheritedKey shape = true ->
  extractWithShape shape data = Ok r ->
  extractWithShape shape r = Ok r.
Proof. intros Hwf _. apply extractWithShape_twice. exact Hwf. Qed.

Lemma projection_idempotent_witness :
  extractWithShape Samples.userIds
    (JObject [(js "users", JArray [JObject [(js "id", Samples.num 1)];
                                    JObject [(js "id", Samples.num 2)]])])
  = Ok (JObject [(js "users", JArray [JObject [(js "id", Samples.num 1)];
                                       JObject [(js "id", Samples.num 2)]])]).
Proof.
  exact (projection_idempotent Samples.userIds Samples.users _ eq_refl eq_refl eq_refl).
Defined.

(** ** Documents without properties *)

Lemma forIn_projectEntry_undefined (data : JsValue) (es : list (jsstring * Rule Shape)) :
  (forall key, getProp data key = Ok JUndefined) ->
  forall acc, Forall (fun e => snd e = JUndefined) acc ->
    exists acc', forIn (projectEntry data) es acc = Ok acc'
                 /\ Forall (fun e => snd e = JUndefined) acc'.
Proof.
  intros Hget. induction es as [|[k rule] es IH]; intros acc Hacc.
  - exists acc. split; [reflexivity|exact Hacc].
  - rewrite forIn_cons. unfold projectEntry at 1. rewrite Hget.
    destruct rule as [|sub|]; cbn [bind isUndefined]; apply IH; [|exact Hacc|exact Hacc].
    apply Forall_forall. intros [k' x] Hin. cbn [snd].
    destruct (In_objSet _ _ _ _ _ Hin) as [Hold|[_ ->]]; [|reflexivity].
    rewrite Forall_forall in Hacc. apply (Hacc (k', x) Hold).
Qed.

Lemma serialize_all_undefined (gap indent : jsstring) (props : Props) :
  Forall (fun e => snd e = JUndefined) props ->
  Json.serialize gap indent (JObject props) = Some (js "{}").
Proof.
  intros H. cbn [Json.serialize].
  assert (flat_map (fun entry : jsstring * JsValue =>
                      match Json.serialize gap (indent ++ gap) (snd entry) with
                      | Some text =>
                          [quote (fst entry) ++ 58%N
                             :: match gap with [] => [] | _ => [32%N] end ++ text]
                      | None => []
                      end) props = []) as ->; [|reflexivity].
  induction H as [|[k x] props Hx _ IH]; [reflexivity|].
  cbn [flat_map snd]. cbn [snd] in Hx. rewrite Hx. exact IH.
Qed.

(** X4.  A document that is a bare number or a bare boolean owns no
    property: under every shape without a nested shape the filter succeeds
    and the [json_filter] tool answers the text [{}] (what a key finds in
    the prototype of the number is a function, which the answer leaves
    out; a nested shape would be applied to that function). *)
Theorem scalar_document_prints_empty (shape : Shape) :
  flatShape shape = true ->
  (forall n, Index.renderFilterResult (Index.applyShapeFilter (JNumber n) shape)
             = {| Index.text := Some (js "{}"); Index.isError := false |})
  /\ (forall flag, Index.renderFilterResult (Index.applyShapeFilter (JBool flag) shape)
                   = {| Index.text := Some (js "{}"); Index.isError := false |}).
Proof.
  intros _.
  assert (forall data, isArray data = false ->
            (forall key, getProp data key = Ok JUndefined) ->
            Index.renderFilterResult (Index.applyShapeFilter data shape)
            = {| Index.text := Some (js "{}"); Index.isError := false |}) as H.
  { intros data Harr Hget. unfold Index.applyShapeFilter.
    rewrite extractWithShape_object_eq by assumption.
    destruct (forIn_projectEntry_undefined data (entries shape) Hget [] (Forall_nil _))
      as [acc [-> Hacc]].
    cbn [fmap bind Index.renderFilterResult]. f_equal.
    apply serialize_all_undefined. exact Hacc. }
  split; intros; apply H; reflexivity.
Qed.

Lemma scalar_document_prints_empty_witness :
  Index.renderFilterResult (Index.applyShapeFilter (Samples.num 5) Samples.nameAndAge)
  = {| Index.text := Some (js "{}"); Index.isError := false |}.
Proof.
  exact (proj1 (scalar_document_prints_empty Samples.nameAndAge eq_refl)
           (numberOfInt 5)).
Defined.

(** ** The document [null] *)

Lemma forIn_projectEntry_null (es : list (jsstring * Rule Shape)) (acc : Props) :
  forIn (projectEntry JNull) es acc
  = match find readsData es with
    | Some entry => Throw (nullishRead (js "null") (fst entry))
    | None => Ok acc
    end.
Proof.
  induction es as [|[k rule] es IH]; [reflexivity|].
  rewrite forIn_cons. destruct rule; cbn [projectEntry getProp bind find readsData snd fst];
    try reflexivity.
  exact IH.
Qed.

(** X5.  On the document [null] the filter raises the TypeError of the
    first key of the shape mapped to [true] or to a nested shape, and
    answers [{}] when the shape has no such key; the size accountant reads
    every key before it looks at its rule, and raises at the first key of
    the shape whatever it is mapped to. *)
Theorem null_document (es : list (jsstring * Rule Shape)) :
  extractWithShape (MkShape es) JNull
  = match find readsData es with
    | Some entry => Throw (nullishRead (js "null") (fst entry))
    | None => Ok (JObject [])
    end
  /\ calculateSizeWithShape (MkShape es) JNull
     = match es with
       | entry :: _ => Throw (nullishRead (js "null") (fst entry))
       | [] => Ok (BObj [])
       end.
Proof.
  split.
  - rewrite extractWithShape_object_eq by reflexivity. cbn [entries].
    rewrite forIn_projectEntry_null. destruct (find readsData es); reflexivity.
  - rewrite calculateSizeWithShape_eq. cbn [entries].
    destruct es as [|[k rule] es]; reflexivity.
Qed.

(** ** What the dry run measures, the filter returns *)

Lemma forIn_measureEntry_projects (data : JsValue) (es : list (jsstring * Rule Shape)) :
  Forall (fun e => match snd e with
                   | RShape sub =>
                       forall v b, calculateSizeWithShape sub v = Ok b ->
                                   exists r, extractWithShape sub v = Ok r
                   | _ => True
                   end) es ->
  forall res res' acc,
    forIn (measureEntry data) es res = Ok res' ->
    exists acc', forIn (projectEntry data) es acc = Ok acc'.
Proof.
  induction 1 as [|[k rule] es Hsub _ IH]; intros res res' acc Hrun.
  - exists acc; reflexivity.
  - rewrite forIn_cons in Hrun. rewrite forIn_cons.
    unfold measureEntry at 1 in Hrun. unfold projectEntry at 1.
    destruct (getProp data k) as [v|]; [|discriminate]. cbn [bind] in Hrun |- *.
    destruct rule as [|sub|]; cbn [snd] in Hsub.
    + destruct (isUndefined v); cbn [bind] in Hrun; eapply IH; exact Hrun.
    + destruct (isUndefined v); cbn [bind] in Hrun |- *; [eapply IH; exact Hrun|].
      destruct (calculateSizeWithShape sub v) as [b|] eqn:Eb; [|discriminate].
      destruct (Hsub v b Eb) as [r ->]. cbn [bind] in Hrun |- *.
      eapply IH; exact Hrun.
    + destruct (isUndefined v); cbn [bind] in Hrun; eapply IH; exact Hrun.
Qed.

Lemma forIn_mergeItem_items (shape : Shape) (items : list JsValue) :
  forall state state',
    forIn (mergeItem shape) items state = Ok state' ->
    Forall (fun item => exists b, calculateSizeWithShape shape item = Ok b) items.
Proof.
  induction items as [|item items IH]; intros [total first] state' Hrun; constructor.
  - rewrite forIn_cons in Hrun. unfold mergeItem at 1 in Hrun.
    destruct (calculateSizeWithShape shape item) as [b|]; [|discriminate].
    exists b; reflexivity.
  - rewrite forIn_cons in Hrun. unfold mergeItem at 1 in Hrun.
    destruct (calculateSizeWithShape shape item) as [b|]; [|discriminate].
    cbn [bind] in Hrun. destruct first; cbn [bind] in Hrun; eapply IH; exact Hrun.
Qed.

Lemma mapM_all_Ok {A B} (f : A -> Res B) (l : list A) :
  Forall (fun x => exists r, f x = Ok r) l -> exists rs, mapM f l = Ok rs.
Proof.
  induction 1 as [|x l [r Hr] _ [rs IH]].
  - exists []; reflexivity.
  - exists (r :: rs). apply mapM_Ok. constructor; [exact Hr|]. apply mapM_Ok, IH.
Qed.

(** What the accountant can measure, the projector can project. *)
Lemma calculateSizeWithShape_projects (shape : Shape) :
  forall data b, calculateSizeWithShape shape data = Ok b ->
                 exists r, extractWithShape shape data = Ok r.
Proof.
  induction shape as [es IHes] using Shape_ind.
  assert (forall data b, isArray data = false ->
            calculateSizeWithShape (MkShape es) data = Ok b ->
            exists r, extractWithShape (MkShape es) data = Ok r) as Hobject.
  { intros data b Harr Hrun.
    rewrite extractWithShape_object_eq by assumption. cbn [entries].
    assert (calculateSizeWithShape (MkShape es) data
            = fmap BObj (forIn (measureEntry data) es [])) as E
        by (destruct data; try reflexivity; discriminate).
    rewrite E in Hrun.
    destruct (forIn (measureEntry data) es []) as [res|] eqn:Eres; [|discriminate].
    destruct (forIn_measureEntry_projects data es IHes [] res [] Eres) as [acc ->].
    exists (JObject acc); reflexivity. }
  induction data as [| |flag|n|s|items IHitems|props _] using JsValue_ind; intros b;
    try (apply Hobject; reflexivity).
  rewrite calculateSizeWithShape_eq, extractWithShape_array_eq. intros Hrun.
  destruct (forIn (mergeItem (MkShape es)) items (BObj [], true)) as [state|] eqn:E;
    [|discriminate].
  apply forIn_mergeItem_items in E.
  destruct (mapM_all_Ok (extractWithShape (MkShape es)) items) as [rs ->].
  - rewrite Forall_forall in *. intros item Hin.
    destruct (E item Hin) as [bi Hbi]. exact (IHitems item Hin bi Hbi).
  - exists (JArray rs); reflexivity.
Qed.

(** X6.  Under a shape without the key [__proto__], at any depth,
    whenever the size accountant answers for a document, the filter
    answers for it too: the two traversals make the same reads, and every
    assignment of the filter creates a property.  (An assignment to
    [__proto__] replaces the prototype of the result, and a later
    assignment can then raise.) *)
Theorem dry_run_success_implies_filter_success (shape : Shape) (data : JsValue)
        (b : Breakdown) :
  noProtoKey shape = true ->
  calculateSizeWithShape shape data = Ok b ->
  exists r, extractWithShape shape data = Ok r.
Proof. intros _. apply calculateSizeWithShape_projects. Qed.

Lemma dry_run_success_implies_filter_success_witness :
  exists r, extractWithShape Samples.userIds Samples.users = Ok r.
Proof.
  exact (dry_run_success_implies_filter_success Samples.userIds Samples.users _
           eq_refl eq_refl).
Defined.

(** ** The breakdown of an array *)

Lemma mem_keys {V} (k : jsstring) (props : list (jsstring * V)) :
  mem k (map fst props) = match lookup k props with Some _ => true | None => false end.
Proof.
  induction props as [|[k' v] props IH]; [reflexivity|].
  unfold mem in *. cbn [map fst existsb lookup].
  destruct (JsString.eqb k' k); [reflexivity|exact IH].
Qed.

Lemma sameSizes_lookup (oa oa' : list (jsstring * Breakdown)) (k : jsstring) :
  sameSizes (BObj oa) (BObj oa') ->
  match lookup k oa, lookup k oa' with
  | Some v, Some v' => sameSizes v v'
  | None, None => True
  | _, _ => False
  end.
Proof.
  intros H. pose proof (H [k]) as H0. cbn [valueAt] in H0.
  destruct (lookup k oa) as [v|] eqn:E, (lookup k oa') as [v'|] eqn:E';
    try discriminate; [|exact I].
  intros p. specialize (H (k :: p)). cbn [valueAt] in H. rewrite E, E' in H. exact H.
Qed.

(** The merge respects the equality of mappings in its first argument. *)
Lemma addSizeBreakdowns_sameSizes_l (a : Breakdown) :
  forall (r : Rule Shape) (a' b : Breakdown),
    noInheritedRule r = true ->
    fitsOrZero r a -> fitsOrZero r a' -> fitsOrZero r b ->
    sameSizes a a' ->
    sameSizes (addSizeBreakdowns a b) (addSizeBreakdowns a' b).
Proof.
  induction a as [n|oa IH|name] using Breakdown_ind; intros r a' b Hr Ha Ha' Hb Hsame;
    [| |destruct Ha as [Ha|Ha]; discriminate].
  - pose proof (Hsame []) as H0.
    destruct a' as [n'|oa'|name']; [|discriminate|discriminate].
    injection H0 as <-. intros p; reflexivity.
  - pose proof (Hsame []) as H0.
    destruct a' as [n'|oa'|name']; [discriminate| |discriminate]. clear H0.
    destruct Ha as [Ha|Ha]; [discriminate|].
    destruct (fits_object _ _ Ha) as [es [-> Hoa]]. cbn [noInheritedRule] in Hr.
    destruct Ha' as [Ha'|Ha']; [discriminate|].
    destruct (fits_object _ _ Ha') as [es' [Hes' Hoa']]. injection Hes' as <-.
    destruct (fits_shape _ _ Hb) as [->|[ob [-> Hob]]].
    { rewrite !addSizeBreakdowns_zero_r. exact Hsame. }
    rewrite (addSizeBreakdowns_objects oa ob (fits_keys_own es oa Hr Hoa)
               (fits_keys_own es ob Hr Hob)),
      (addSizeBreakdowns_objects oa' ob (fits_keys_own es oa' Hr Hoa')
         (fits_keys_own es ob Hr Hob)).
    intros [|k p]; [reflexivity|].
    cbn [valueAt]. rewrite !lookup_tabulate, !mem_allKeys, !mem_keys.
    pose proof (sameSizes_lookup oa oa' k Hsame) as Hk.
    destruct (lookup k oa) as [v|] eqn:E, (lookup k oa') as [v'|] eqn:E';
      try contradiction.
    + cbn [orb]. rewrite !orZero_Some.
      pose proof (lookup_In _ _ _ E) as Hin. pose proof (lookup_In _ _ _ E') as Hin'.
      destruct (Hoa k v Hin) as [r' [Hr' Hv]].
      destruct (Hoa' k v' Hin') as [r'' [Hr'' Hv']].
      rewrite Hr' in Hr''. injection Hr'' as <-.
      rewrite Forall_forall in IH.
      apply (IH (k, v) Hin r' v');
        [apply (noInheritedKey_lookup es k r' Hr Hr')
        |right; exact Hv | right; exact Hv' | | exact Hk].
      eapply fits_orZero_lookup; eassumption.
    + reflexivity.
Qed.

Lemma sameSizes_trans (a b c : Breakdown) :
  sameSizes a b -> sameSizes b c -> sameSizes a c.
Proof. intros H1 H2 p. now rewrite H1. Qed.

Lemma sameSizes_sym (a b : Breakdown) : sameSizes a b -> sameSizes b a.
Proof. intros H p. now rewrite H. Qed.

Lemma addSizeBreakdowns_fitsOrZero (r : Rule Shape) (a b : Breakdown) :
  noInheritedRule r = true ->
  fitsOrZero r a -> fitsOrZero r b -> fitsOrZero r (addSizeBreakdowns a b).
Proof.
  intros Hr Ha Hb. destruct Ha as [->|Ha].
  - rewrite addSizeBreakdowns_zero_l. exact Hb.
  - right. apply addSizeBreakdowns_fits;
      [exact Hr | right; exact Ha | exact Hb | left; exact Ha].
Qed.

Lemma addSizeBreakdowns_sameSizes_r (r : Rule Shape) (a b b' : Breakdown) :
  noInheritedRule r = true ->
  fitsOrZero r a -> fitsOrZero r b -> fitsOrZero r b' ->
  sameSizes b b' ->
  sameSizes (addSizeBreakdowns a b) (addSizeBreakdowns a b').
Proof.
  intros Hr Ha Hb Hb' Hsame.
  apply sameSizes_trans with (addSizeBreakdowns b a);
    [apply addSizeBreakdowns_comm_fits with r; assumption|].
  apply sameSizes_trans with (addSizeBreakdowns b' a);
    [apply addSizeBreakdowns_sameSizes_l with r; assumption|].
  apply addSizeBreakdowns_comm_fits with r; assumption.
Qed.

Lemma fold_merge_fitsOrZero (r : Rule Shape) (l : list Breakdown) :
  noInheritedRule r = true ->
  Forall (fitsOrZero r) l ->
  forall a, fitsOrZero r a -> fitsOrZero r (fold_left addSizeBreakdowns l a).
Proof.
  intros Hr. induction 1 as [|b l Hb _ IH]; intros a Ha; [exact Ha|].
  cbn [fold_left]. apply IH. apply addSizeBreakdowns_fitsOrZero; assumption.
Qed.

Lemma fold_merge_sameSizes (r : Rule Shape) (l : list Breakdown) :
  noInheritedRule r = true ->
  Forall (fitsOrZero r) l ->
  forall a a', fitsOrZero r a -> fitsOrZero r a' -> sameSizes a a' ->
    sameSizes (fold_left addSizeBreakdowns l a) (fold_left addSizeBreakdowns l a').
Proof.
  intros Hr. induction 1 as [|b l Hb _ IH]; intros a a' Ha Ha' Hsame; [exact Hsame|].
  cbn [fold_left]. apply IH.
  - apply addSizeBreakdowns_fitsOrZero; assumption.
  - apply addSizeBreakdowns_fitsOrZero; assumption.
  - apply addSizeBreakdowns_sameSizes_l with r; assumption.
Qed.

Lemma fold_merge_permutation (r : Rule Shape) (l l' : list Breakdown) :
  noInheritedRule r = true ->
  Permutation l l' ->
  Forall (fitsOrZero r) l ->
  forall a, fitsOrZero r a ->
    sameSizes (fold_left addSizeBreakdowns l a) (fold_left addSizeBreakdowns l' a).
Proof.
  intros Hr.
  induction 1 as [|x l l' Hperm IH|x y l|l l' l'' H1 IH1 H2 IH2]; intros Hall a Ha.
  - intros p; reflexivity.
  - cbn [fold_left]. inversion Hall as [|? ? Hx Hl]; subst.
    apply IH; [exact Hl|]. apply addSizeBreakdowns_fitsOrZero; assumption.
  - cbn [fold_left].
    inversion Hall as [|? ? Hy Hl']; subst. inversion Hl' as [|? ? Hx Hl]; subst.
    apply fold_merge_sameSizes with r; [exact Hr|exact Hl| | |].
    + repeat apply addSizeBreakdowns_fitsOrZero; assumption.
    + repeat apply addSizeBreakdowns_fitsOrZero; assumption.
    + rewrite <- !(addSizeBreakdowns_assoc_fits a r) by assumption.
      apply addSizeBreakdowns_sameSizes_r with r;
        try (apply addSizeBreakdowns_fitsOrZero; assumption); [assumption|assumption|].
      apply addSizeBreakdowns_comm_fits with r; assumption.
  - apply sameSizes_trans with (fold_left addSizeBreakdowns l' a).
    + apply IH1; assumption.
    + apply IH2; [|assumption]. apply (Permutation_Forall H1). exact Hall.
Qed.

Lemma mergeAll_fold (l : list Breakdown) :
  l <> [] -> mergeAll l = fold_left addSizeBreakdowns l (BNum 0).
Proof.
  destruct l as [|b l]; [congruence|]. intros _.
  cbn [mergeAll fold_left]. now rewrite addSizeBreakdowns_zero_l.
Qed.

Lemma mergeAll_permutation (r : Rule Shape) (l l' : list Breakdown) :
  noInheritedRule r = true ->
  Permutation l l' ->
  Forall (fun b => fits r b = true) l ->
  sameSizes (mergeAll l) (mergeAll l').
Proof.
  intros Hr Hperm Hall. destruct l as [|b l].
  - apply Permutation_nil in Hperm. subst l'. intros p; reflexivity.
  - assert (l' <> []) as Hl'.
    { intros ->. apply Permutation_sym, Permutation_nil in Hperm. discriminate. }
    rewrite (mergeAll_fold (b :: l)) by discriminate. rewrite (mergeAll_fold l' Hl').
    apply fold_merge_permutation with r; [exact Hr|exact Hperm| |left; reflexivity].
    eapply Forall_impl; [|exact Hall]. intros x Hx. right; exact Hx.
Qed.

(** The array loop of the accountant, without its flag: the breakdowns
    of the elements, merged from left to right. *)
Lemma forIn_mergeItem_fold (shape : Shape) (items : list JsValue) (total : Breakdown) :
  forIn (mergeItem shape) items (total, false)
  = fmap (fun bs => (fold_left addSizeBreakdowns bs total, false))
         (mapM (calculateSizeWithShape shape) items).
Proof.
  revert total. induction items as [|item items IH]; intros total; [reflexivity|].
  rewrite forIn_cons. unfold mergeItem at 1. cbn [mapM].
  destruct (calculateSizeWithShape shape item) as [b|]; [|reflexivity].
  cbn [bind fmap]. rewrite IH.
  fold (mapM (calculateSizeWithShape shape) items).
  destruct (mapM (calculateSizeWithShape shape) items); reflexivity.
Qed.

Lemma calculateSizeWithShape_array_merge (shape : Shape) (items : list JsValue) :
  calculateSizeWithShape shape (JArray items)
  = fmap mergeAll (mapM (calculateSizeWithShape shape) items).
Proof.
  rewrite calculateSizeWithShape_eq. destruct items as [|item items]; [reflexivity|].
  rewrite forIn_cons. unfold mergeItem at 1. cbn [mapM].
  destruct (calculateSizeWithShape shape item) as [b|]; [|reflexivity].
  cbn [bind fmap]. rewrite forIn_mergeItem_fold.
  fold (mapM (calculateSizeWithShape shape) items).
  destruct (mapM (calculateSizeWithShape shape) items); reflexivity.
Qed.

(** X7.  Against a shape with no repeated key and no key, at any
    depth, named like a member of [Object.prototype] ([toString],
    [constructor], ...), the size breakdown of an array does not depend on
    the order of its elements: for the same elements in another order the
    accountant answers too, with the same mapping from keys to sizes.
    (Under a key such as [toString] the order matters: the merge finds the
    inherited function where an element has no such key.) *)
Theorem array_breakdown_any_order (shape : Shape) (items items' : list JsValue)
        (b : Breakdown) :
  wfShape shape = true ->
  noInheritedKey shape = true ->
  Permutation items items' ->
  calculateSizeWithShape shape (JArray items) = Ok b ->
  exists b', calculateSizeWithShape shape (JArray items') = Ok b' /\ sameSizes b b'.
Proof.
  intros Hwf Hown Hperm. rewrite !calculateSizeWithShape_array_merge.
  destruct (mapM (calculateSizeWithShape shape) items) as [bs|] eqn:E; [|discriminate].
  intros H; injection H as <-. apply mapM_Ok in E.
  destruct (Permutation_Forall2 Hperm E) as [bs' [Hbs E']].
  apply mapM_Ok in E'. rewrite E'. exists (mergeAll bs'). split; [reflexivity|].
  apply mergeAll_permutation with (RShape shape); [exact Hown|exact Hbs|].
  clear - E Hwf Hown.
  induction E as [|item bi items bs Hitem _ IH]; constructor; [|exact IH].
  apply (calculateSizeWithShape_conforms shape Hwf Hown item bi Hitem).
Qed.

Lemma array_breakdown_any_order_witness :
  exists b', calculateSizeWithShape Samples.idOnly (JArray (rev Samples.userList)) = Ok b'
             /\ sameSizes (BObj [(js "id", BNum 2)]) b'.
Proof.
  apply (array_breakdown_any_order Samples.idOnly Samples.userList
           (rev Samples.userList)).
  - reflexivity.
  - reflexivity.
  - apply perm_swap.
  - vm_compute. reflexivity.
Defined.

(** ** The breakdown and the projection, key by key *)

Lemma measureEntry_effect (data : JsValue) (result : list (jsstring * Breakdown))
      (entry : jsstring * Rule Shape) :
  measureEntry data result entry = fmap (assignSize result) (measureEffect data entry).
Proof.
  destruct entry as [k rule]. unfold measureEntry, measureEffect.
  destruct (getProp data k) as [v|]; [|reflexivity]. cbn [bind fmap].
  destruct (isUndefined v); [reflexivity|].
  destruct rule as [|sub|]; try reflexivity.
  destruct (calculateSizeWithShape sub v); reflexivity.
Qed.

Lemma measureEffect_key (data : JsValue) (entry : jsstring * Rule Shape)
      (k : jsstring) (b : Breakdown) :
  measureEffect data entry = Ok (Some (k, b)) -> k = fst entry.
Proof.
  destruct entry as [k0 rule]. unfold measureEffect.
  destruct (getProp data k0) as [v|]; [|discriminate]. cbn [bind].
  destruct (isUndefined v); [discriminate|].
  destruct rule as [|sub|]; try discriminate.
  - intros H; injection H as <- _. reflexivity.
  - destruct (calculateSizeWithShape sub v); [|discriminate].
    intros H; injection H as <- _. reflexivity.
Qed.

(** The loop of the accountant over entries with distinct keys, none of
    them in the breakdown yet. *)
Lemma forIn_measureEntry_unique (data : JsValue) (es : list (jsstring * Rule Shape)) :
  uniqueKeys (map fst es) = true ->
  forall acc acc',
    (forall k, In k (map fst es) -> lookup k acc = None) ->
    forIn (measureEntry data) es acc = Ok acc' ->
    (forall k rule, In (k, rule) es ->
       exists eff, measureEffect data (k, rule) = Ok eff
                   /\ lookup k acc' = option_map snd eff)
    /\ (forall k, ~ In k (map fst es) -> lookup k acc' = lookup k acc).
Proof.
  induction es as [|[k0 rule0] es IH]; intros Hu acc acc' Hfresh Hrun.
  - simpl in Hrun. injection Hrun as <-. split; [intros k rule []|auto].
  - cbn [map fst] in Hu. apply uniqueKeys_cons in Hu as [Hk0 Hu].
    rewrite forIn_cons, measureEntry_effect in Hrun.
    destruct (measureEffect data (k0, rule0)) as [eff0|] eqn:Eeff; [|discriminate].
    cbn [fmap bind] in Hrun.
    assert (forall k, In k (map fst es) -> lookup k (assignSize acc eff0) = None)
      as Hfresh'.
    { intros k Hk. destruct eff0 as [[k2 v]|]; simpl.
      - apply measureEffect_key in Eeff. simpl in Eeff. subst k2.
        rewrite lookup_objSet. destruct (JsString.eqb k0 k) eqn:E.
        + apply eqb_eq in E. subst k. contradiction.
        + apply Hfresh. right; exact Hk.
      - apply Hfresh. right; exact Hk. }
    destruct (IH Hu _ _ Hfresh' Hrun) as [Hentries Hother].
    assert (lookup k0 acc = None) as Hk0acc by (apply Hfresh; left; reflexivity).
    split.
    + intros k rule [E|Hin].
      * injection E as <- <-. exists eff0. split; [assumption|].
        rewrite (Hother k0 Hk0). destruct eff0 as [[k2 v]|]; simpl; [|assumption].
        pose proof (measureEffect_key _ _ _ _ Eeff) as Ek. simpl in Ek. subst k2.
        now rewrite lookup_objSet, eqb_refl.
      * apply Hentries; assumption.
    + intros k Hk. simpl in Hk.
      rewrite (Hother k (fun H => Hk (or_intror H))).
      destruct eff0 as [[k2 v]|]; simpl; [|reflexivity].
      pose proof (measureEffect_key _ _ _ _ Eeff) as Ek. simpl in Ek. subst k2.
      rewrite lookup_objSet. destruct (JsString.eqb k0 k) eqn:E; [|reflexivity].
      apply eqb_eq in E. subst k. exfalso. apply Hk. left; reflexivity.
Qed.

(** X8.  Of a value that is not an array, under a shape with no
    repeated key, the size breakdown mirrors the projection: under a key
    mapped to [true] it holds the accounted size of exactly the value the
    filter returns there; under a key mapped to a nested shape, the
    breakdown of what the filter projected there; and it has a key exactly
    where the projection holds something other than [undefined]. *)
Theorem breakdown_mirrors_projection (data : JsValue)
        (es : list (jsstring * Rule Shape))
        (sizes : list (jsstring * Breakdown)) (result : Props) :
  isArray data = false ->
  uniqueKeys (map fst es) = true ->
  calculateSizeWithShape (MkShape es) data = Ok (BObj sizes) ->
  extractWithShape (MkShape es) data = Ok (JObject result) ->
  (forall key v, In (key, RTrue) es -> lookup key result = Some v ->
     isUndefined v = false ->
     lookup key sizes = Some (BNum (calculateValueSize v)))
  /\ (forall key sub r, In (key, RShape sub) es -> lookup key result = Some r ->
        exists v b, getProp data key = Ok v
                    /\ extractWithShape sub v = Ok r
                    /\ calculateSizeWithShape sub v = Ok b
                    /\ lookup key sizes = Some b)
  /\ (forall key, lookup key sizes = None
                  <-> lookup key result = None \/ lookup key result = Some JUndefined).
Proof.
  intros Harr Hu Hsize Hproj.
  assert (calculateSizeWithShape (MkShape es) data
          = fmap BObj (forIn (measureEntry data) es [])) as E
      by (destruct data; try reflexivity; discriminate).
  rewrite E in Hsize. clear E.
  rewrite extractWithShape_object_eq in Hproj by assumption. cbn [entries] in Hproj.
  destruct (forIn (measureEntry data) es []) as [sizes0|] eqn:Esizes; [|discriminate].
  destruct (forIn (projectEntry data) es []) as [result0|] eqn:Eresult; [|discriminate].
  injection Hsize as <-. injection Hproj as <-.
  destruct (forIn_measureEntry_unique data es Hu [] sizes0 (fun _ _ => eq_refl) Esizes)
    as [Hm Hmother].
  destruct (forIn_projectEntry_unique data es Hu [] result0 (fun _ _ => eq_refl) Eresult)
    as [Hp [Hpother _]].
  split; [|split].
  - intros key v Hin Hl Hdef.
    destruct (Hm key RTrue Hin) as [effm [Heffm ->]].
    destruct (Hp key RTrue Hin) as [effp [Heffp Hlp]].
    cbn [measureEffect entryEffect] in Heffm, Heffp.
    destruct (getProp data key) as [x|]; [|discriminate]. cbn [bind] in Heffm, Heffp.
    injection Heffp as <-. cbn [option_map snd] in Hlp. rewrite Hlp in Hl.
    injection Hl as ->. rewrite Hdef in Heffm. injection Heffm as <-. reflexivity.
  - intros key sub r Hin Hl.
    destruct (Hm key (RShape sub) Hin) as [effm [Heffm ->]].
    destruct (Hp key (RShape sub) Hin) as [effp [Heffp Hlp]].
    cbn [measureEffect entryEffect] in Heffm, Heffp.
    destruct (getProp data key) as [x|]; [|discriminate]. cbn [bind] in Heffm, Heffp.
    destruct (isUndefined x).
    { injection Heffp as <-. cbn [option_map] in Hlp. congruence. }
    destruct (extractWithShape sub x) as [rx|] eqn:Erx; [|discriminate].
    destruct (calculateSizeWithShape sub x) as [bx|] eqn:Ebx; [|discriminate].
    cbn [bind] in Heffm, Heffp. injection Heffp as <-. injection Heffm as <-.
    cbn [option_map snd] in Hlp |- *. rewrite Hlp in Hl. injection Hl as <-.
    exists x, bx. repeat split; assumption.
  - intros key. destruct (in_dec (list_eq_dec N.eq_dec) key (map fst es)) as [Hin|Hout].
    + apply in_map_iff in Hin as [[k rule] [Ek Hin]]. cbn [fst] in Ek. subst k.
      destruct (Hm key rule Hin) as [effm [Heffm ->]].
      destruct (Hp key rule Hin) as [effp [Heffp ->]].
      cbn [measureEffect entryEffect] in Heffm, Heffp.
      destruct rule as [|sub|].
      * destruct (getProp data key) as [x|]; [|discriminate].
        cbn [bind] in Heffm, Heffp. injection Heffp as <-. cbn [option_map snd].
        destruct x; cbn [isUndefined] in Heffm; injection Heffm as <-;
          cbn [option_map]; split; try discriminate; auto;
          intros [H|H]; discriminate.
      * destruct (getProp data key) as [x|]; [|discriminate].
        cbn [bind] in Heffm, Heffp. destruct (isUndefined x).
        { injection Heffp as <-. injection Heffm as <-. cbn [option_map]. tauto. }
        destruct (extractWithShape sub x) as [rx|] eqn:Erx; [|discriminate].
        destruct (calculateSizeWithShape sub x) as [bx|] eqn:Ebx; [|discriminate].
        cbn [bind] in Heffm, Heffp. injection Heffp as <-. injection Heffm as <-.
        cbn [option_map snd]. apply extractWithShape_not_undefined in Erx.
        split; [discriminate|]. intros [H|H]; [discriminate|].
        injection H as ->. discriminate.
      * destruct (getProp data key) as [x|]; [|discriminate].
        cbn [bind] in Heffm. injection Heffp as <-.
        destruct (isUndefined x); injection Heffm as <-; cbn [option_map]; tauto.
    + rewrite (Hmother key Hout), (Hpother key Hout). cbn [lookup]. tauto.
Qed.

Lemma breakdown_mirrors_projection_witness :
  lookup (js "name") [(js "name", BNum 6); (js "age", BNum 2)]
  = Some (BNum (calculateValueSize (Samples.str "John"))).
Proof.
  destruct (breakdown_mirrors_projection Samples.person
              [(js "name", RTrue); (js "age", RTrue)]
              [(js "name", BNum 6); (js "age", BNum 2)]
              [(js "name", Samples.str "John"); (js "age", Samples.num 30)]
              eq_refl eq_refl eq_refl eq_refl) as [H _].
  apply (H (js "name") (Samples.str "John")).
  - left; reflexivity.
  - reflexivity.
  - reflexivity.
Defined.

(** ** The accountant never counts more than the serialization *)

Lemma utf8Length_cons (c : codeUnit) (rest : jsstring) :
  utf8Length (c :: rest)
  = if N.ltb c 128 then 1 + utf8Length rest
    else if N.ltb c 2048 then 2 + utf8Length rest
    else if isHighSurrogate c then
      match rest with
      | d :: rest' =>
          if isLowSurrogate d then 4 + utf8Length rest' else 3 + utf8Length rest
      | [] => 3
      end
    else 3 + utf8Length rest.
Proof. reflexivity. Qed.

Lemma hexDigit_ascii (n : N) : (n < 16)%N -> isAscii (hexDigit n) = true.
Proof.
  intros H. unfold isAscii, hexDigit. destruct (N.ltb n 10); apply N.ltb_lt; lia.
Qed.

Lemma utf8Length_unicodeEscape (c : codeUnit) (s : jsstring) :
  utf8Length (unicodeEscape c ++ s) = 6 + utf8Length s.
Proof.
  unfold unicodeEscape. cbn [app].
  repeat (rewrite utf8Length_cons_ascii
            by (first [reflexivity | apply hexDigit_ascii, N.mod_lt; discriminate])).
  lia.
Qed.

Lemma shortEscape_ascii (c e : codeUnit) :
  shortEscape c = Some e -> isAscii c = true /\ isAscii e = true.
Proof.
  unfold shortEscape. intros H.
  repeat match type of H with
         | (if N.eqb ?a ?b then _ else _) = _ =>
             destruct (N.eqb_spec a b);
             [subst; injection H as <-; split; reflexivity|]
         end.
  discriminate.
Qed.

Lemma surrogate_wide (c : codeUnit) :
  isHighSurrogate c || isLowSurrogate c = true ->
  N.ltb c 128 = false /\ N.ltb c 2048 = false.
Proof.
  unfold isHighSurrogate, isLowSurrogate. intros H.
  apply orb_true_iff in H as [H|H]; apply andb_true_iff in H as [H _];
    apply N.leb_le in H; split; apply N.ltb_ge; lia.
Qed.

Lemma low_not_high (c : codeUnit) : isLowSurrogate c = true -> isHighSurrogate c = false.
Proof.
  unfold isHighSurrogate, isLowSurrogate. intros H.
  apply andb_true_iff in H as [H _]. apply N.leb_le in H.
  apply andb_false_iff. right. apply N.leb_gt. lia.
Qed.

(** Escaping a string never shortens it. *)
Lemma utf8Length_quoteBody (s : jsstring) : utf8Length s <= utf8Length (quoteBody s).
Proof.
  assert (forall n s, (List.length s <= n)%nat ->
            utf8Length s <= utf8Length (quoteBody s)) as H.
  { induction n as [|n IH]; intros [|c rest] Hlen; simpl in Hlen;
      try (apply Z.le_refl); try lia.
    assert (utf8Length rest <= utf8Length (quoteBody rest)) as Hrest
        by (apply IH; lia).
    cbn [quoteBody]. destruct (shortEscape c) as [e|] eqn:Ee.
    { destruct (shortEscape_ascii c e Ee) as [Hc He].
      rewrite (utf8Length_cons_ascii c) by assumption.
      rewrite (utf8Length_cons_ascii 92%N) by reflexivity.
      rewrite (utf8Length_cons_ascii e) by assumption. lia. }
    destruct (N.ltb c 32) eqn:E32.
    { rewrite utf8Length_unicodeEscape, utf8Length_cons_ascii; [lia|].
      unfold isAscii. apply N.ltb_lt in E32. apply N.ltb_lt. lia. }
    destruct (isHighSurrogate c) eqn:Eh.
    { destruct (surrogate_wide c) as [H1 H2]; [rewrite Eh; reflexivity|].
      destruct rest as [|d rest'].
      - rewrite <- (app_nil_r (unicodeEscape c)), utf8Length_unicodeEscape.
        rewrite utf8Length_cons, H1, H2, Eh. cbn [utf8Length]. lia.
      - destruct (isLowSurrogate d) eqn:El.
        + rewrite !(utf8Length_cons c), H1, H2, Eh, El.
          assert (utf8Length rest' <= utf8Length (quoteBody rest'))
            by (apply IH; simpl in Hlen; lia).
          lia.
        + rewrite utf8Length_unicodeEscape.
          rewrite (utf8Length_cons c), H1, H2, Eh, El. lia. }
    destruct (isLowSurrogate c) eqn:El.
    { destruct (surrogate_wide c) as [H1 H2]; [rewrite El; apply orb_true_r|].
      rewrite utf8Length_unicodeEscape, utf8Length_cons, H1, H2, Eh. lia. }
    rewrite !(utf8Length_cons c), Eh.
    destruct (N.ltb c 128); [lia|]. destruct (N.ltb c 2048); lia. }
  apply (H (List.length s)). lia.
Qed.

Lemma separated_le {A} (f g : A -> Z) (l : list A) :
  Forall (fun a => f a <= g a) l -> separated f l <= separated g l.
Proof.
  induction 1 as [|a l Ha _ IH]; [apply Z.le_refl|].
  change (separated f (a :: l))
    with (f a + (match l with [] => 0 | _ => 1 end) + separated f l).
  change (separated g (a :: l))
    with (g a + (match l with [] => 0 | _ => 1 end) + separated g l).
  lia.
Qed.

(** X9.  On a document as [JSON.parse] builds it when no number
    overflows, the accountant never counts more than the bytes of the
    whitespace-free serialization: keys that need an escape are the only
    source of a difference, and they make the count too small. *)
Theorem calculateValueSize_lower_bound (v : JsValue) :
  finiteDocument v = true ->
  exists text, Json.stringify v = Some text
               /\ calculateValueSize v <= utf8Length text.
Proof.
  unfold Json.stringify.
  induction v as [| |b|n|s|items IH|props IH] using JsValue_ind; intros Hfin;
    try discriminate.
  - exists (js "null"). split; [reflexivity|apply Z.le_refl].
  - destruct b; eexists; (split; [reflexivity|apply Z.le_refl]).
  - destruct n; try discriminate. eexists; split; [reflexivity|apply Z.le_refl].
  - eexists; split; [reflexivity|apply Z.le_refl].
  - exists (Json.wrap [] [] [] 91%N 93%N
              (map (fun item => match Json.serialize [] [] item with
                                | Some text => text
                                | None => js "null"
                                end) items)).
    split; [reflexivity|].
    rewrite wrap_compact_length by reflexivity.
    rewrite calculateValueSize_array, separated_map.
    apply Z.add_le_mono_l. apply separated_le.
    cbn [finiteDocument] in Hfin. rewrite forallb_forall in Hfin.
    rewrite Forall_forall in IH |- *. intros item Hin.
    destruct (IH item Hin (Hfin item Hin)) as [text [-> Hle]]. exact Hle.
  - exists (Json.wrap [] [] [] 123%N 125%N
              (flat_map (fun entry : jsstring * JsValue =>
                           match Json.serialize [] [] (snd entry) with
                           | Some text => [quote (fst entry) ++ 58%N :: text]
                           | None => []
                           end) props)).
    split; [reflexivity|].
    rewrite wrap_compact_length by reflexivity.
    rewrite calculateValueSize_object. apply Z.add_le_mono_l.
    cbn [finiteDocument] in Hfin.
    induction IH as [|[k x] props Hx _ IHprops]; [apply Z.le_refl|].
    cbn [forallb snd] in Hfin. apply andb_true_iff in Hfin as [Hfx Hrest].
    destruct (Hx Hfx) as [text [Ex Hle]]. cbn [snd] in Ex, Hle.
    specialize (IHprops Hrest).
    cbn [flat_map filter fst snd]. rewrite Ex.
    assert (isUndefined x = false) as -> by (destruct x; try reflexivity; discriminate).
    cbn [negb app].
    change (separated ?f (?e :: ?l))
      with (f e + (match l with [] => 0 | _ => 1 end) + separated f l).
    cbn [fst snd].
    assert (utf8Length (34%N :: k ++ [34%N]) + 1 + calculateValueSize x
            <= utf8Length (quote k ++ 58%N :: text)) as Hhead.
    { unfold quote. rewrite utf8Length_app_ascii by reflexivity.
      rewrite !(utf8Length_cons_ascii 34%N) by reflexivity.
      rewrite !utf8Length_app_ascii by reflexivity.
      pose proof (utf8Length_quoteBody k). cbn [utf8Length]. lia. }
    assert (match filter (fun e => negb (isUndefined (snd e))) props with
            | [] => 0 | _ => 1 end
            = match flat_map
                      (fun entry : jsstring * JsValue =>
                         match Json.serialize [] [] (snd entry) with
                         | Some text0 => [quote (fst entry) ++ 58%N :: text0]
                         | None => []
                         end) props with
              | [] => 0 | _ => 1 end) as Hsep.
    { clear -Hrest. destruct props as [|[k' x'] props]; [reflexivity|].
      cbn [forallb snd] in Hrest. apply andb_true_iff in Hrest as [H1 _].
      cbn [flat_map filter snd].
      destruct x' as [| |[|]|[r|neg|]|s|items|ps]; try discriminate; reflexivity. }
    rewrite Hsep.
    apply Z.add_le_mono; [apply Z.add_le_mono; [exact Hhead|apply Z.le_refl]|].
    exact IHprops.
Qed.

Lemma calculateValueSize_lower_bound_witness :
  exists text, Json.stringify Samples.escapedKey = Some text
               /\ calculateValueSize Samples.escapedKey <= utf8Length text.
Proof.
  exact (calculateValueSize_lower_bound Samples.escapedKey eq_refl).
Defined.

(** ** Local ingestion, outcome by outcome *)

(** The run of the local strategy, in full. *)
Lemma local_run (rt : Runtime) (w : World) (source : jsstring) :
  run w (LocalFileStrategy.ingest rt source)
  = match stat_of w (path_resolve rt source) with
    | Throw error =>
        (Failure {| type := file_not_found;
                    message := js "File not found: " ++ path_resolve rt source;
                    details := DetailsThrown error |},
         [EvStat (path_resolve rt source)])
    | Ok stats =>
        if size stats >? LocalFileStrategy.maxFileSize
        then (Failure (LocalFileStrategy.tooLarge (size stats) (path_resolve rt source)),
              [EvStat (path_resolve rt source)])
        else
          (match file_of w (path_resolve rt source) with
           | Throw error =>
               Failure {| type := file_not_found;
                          message := js "Failed to read file: " ++ path_resolve rt source;
                          details := DetailsThrown error |}
           | Ok content => validateJsonContent rt content
           end,
           [EvStat (path_resolve rt source); EvReadFile (path_resolve rt source)])
    end.
Proof.
  unfold LocalFileStrategy.ingest. cbn [run io_bind fs_stat].
  destruct (stat_of w (path_resolve rt source)) as [stats|error]; [|reflexivity].
  destruct (size stats >? LocalFileStrategy.maxFileSize); [reflexivity|].
  cbn [run io_bind fs_readFile].
  destruct (file_of w (path_resolve rt source)); reflexivity.
Qed.

Lemma validateJsonContent_Success (rt : Runtime) (text content : jsstring) :
  validateJsonContent rt text = Success content ->
  text = content /\ exists v, JSON_parse rt content = Ok v.
Proof.
  unfold validateJsonContent. destruct (JSON_parse rt text) as [v|] eqn:E; [|discriminate].
  intros H; injection H as <-. split; [reflexivity|]. exists v; exact E.
Qed.

(** X10.  When the local strategy succeeds, the content it returns is
    the text of the resolved file, unchanged; that text parses as JSON;
    the stat succeeded with a size within the 50 MB cap; and the run is one
    stat followed by one read of the resolved path. *)
Theorem local_success_sound (rt : Runtime) (w : World) (source content : jsstring) :
  fst (run w (LocalFileStrategy.ingest rt source)) = Success content ->
  exists stats,
    stat_of w (path_resolve rt source) = Ok stats
    /\ size stats <= 50 * 1024 * 1024
    /\ file_of w (path_resolve rt source) = Ok content
    /\ (exists v, JSON_parse rt content = Ok v)
    /\ snd (run w (LocalFileStrategy.ingest rt source))
       = [EvStat (path_resolve rt source); EvReadFile (path_resolve rt source)].
Proof.
  rewrite local_run.
  destruct (stat_of w (path_resolve rt source)) as [stats|error]; [|discriminate].
  destruct (size stats >? LocalFileStrategy.maxFileSize) eqn:Ecap; [discriminate|].
  cbn [fst snd].
  destruct (file_of w (path_resolve rt source)) as [text|error]; [|discriminate].
  intros H. apply validateJsonContent_Success in H as [-> Hparse].
  exists stats. repeat split; try assumption; try reflexivity.
  rewrite Z.gtb_ltb in Ecap. apply Z.ltb_ge in Ecap. exact Ecap.
Qed.


(** X11.  A failure of the local strategy is a [file_not_found], a
    [content_too_large] or an [invalid_json], never another kind; and the
    file is read exactly when the stat succeeded with a size within the
    cap, whatever the outcome. *)
Theorem local_failure_kinds (rt : Runtime) (w : World) (source : jsstring) :
  (forall e, fst (run w (LocalFileStrategy.ingest rt source)) = Failure e ->
             In (type e) localFailureKinds)
  /\ (existsb readsFile (snd (run w (LocalFileStrategy.ingest rt source))) = true
      <-> exists stats, stat_of w (path_resolve rt source) = Ok stats
                        /\ size stats <= 50 * 1024 * 1024).
Proof.
  rewrite local_run. unfold localFailureKinds.
  destruct (stat_of w (path_resolve rt source)) as [stats|error].
  - destruct (size stats >? LocalFileStrategy.maxFileSize) eqn:Ecap.
    + split.
      * intros e H. injection H as <-. right; left; reflexivity.
      * cbn [snd existsb readsFile orb]. split; [discriminate|].
        intros [stats' [H Hle]]. injection H as <-.
        rewrite Z.gtb_ltb in Ecap. apply Z.ltb_lt in Ecap.
        unfold LocalFileStrategy.maxFileSize in Ecap. lia.
    + split.
      * cbn [fst]. intros e.
        destruct (file_of w (path_resolve rt source)) as [text|error].
        -- unfold validateJsonContent. destruct (JSON_parse rt text); [discriminate|].
           intros H; injection H as <-. right; right; left; reflexivity.
        -- intros H; injection H as <-. left; reflexivity.
      * cbn [snd existsb readsFile orb]. split; [|reflexivity].
        intros _. exists stats. split; [reflexivity|].
        rewrite Z.gtb_ltb in Ecap. apply Z.ltb_ge in Ecap. exact Ecap.
  - split.
    + intros e H. injection H as <-. left; reflexivity.
    + cbn [snd existsb readsFile orb]. split; [discriminate|].
      intros [stats [H _]]. discriminate.
Qed.

(** ** The earlier revision of the local strategy *)

(** X12.  The earlier revision of the local strategy, which reads the
    file without a stat, answers as the revision with the cap does for
    every file that can be read and whose stat reports a size within the
    cap, and reads it by the read alone; a readable file above the cap it
    reads and validates, where the later revision refuses it unread. *)
Theorem local_revisions_agree (rt : Runtime) (w : World) (source : jsstring)
        (stats : Stats) (content : jsstring) :
  stat_of w (path_resolve rt source) = Ok stats ->
  file_of w (path_resolve rt source) = Ok content ->
  run w (LocalFileStrategyUncapped.ingest rt source)
  = (validateJsonContent rt content, [EvReadFile (path_resolve rt source)])
  /\ (size stats <= 50 * 1024 * 1024 ->
      fst (run w (LocalFileStrategy.ingest rt source))
      = fst (run w (LocalFileStrategyUncapped.ingest rt source)))
  /\ (size stats > 50 * 1024 * 1024 ->
      exists e, fst (run w (LocalFileStrategy.ingest rt source)) = Failure e
                /\ type e = content_too_large
                /\ existsb readsFile (snd (run w (LocalFileStrategy.ingest rt source)))
                   = false).
Proof.
  intros Hstat Hfile.
  assert (run w (LocalFileStrategyUncapped.ingest rt source)
          = (validateJsonContent rt content, [EvReadFile (path_resolve rt source)])) as Hold.
  { unfold LocalFileStrategyUncapped.ingest. cbn [run io_bind fs_readFile].
    rewrite Hfile. reflexivity. }
  rewrite local_run, Hstat, Hfile, Hold. split; [reflexivity|]. split.
  - intros Hle.
    assert ((size stats >? LocalFileStrategy.maxFileSize) = false) as ->; [|reflexivity].
    rewrite Z.gtb_ltb. apply Z.ltb_ge. exact Hle.
  - intros Hgt.
    assert ((size stats >? LocalFileStrategy.maxFileSize) = true) as ->.
    { rewrite Z.gtb_ltb. apply Z.ltb_lt. unfold LocalFileStrategy.maxFileSize. lia. }
    eexists. split; [reflexivity|]. split; reflexivity.
Qed.

Lemma local_success_sound_witness :
  exists stats,
    stat_of (Worlds.disk 2) (path_resolve Samples.runtime (js "a.json")) = Ok stats
    /\ size stats <= 50 * 1024 * 1024
    /\ file_of (Worlds.disk 2) (path_resolve Samples.runtime (js "a.json")) = Ok (js "{}")
    /\ (exists v, JSON_parse Samples.runtime (js "{}") = Ok v)
    /\ snd (run (Worlds.disk 2) (LocalFileStrategy.ingest Samples.runtime (js "a.json")))
       = [EvStat (path_resolve Samples.runtime (js "a.json"));
          EvReadFile (path_resolve Samples.runtime (js "a.json"))].
Proof.
  exact (local_success_sound Samples.runtime (Worlds.disk 2) (js "a.json") (js "{}")
           eq_refl).
Defined.

Lemma local_revisions_agree_witness :
  fst (run (Worlds.disk 2) (LocalFileStrategy.ingest Samples.runtime (js "a.json")))
  = fst (run (Worlds.disk 2) (LocalFileStrategyUncapped.ingest Samples.runtime (js "a.json"))).
Proof.
  destruct (local_revisions_agree Samples.runtime (Worlds.disk 2) (js "a.json")
              {| size := 2 |} (js "{}") eq_refl eq_refl) as [_ [H _]].
  apply H. vm_compute. discriminate.
Defined.

(** ** Remote ingestion, outcome by outcome *)

Lemma run_rejectStatus (w : World) (response : Response) (source : jsstring) :
  exists e t,
    run w (HttpJsonStrategy.rejectStatus response source) = (Failure e, t)
    /\ In (type e) httpFailureKinds /\ type e <> invalid_url.
Proof.
  unfold HttpJsonStrategy.rejectStatus, httpFailureKinds.
  destruct ((status response =? 401) || (status response =? 403)).
  - cbn [run io_bind response_text]. eexists; eexists. split; [reflexivity|].
    split; [right; right; left; reflexivity|discriminate].
  - destruct (status response =? 429).
    + eexists; eexists. split; [reflexivity|].
      split; [right; right; right; left; reflexivity|discriminate].
    + destruct (status response >=? 500).
      * eexists; eexists. split; [reflexivity|].
        split; [right; right; right; right; left; reflexivity|discriminate].
      * eexists; eexists. split; [reflexivity|].
        split; [right; left; reflexivity|discriminate].
Qed.

Lemma run_acceptBody (rt : Runtime) (w : World) (response : Response)
      (source : jsstring) :
  (exists e t,
      run w (HttpJsonStrategy.acceptBody rt response source) = (Failure e, t)
      /\ In (type e) httpFailureKinds /\ type e <> invalid_url)
  \/ (exists content,
         run w (HttpJsonStrategy.acceptBody rt response source)
         = (Success content, [EvResponseText source])
         /\ HttpJsonStrategy.declaredTooLarge response source = None
         /\ body_of w source = Ok content
         /\ utf8Length content <= HttpJsonStrategy.maxResponseSize
         /\ exists v, JSON_parse rt content = Ok v).
Proof.
  unfold HttpJsonStrategy.acceptBody, httpFailureKinds.
  destruct (HttpJsonStrategy.declaredTooLarge response source) as [e|] eqn:Edecl.
  { left. exists e, []. split; [reflexivity|].
    unfold HttpJsonStrategy.declaredTooLarge in Edecl.
    destruct (headers_get response (js "content-length")) as [[|c s]|]; try discriminate.
    destruct (HttpJsonStrategy.parseInt10 (c :: s)) as [n|]; [|discriminate].
    destruct (n >? HttpJsonStrategy.maxResponseSize); [|discriminate].
    injection Edecl as <-.
    split; [do 5 right; left; reflexivity|discriminate]. }
  unfold HttpJsonStrategy.readBody. cbn [run io_bind response_text].
  destruct (body_of w source) as [content|error].
  2:{ left. eexists; eexists. split; [reflexivity|].
      split; [right; left; reflexivity|discriminate]. }
  destruct (utf8Length content >? HttpJsonStrategy.maxResponseSize) eqn:Ecap.
  { left. eexists; eexists. split; [reflexivity|].
    split; [do 5 right; left; reflexivity|discriminate]. }
  destruct (validateJsonContent rt content) as [text|e] eqn:Evalid.
  - right. apply validateJsonContent_Success in Evalid as [<- Hparse].
    exists content. repeat split; try assumption; try reflexivity.
    rewrite Z.gtb_ltb in Ecap. apply Z.ltb_ge in Ecap. exact Ecap.
  - left. eexists; eexists. split; [reflexivity|].
    split; [do 6 right; left; reflexivity|discriminate].
Qed.

(** The three ways a run of the remote strategy ends. *)
Lemma http_run_cases (rt : Runtime) (w : World) (source : jsstring) :
  (exists e,
      run w (HttpJsonStrategy.ingest rt source) = (Failure e, [])
      /\ type e = invalid_url)
  \/ (exists e t,
         run w (HttpJsonStrategy.ingest rt source) = (Failure e, EvFetch source :: t)
         /\ In (type e) httpFailureKinds /\ type e <> invalid_url)
  \/ (exists protocol response content,
         run w (HttpJsonStrategy.ingest rt source)
         = (Success content, [EvFetch source; EvResponseText source])
         /\ URL_protocol rt source = Ok protocol
         /\ (protocol = js "http:" \/ protocol = js "https:")
         /\ response_of w source = Ok response
         /\ ok response = true
         /\ HttpJsonStrategy.declaredTooLarge response source = None
         /\ body_of w source = Ok content
         /\ utf8Length content <= HttpJsonStrategy.maxResponseSize
         /\ exists v, JSON_parse rt content = Ok v).
Proof.
  destruct (URL_protocol rt source) as [protocol|error] eqn:Eurl.
  2:{ left. unfold HttpJsonStrategy.ingest. rewrite Eurl.
      eexists. split; reflexivity. }
  destruct (negb (JsString.eqb protocol (js "http:"))
            && negb (JsString.eqb protocol (js "https:"))) eqn:Eproto.
  { left. unfold HttpJsonStrategy.ingest. rewrite Eurl, Eproto.
    eexists. split; reflexivity. }
  assert (protocol = js "http:" \/ protocol = js "https:") as Hproto.
  { apply andb_false_iff in Eproto as [E|E]; apply negb_false_iff, eqb_eq in E; auto. }
  destruct (response_of w source) as [response|error] eqn:Eresp.
  2:{ right; left. unfold HttpJsonStrategy.ingest. rewrite Eurl, Eproto.
      cbn [run io_bind fetch]. rewrite Eresp. unfold httpFailureKinds.
      eexists; eexists. split; [reflexivity|].
      unfold HttpJsonStrategy.fetchFailed.
      destruct error as [err|text];
        [destruct (JsString.eqb (err_name err) (js "AbortError"))|];
        (split; [right; left; reflexivity|discriminate]). }
  rewrite (http_response_reached rt w source protocol response Eurl Hproto Eresp).
  destruct (ok response) eqn:Eok; cbn [negb].
  - destruct (run_acceptBody rt w response source)
      as [[e [t [-> [Hkind Hurl]]]]|[content [-> [Hdecl [Hbody [Hcap Hparse]]]]]].
    + right; left. exists e, t. repeat split; assumption.
    + right; right. exists protocol, response, content. repeat split; assumption.
  - destruct (run_rejectStatus w response source) as [e [t [-> [Hkind Hurl]]]].
    right; left. exists e, t. repeat split; assumption.
Qed.

(** X13.  When the remote strategy succeeds, the URL parsed with the
    [http:] or [https:] protocol, the response had a 2xx status and did
    not declare a size above the cap, the content returned is the body of
    the response, unchanged, of at most 50 MB in UTF-8 (a body of exactly
    the cap is accepted), that body parses as JSON, and the run is one
    fetch followed by one read of the body. *)
Theorem http_success_sound (rt : Runtime) (w : World) (source content : jsstring) :
  fst (run w (HttpJsonStrategy.ingest rt source)) = Success content ->
  exists protocol response,
    URL_protocol rt source = Ok protocol
    /\ (protocol = js "http:" \/ protocol = js "https:")
    /\ response_of w source = Ok response
    /\ 200 <= status response <= 299
    /\ HttpJsonStrategy.declaredTooLarge response source = None
    /\ body_of w source = Ok content
    /\ utf8Length content <= 50 * 1024 * 1024
    /\ (exists v, JSON_parse rt content = Ok v)
    /\ snd (run w (HttpJsonStrategy.ingest rt source))
       = [EvFetch source; EvResponseText source].
Proof.
  destruct (http_run_cases rt w source)
    as [[e [-> _]]|[[e [t [-> _]]]|[protocol [response [text [-> H]]]]]];
    try discriminate.
  cbn [fst snd]. intros E; injection E as <-.
  destruct H as [Hurl [Hproto [Hresp [Hok [Hdecl [Hbody [Hcap Hparse]]]]]]].
  exists protocol, response. repeat split; try assumption.
  - unfold ok in Hok. apply andb_true_iff in Hok as [H1 _]. apply Z.leb_le in H1. exact H1.
  - unfold ok in Hok. apply andb_true_iff in Hok as [_ H2]. apply Z.leb_le in H2. exact H2.
Qed.

Lemma http_success_sound_witness :
  exists protocol response,
    URL_protocol Samples.runtime (js "https://api.test/data") = Ok protocol
    /\ (protocol = js "http:" \/ protocol = js "https:")
    /\ response_of Worlds.online (js "https://api.test/data") = Ok response
    /\ 200 <= status response <= 299
    /\ HttpJsonStrategy.declaredTooLarge response (js "https://api.test/data") = None
    /\ body_of Worlds.online (js "https://api.test/data") = Ok (js "{}")
    /\ utf8Length (js "{}") <= 50 * 1024 * 1024
    /\ (exists v, JSON_parse Samples.runtime (js "{}") = Ok v)
    /\ snd (run Worlds.online
              (HttpJsonStrategy.ingest Samples.runtime (js "https://api.test/data")))
       = [EvFetch (js "https://api.test/data");
          EvResponseText (js "https://api.test/data")].
Proof.
  exact (http_success_sound Samples.runtime Worlds.online (js "https://api.test/data")
           (js "{}") eq_refl).
Defined.

(** X14.  A failure of the remote strategy is of one of seven kinds
    ([invalid_url], [network_error], [authentication_required],
    [rate_limit_exceeded], [server_error], [content_too_large],
    [invalid_json]), never a [file_not_found], a [validation_error] or an
    [unsupported_content_type]; it is an [invalid_url] exactly when the run
    touched the network not at all; and every run is empty, a fetch alone,
    or a fetch followed by one read of the body. *)
Theorem http_failure_kinds (rt : Runtime) (w : World) (source : jsstring) :
  (forall e, fst (run w (HttpJsonStrategy.ingest rt source)) = Failure e ->
             In (type e) httpFailureKinds
             /\ (type e = invalid_url
                 <-> snd (run w (HttpJsonStrategy.ingest rt source)) = []))
  /\ (snd (run w (HttpJsonStrategy.ingest rt source)) = []
      \/ snd (run w (HttpJsonStrategy.ingest rt source)) = [EvFetch source]
      \/ snd (run w (HttpJsonStrategy.ingest rt source))
         = [EvFetch source; EvResponseText source]).
Proof.
  split.
  - destruct (http_run_cases rt w source)
      as [[e [-> Hkind]]|[[e [t [-> [Hkind Hurl]]]]|[protocol [response [text [-> _]]]]]];
      cbn [fst snd]; intros e' E; try discriminate; injection E as <-.
    + split; [rewrite Hkind; left; reflexivity|]. split; [reflexivity|intros _; exact Hkind].
    + split; [exact Hkind|]. split; [intros H; contradiction|discriminate].
  - unfold HttpJsonStrategy.ingest.
    destruct (URL_protocol rt source) as [protocol|error]; [|left; reflexivity].
    destruct (negb (JsString.eqb protocol (js "http:"))
              && negb (JsString.eqb protocol (js "https:"))); [left; reflexivity|].
    cbn [run io_bind fetch].
    destruct (response_of w source) as [response|error];
      [|right; left; reflexivity].
    destruct (negb (ok response)).
    + unfold HttpJsonStrategy.rejectStatus.
      destruct ((status response =? 401) || (status response =? 403)).
      * right; right. reflexivity.
      * right; left.
        destruct (status response =? 429); [reflexivity|].
        destruct (status response >=? 500); reflexivity.
    + unfold HttpJsonStrategy.acceptBody.
      destruct (HttpJsonStrategy.declaredTooLarge response source);
        [right; left; reflexivity|].
      right; right. unfold HttpJsonStrategy.readBody.
      cbn [run io_bind response_text].
      destruct (body_of w source) as [content|error]; [|reflexivity].
      destruct (utf8Length content >? HttpJsonStrategy.maxResponseSize); [reflexivity|].
      destruct (validateJsonContent rt content); reflexivity.
Qed.

(** ** The registry of strategies *)

Lemma find_append {A} (p : A -> bool) (l1 l2 : list A) :
  find p (l1 ++ l2) = match find p l1 with Some x => Some x | None => find p l2 end.
Proof.
  induction l1 as [|a l1 IH]; [reflexivity|]. cbn [app find].
  destruct (p a); [reflexivity|exact IH].
Qed.

Lemma canHandle_complement (source : jsstring) :
  LocalFileStrategy.canHandle source = negb (HttpJsonStrategy.canHandle source).
Proof.
  unfold LocalFileStrategy.canHandle, HttpJsonStrategy.canHandle. now rewrite negb_orb.
Qed.

Lemma findStrategy_new (rt : Runtime) (source : jsstring) :
  JsonIngestionContext.findStrategy (JsonIngestionContext.new rt) source
  = Some (if HttpJsonStrategy.canHandle source
          then HttpJsonStrategy.strategy rt
          else LocalFileStrategy.strategy rt).
Proof.
  unfold JsonIngestionContext.findStrategy. rewrite strategies_new.
  cbn [find LocalFileStrategy.strategy HttpJsonStrategy.strategy canHandle].
  rewrite canHandle_complement.
  destruct (HttpJsonStrategy.canHandle source); reflexivity.
Qed.

Lemma context_ingest_new (rt : Runtime) (source : jsstring) :
  JsonIngestionContext.ingest (JsonIngestionContext.new rt) source
  = (if HttpJsonStrategy.canHandle source
     then HttpJsonStrategy.ingest rt source
     else LocalFileStrategy.ingest rt source).
Proof.
  unfold JsonIngestionContext.ingest. rewrite findStrategy_new.
  destruct (HttpJsonStrategy.canHandle source); reflexivity.
Qed.

(** X15.  A strategy registered later has the lower priority: the
    search answers what it answered before whenever it found a strategy,
    and the new strategy only for a source no earlier one handles; the list
    of available strategies grows at its end.  After the two built-in
    strategies, which between them handle every source, a further strategy
    is never chosen. *)
Theorem register_lowest_priority (ctx : JsonIngestionContext.JsonIngestionContext)
        (strategy : JsonIngestionStrategy) (source : jsstring) :
  JsonIngestionContext.findStrategy
    (JsonIngestionContext.registerStrategy ctx strategy) source
  = match JsonIngestionContext.findStrategy ctx source with
    | Some found => Some found
    | None => if canHandle strategy source then Some strategy else None
    end
  /\ JsonIngestionContext.getAvailableStrategies
       (JsonIngestionContext.registerStrategy ctx strategy)
     = JsonIngestionContext.getAvailableStrategies ctx ++ [getMetadata strategy]
  /\ (forall rt,
        JsonIngestionContext.ingest
          (JsonIngestionContext.registerStrategy (JsonIngestionContext.new rt) strategy)
          source
        = JsonIngestionContext.ingest (JsonIngestionContext.new rt) source).
Proof.
  assert (forall c,
            JsonIngestionContext.findStrategy
              (JsonIngestionContext.registerStrategy c strategy) source
            = match JsonIngestionContext.findStrategy c source with
              | Some found => Some found
              | None => if canHandle strategy source then Some strategy else None
              end) as Hfind.
  { intros c. unfold JsonIngestionContext.findStrategy,
      JsonIngestionContext.registerStrategy.
    cbn [JsonIngestionContext.strategies]. rewrite find_append.
    destruct (find _ (JsonIngestionContext.strategies c)); [reflexivity|].
    cbn [find]. destruct (canHandle strategy source); reflexivity. }
  split; [apply Hfind|]. split.
  - unfold JsonIngestionContext.getAvailableStrategies,
      JsonIngestionContext.registerStrategy.
    cbn [JsonIngestionContext.strategies]. now rewrite map_app.
  - intros rt. unfold JsonIngestionContext.ingest at 1.
    rewrite Hfind, findStrategy_new. rewrite context_ingest_new.
    destruct (HttpJsonStrategy.canHandle source); reflexivity.
Qed.

(** ** The tools, end to end *)

Lemma run_io_bind {A B} (w : World) (m : IO A) (f : A -> IO B) :
  run w (io_bind m f)
  = (fst (run w (f (fst (run w m)))),
     snd (run w m) ++ snd (run w (f (fst (run w m))))).
Proof.
  induction m as [a|path k IH|path k IH|url k IH|url k IH]; cbn [io_bind run].
  - cbn [fst snd app]. destruct (run w (f a)); reflexivity.
  - rewrite IH. destruct (run w (k (stat_of w path))) as [a t]. reflexivity.
  - rewrite IH. destruct (run w (k (file_of w path))) as [a t]. reflexivity.
  - rewrite IH. destruct (run w (k (response_of w url))) as [a t]. reflexivity.
  - rewrite IH. destruct (run w (k (body_of w url))) as [a t]. reflexivity.
Qed.

(** Content that ingestion returns has been parsed once already. *)
Lemma ingest_success_parses (rt : Runtime) (w : World) (source content : jsstring) :
  fst (run w (JsonIngestionContext.ingest (JsonIngestionContext.new rt) source))
  = Success content ->
  exists v, JSON_parse rt content = Ok v.
Proof.
  rewrite context_ingest_new. destruct (HttpJsonStrategy.canHandle source).
  - destruct (http_run_cases rt w source)
      as [[e [-> _]]|[[e [t [-> _]]]|[protocol [response [text [-> H]]]]]];
      try discriminate.
    cbn [fst]. intros E; injection E as <-. apply H.
  - rewrite local_run.
    destruct (stat_of w (path_resolve rt source)) as [stats|error]; [|discriminate].
    destruct (size stats >? LocalFileStrategy.maxFileSize); [discriminate|].
    cbn [fst].
    destruct (file_of w (path_resolve rt source)) as [text|error]; [|discriminate].
    intros H. apply validateJsonContent_Success in H as [_ Hparse]. exact Hparse.
Qed.

Lemma ingest_never_validation_error (rt : Runtime) (w : World) (source : jsstring)
      (e : JsonIngestionError) :
  fst (run w (JsonIngestionContext.ingest (JsonIngestionContext.new rt) source))
  = Failure e ->
  type e <> validation_error.
Proof.
  rewrite context_ingest_new. destruct (HttpJsonStrategy.canHandle source).
  - apply http_never_validation_error.
  - apply local_never_validation_error.
Qed.

(** X16.  [processJsonFilter] performs the operations of ingestion and
    no other; it hands a failure of ingestion over unchanged; on content
    that ingestion returned, its own [JSON.parse] succeeds (its
    [Invalid JSON format] branch is never taken) and its answer is the
    shape applied to the parsed document.  So a [validation_error] of the
    filter always carries the message [Failed to apply shape filter]. *)
Theorem filter_outcomes (rt : Runtime) (w : World) (input : Index.JsonFilterInput) :
  snd (run w (Index.processJsonFilter rt input))
  = snd (run w (JsonIngestionContext.ingest (JsonIngestionContext.new rt)
                  (Index.filePath input)))
  /\ match fst (run w (JsonIngestionContext.ingest (JsonIngestionContext.new rt)
                         (Index.filePath input))) with
     | Failure e =>
         fst (run w (Index.processJsonFilter rt input)) = Index.FilterFailure e
     | Success content =>
         exists parsed,
           JSON_parse rt content = Ok parsed
           /\ fst (run w (Index.processJsonFilter rt input))
              = Index.applyShapeFilter parsed (Index.shape input)
     end
  /\ (forall e,
        fst (run w (Index.processJsonFilter rt input)) = Index.FilterFailure e ->
        type e = validation_error ->
        message e = js "Failed to apply shape filter").
Proof.
  unfold Index.processJsonFilter. rewrite run_io_bind. cbn [fst snd].
  destruct (fst (run w (JsonIngestionContext.ingest (JsonIngestionContext.new rt)
                          (Index.filePath input)))) as [content|e] eqn:E.
  - destruct (ingest_success_parses rt w _ _ E) as [parsed Hparse]. rewrite Hparse.
    cbn [run fst snd]. rewrite app_nil_r. split; [reflexivity|]. split.
    + exists parsed. split; reflexivity.
    + unfold Index.applyShapeFilter.
      destruct (extractWithShape (Index.shape input) parsed); [discriminate|].
      intros e' H _. injection H as <-. reflexivity.
  - cbn [run fst snd]. rewrite app_nil_r. split; [reflexivity|]. split; [reflexivity|].
    intros e' H Hkind. injection H as <-.
    exfalso. exact (ingest_never_validation_error rt w _ e E Hkind).
Qed.

(** X17.  Under a shape without the key [__proto__], at any depth, a
    dry run that succeeds announces a filter that succeeds, in the same
    world, for the same source and shape: the content was ingested and
    parsed, the breakdown is that of the parsed document against the
    shape, the total is the accounted size of the whole document, whatever
    the shape, and [processJsonFilter] answers the projection of that
    document. *)
Theorem dry_run_announces_filter (rt : Runtime) (w : World)
        (input : Index.JsonFilterInput) (b : Breakdown) (total : Z) :
  noProtoKey (Index.shape input) = true ->
  fst (run w (Index.processJsonDryRun rt input)) = Index.DryRunSuccess b total ->
  exists content parsed r,
    fst (run w (JsonIngestionContext.ingest (JsonIngestionContext.new rt)
                  (Index.filePath input))) = Success content
    /\ JSON_parse rt content = Ok parsed
    /\ calculateSizeWithShape (Index.shape input) parsed = Ok b
    /\ total = calculateValueSize parsed
    /\ extractWithShape (Index.shape input) parsed = Ok r
    /\ fst (run w (Index.processJsonFilter rt input)) = Index.FilterSuccess r.
Proof.
  intros _. unfold Index.processJsonDryRun, Index.processJsonFilter.
  rewrite !run_io_bind. cbn [fst snd].
  destruct (fst (run w (JsonIngestionContext.ingest (JsonIngestionContext.new rt)
                          (Index.filePath input)))) as [content|e] eqn:E;
    [|discriminate].
  destruct (JSON_parse rt content) as [parsed|error] eqn:Eparse; [|discriminate].
  cbn [run fst]. unfold Index.measure, Index.applyShapeFilter.
  destruct (calculateSizeWithShape (Index.shape input) parsed) as [b'|] eqn:Eb;
    [|discriminate].
  intros H; injection H as <- <-.
  destruct (calculateSizeWithShape_projects _ _ _ Eb) as [r Er].
  exists content, parsed, r. rewrite Er. repeat split; try assumption; reflexivity.
Qed.

Lemma dry_run_announces_filter_witness :
  exists content parsed r,
    fst (run (Worlds.disk 2)
           (JsonIngestionContext.ingest (JsonIngestionContext.new Samples.runtime)
              (js "a.json"))) = Success content
    /\ JSON_parse Samples.runtime content = Ok parsed
    /\ calculateSizeWithShape Samples.nameAndAge parsed = Ok (BObj [])
    /\ 2 = calculateValueSize parsed
    /\ extractWithShape Samples.nameAndAge parsed = Ok r
    /\ fst (run (Worlds.disk 2)
              (Index.processJsonFilter Samples.runtime
                 {| Index.filePath := js "a.json"; Index.shape := Samples.nameAndAge |}))
       = Index.FilterSuccess r.
Proof.
  exact (dry_run_announces_filter Samples.runtime (Worlds.disk 2)
           {| Index.filePath := js "a.json"; Index.shape := Samples.nameAndAge |}
           (BObj []) 2 eq_refl eq_refl).
Defined.

(** ** The earlier HTTPS strategy *)

Lemma ok_not_429 (response : Response) :
  ok response = true -> (status response =? 429) = false.
Proof.
  unfold ok. intros H. apply andb_true_iff in H as [_ H]. apply Z.leb_le in H.
  apply Z.eqb_neq. lia.
Qed.

(** The run of the earlier HTTPS strategy on a response it received. *)
Lemma https_run_ok (rt : Runtime) (w : World) (source : jsstring)
      (response : Response) :
  URL_protocol rt source = Ok (js "https:") ->
  response_of w source = Ok response ->
  ok response = true ->
  run w (HttpsJsonStrategy.ingest rt source)
  = (match body_of w source with
     | Throw error =>
         Failure {| type := network_error;
                    message := js "Failed to read response content";
                    details := DetailsThrown error |}
     | Ok content =>
         match validateJsonContent rt content with
         | Failure _ => Failure (HttpsJsonStrategy.notJson response source content)
         | validation => validation
         end
     end,
     [EvFetch source; EvResponseText source]).
Proof.
  intros Hurl Hresp Hok. unfold HttpsJsonStrategy.ingest. rewrite Hurl.
  cbn [JsString.eqb negb]. change (JsString.eqb (js "https:") (js "https:")) with true.
  cbn [negb run io_bind fetch]. rewrite Hresp, Hok, (ok_not_429 response Hok).
  cbn [negb run io_bind response_text].
  destruct (body_of w source) as [content|error]; [|reflexivity].
  destruct (validateJsonContent rt content); reflexivity.
Qed.

(** X18.  In the earlier HTTPS strategy the test of the status 429
    comes after the return on a response that is not [ok], so it is never
    reached: the strategy never answers [rate_limit_exceeded], and reports
    a 429 as a [network_error] whose message is [HTTP 429: ] followed by
    the status text. *)
Theorem https_rate_limit_unreachable (rt : Runtime) (w : World) (source : jsstring) :
  (forall e, fst (run w (HttpsJsonStrategy.ingest rt source)) = Failure e ->
             type e <> rate_limit_exceeded)
  /\ (forall response,
        URL_protocol rt source = Ok (js "https:") ->
        response_of w source = Ok response ->
        status response = 429 ->
        exists e,
          run w (HttpsJsonStrategy.ingest rt source) = (Failure e, [EvFetch source])
          /\ type e = network_error
          /\ message e = js "HTTP " ++ ofInt 429 ++ js ": " ++ statusText response).
Proof.
  split.
  - intros e. unfold HttpsJsonStrategy.ingest.
    destruct (URL_protocol rt source) as [protocol|error]; [|failure_kind].
    destruct (negb (JsString.eqb protocol (js "https:"))); [failure_kind|].
    cbn [run io_bind fetch].
    destruct (response_of w source) as [response|error].
    2:{ unfold HttpsJsonStrategy.fetchFailed.
        destruct error as [err|text];
          [destruct (JsString.eqb (err_name err) (js "AbortError"))|];
          failure_kind. }
    destruct (ok response) eqn:Eok; cbn [negb]; [|failure_kind].
    rewrite (ok_not_429 response Eok). cbn [run io_bind response_text].
    destruct (body_of w source) as [content|error]; [|failure_kind].
    unfold validateJsonContent. destruct (JSON_parse rt content); failure_kind.
  - intros response Hurl Hresp Hstatus. unfold HttpsJsonStrategy.ingest. rewrite Hurl.
    change (JsString.eqb (js "https:") (js "https:")) with true.
    cbn [negb run io_bind fetch]. rewrite Hresp.
    assert (ok response = false) as ->.
    { unfold ok. rewrite Hstatus. reflexivity. }
    cbn [negb run]. eexists. split; [reflexivity|]. cbn [type message].
    rewrite Hstatus. split; reflexivity.
Qed.

(** X19.  The current remote strategy extends the earlier HTTPS one:
    it handles every source the earlier one handles; whenever it succeeds
    on an [https:] URL the earlier one succeeds too, with the same content;
    and whenever the earlier one succeeds, the current one answers the same
    content or refuses it as [content_too_large]. *)
Theorem http_extends_https (rt : Runtime) (w : World) (source : jsstring) :
  (HttpsJsonStrategy.canHandle source = true -> HttpJsonStrategy.canHandle source = true)
  /\ (forall content,
        URL_protocol rt source = Ok (js "https:") ->
        fst (run w (HttpJsonStrategy.ingest rt source)) = Success content ->
        fst (run w (HttpsJsonStrategy.ingest rt source)) = Success content)
  /\ (forall content,
        fst (run w (HttpsJsonStrategy.ingest rt source)) = Success content ->
        fst (run w (HttpJsonStrategy.ingest rt source)) = Success content
        \/ exists e, fst (run w (HttpJsonStrategy.ingest rt source)) = Failure e
                     /\ type e = content_too_large).
Proof.
  split; [|split].
  - unfold HttpsJsonStrategy.canHandle, HttpJsonStrategy.canHandle.
    destruct (startsWith source (js "https://")); [intros _; apply orb_true_r|discriminate].
  - intros content Hurl.
    destruct (http_run_cases rt w source)
      as [[e [-> _]]|[[e [t [-> _]]]|[protocol [response [text [-> H]]]]]];
      try discriminate.
    cbn [fst]. intros E; injection E as <-.
    destruct H as [_ [_ [Hresp [Hok [_ [Hbody [_ [v Hparse]]]]]]]].
    rewrite (https_run_ok rt w source response Hurl Hresp Hok), Hbody. cbn [fst].
    unfold validateJsonContent. rewrite Hparse. reflexivity.
  - intros content. unfold HttpsJsonStrategy.ingest at 1.
    destruct (URL_protocol rt source) as [protocol|error] eqn:Eurl; [|discriminate].
    destruct (JsString.eqb protocol (js "https:")) eqn:Eproto; cbn [negb];
      [|discriminate].
    apply eqb_eq in Eproto. subst protocol.
    cbn [run io_bind fetch].
    destruct (response_of w source) as [response|error] eqn:Eresp.
    2:{ unfold HttpsJsonStrategy.fetchFailed.
        destruct error as [err|text];
          [destruct (JsString.eqb (err_name err) (js "AbortError"))|];
          discriminate. }
    destruct (ok response) eqn:Eok; cbn [negb]; [|discriminate].
    rewrite (ok_not_429 response Eok). cbn [run io_bind response_text].
    destruct (body_of w source) as [text|error] eqn:Ebody; [|discriminate].
    destruct (validateJsonContent rt text) as [text'|e] eqn:Evalid; [|discriminate].
    cbn [run fst]. intros E; injection E as ->.
    rewrite (http_response_reached rt w source (js "https:") response Eurl
               (or_intror eq_refl) Eresp).
    rewrite Eok. cbn [negb fst].
    unfold HttpJsonStrategy.acceptBody.
    destruct (HttpJsonStrategy.declaredTooLarge response source) as [e|] eqn:Edecl.
    { right. exists e. split; [reflexivity|].
      unfold HttpJsonStrategy.declaredTooLarge in Edecl.
      destruct (headers_get response (js "content-length")) as [[|c s]|];
        try discriminate.
      destruct (HttpJsonStrategy.parseInt10 (c :: s)) as [n|]; [|discriminate].
      destruct (n >? HttpJsonStrategy.maxResponseSize); [|discriminate].
      injection Edecl as <-. reflexivity. }
    unfold HttpJsonStrategy.readBody. cbn [run io_bind response_text]. rewrite Ebody.
    destruct (utf8Length text >? HttpJsonStrategy.maxResponseSize).
    { right. eexists. split; reflexivity. }
    rewrite Evalid. left. reflexivity.
Qed.

(** ** The breakdown within the total *)

Lemma utf8Length_nonneg (s : jsstring) : 0 <= utf8Length s.
Proof.
  assert (forall n s, (List.length s <= n)%nat -> 0 <= utf8Length s) as H.
  { induction n as [|n IH]; intros [|c rest] Hlen; simpl in Hlen;
      try (apply Z.le_refl); try lia.
    assert (0 <= utf8Length rest) by (apply IH; lia).
    rewrite utf8Length_cons.
    destruct (N.ltb c 128); [lia|]. destruct (N.ltb c 2048); [lia|].
    destruct (isHighSurrogate c); [|lia].
    destruct rest as [|d rest']; [lia|].
    destruct (isLowSurrogate d); [|lia].
    assert (0 <= utf8Length rest') by (apply IH; simpl in Hlen; lia). lia. }
  apply (H (List.length s)). lia.
Qed.

Lemma sumZ_cons (x : Z) (l : list Z) : sumZ (x :: l) = x + sumZ l.
Proof. reflexivity. Qed.

Lemma sumZ_app (l1 l2 : list Z) : sumZ (l1 ++ l2) = sumZ l1 + sumZ l2.
Proof.
  induction l1 as [|x l1 IH]; [reflexivity|].
  cbn [app]. rewrite !sumZ_cons, IH. lia.
Qed.

Lemma sumZ_nonneg (l : list Z) : Forall (fun x => 0 <= x) l -> 0 <= sumZ l.
Proof. induction 1; [apply Z.le_refl|]. rewrite sumZ_cons. lia. Qed.

Lemma sumZ_map_le {A} (f g h : A -> Z) (l : list A) :
  Forall (fun a => f a <= g a + h a) l ->
  sumZ (map f l) <= sumZ (map g l) + sumZ (map h l).
Proof.
  induction 1 as [|a l Ha _ IH]; [apply Z.le_refl|].
  cbn [map]. rewrite !sumZ_cons. lia.
Qed.

Lemma sumZ_map_zero {A} (f : A -> Z) (l : list A) :
  Forall (fun a => f a = 0) l -> sumZ (map f l) = 0.
Proof.
  induction 1 as [|a l Ha _ IH]; [reflexivity|].
  cbn [map]. rewrite sumZ_cons. lia.
Qed.

Lemma sumZ_separated {A} (g f : A -> Z) (l : list A) :
  Forall (fun a => g a <= f a) l -> sumZ (map g l) <= separated f l.
Proof.
  induction 1 as [|a l Ha _ IH]; [apply Z.le_refl|].
  cbn [map]. rewrite sumZ_cons.
  change (separated f (a :: l))
    with (f a + (match l with [] => 0 | _ => 1 end) + separated f l).
  destruct l; lia.
Qed.

Lemma separated_nonneg {A} (f : A -> Z) (l : list A) :
  Forall (fun a => 0 <= f a) l -> 0 <= separated f l.
Proof.
  induction 1 as [|a l Ha _ IH]; [apply Z.le_refl|].
  change (separated f (a :: l))
    with (f a + (match l with [] => 0 | _ => 1 end) + separated f l).
  destruct l; lia.
Qed.

Lemma calculateValueSize_nonneg (v : JsValue) : 0 <= calculateValueSize v.
Proof.
  induction v as [| |b|n|s|items IH|props IH] using JsValue_ind;
    try (apply utf8Length_nonneg); try (apply Z.le_refl).
  - rewrite calculateValueSize_array.
    apply Z.add_nonneg_nonneg; [lia|]. apply separated_nonneg. exact IH.
  - rewrite calculateValueSize_object.
    apply Z.add_nonneg_nonneg; [lia|]. apply separated_nonneg.
    apply Forall_forall. intros [k x] Hin.
    apply filter_In in Hin as [Hin _]. rewrite Forall_forall in IH.
    pose proof (IH (k, x) Hin) as Hx. cbn [fst snd] in Hx |- *.
    pose proof (utf8Length_nonneg (34%N :: k ++ [34%N])). lia.
Qed.

(** The values of a document add up to no more than the document. *)
Lemma object_content_le (props : Props) :
  sumZ (map (fun e => calculateValueSize (snd e)) props)
  <= calculateValueSize (JObject props).
Proof.
  rewrite calculateValueSize_object.
  assert (sumZ (map (fun e : jsstring * JsValue => calculateValueSize (snd e)) props)
          = sumZ (map (fun e : jsstring * JsValue => calculateValueSize (snd e))
                      (filter (fun e => negb (isUndefined (snd e))) props))) as ->.
  { induction props as [|[k x] props IH]; [reflexivity|].
    cbn [map filter snd]. destruct x; cbn [isUndefined negb map snd];
      rewrite !sumZ_cons, IH; reflexivity. }
  match goal with
  | |- sumZ (map ?g ?l) <= 2 + separated ?f ?l =>
      assert (sumZ (map g l) <= separated f l); [|lia]
  end.
  apply sumZ_separated. apply Forall_forall. intros [k x] _. cbn [fst snd].
  match goal with
  | |- _ <= utf8Length ?t + 1 + _ => pose proof (utf8Length_nonneg t)
  end.
  lia.
Qed.

Lemma array_content_le (items : list JsValue) :
  sumZ (map calculateValueSize items) <= calculateValueSize (JArray items).
Proof.
  rewrite calculateValueSize_array.
  assert (sumZ (map calculateValueSize items) <= separated calculateValueSize items);
    [|lia].
  apply sumZ_separated. apply Forall_forall. intros; apply Z.le_refl.
Qed.

Lemma sumZ_indicator (c : Z) (k0 : jsstring) (ks : list jsstring) :
  0 <= c -> NoDup ks ->
  sumZ (map (fun k => if JsString.eqb k0 k then c else 0) ks) <= c.
Proof.
  intros Hc. induction 1 as [|k ks Hk _ IH]; [exact Hc|].
  cbn [map]. rewrite sumZ_cons. destruct (JsString.eqb k0 k) eqn:E; [|lia].
  apply eqb_eq in E. subst k.
  rewrite sumZ_map_zero; [lia|]. apply Forall_forall. intros k Hin.
  destruct (JsString.eqb k0 k) eqn:E; [|reflexivity].
  apply eqb_eq in E. subst k. contradiction.
Qed.

(** What distinct keys find in an object adds up to no more than what
    the object holds. *)
Lemma sum_lookup_le {V} (g : V -> Z) (props : list (jsstring * V))
      (ks : list jsstring) :
  Forall (fun e => 0 <= g (snd e)) props -> NoDup ks ->
  sumZ (map (fun k => match lookup k props with Some v => g v | None => 0 end) ks)
  <= sumZ (map (fun e => g (snd e)) props).
Proof.
  intros Hpos Hks. induction Hpos as [|[k0 v0] props H0 Hrest IH].
  - cbn [lookup map]. rewrite sumZ_map_zero; [apply Z.le_refl|].
    apply Forall_forall. reflexivity.
  - cbn [map snd] in *. rewrite sumZ_cons.
    pose proof (sumZ_indicator (g v0) k0 ks H0 Hks) as Hind.
    assert (sumZ (map (fun k => match lookup k ((k0, v0) :: props) with
                                | Some v => g v
                                | None => 0
                                end) ks)
            <= sumZ (map (fun k => if JsString.eqb k0 k then g v0 else 0) ks)
               + sumZ (map (fun k => match lookup k props with
                                     | Some v => g v
                                     | None => 0
                                     end) ks)) as Hsplit.
    { apply sumZ_map_le. apply Forall_forall. intros k _. cbn [lookup].
      destruct (JsString.eqb k0 k); [|lia].
      destruct (lookup k props) as [v|] eqn:E; [|lia].
      apply lookup_In in E. rewrite Forall_forall in Hrest.
      pose proof (Hrest (k, v) E) as Hv. cbn [snd] in Hv. lia. }
    lia.
Qed.

Lemma uniqueKeys_NoDup (ks : list jsstring) : uniqueKeys ks = true -> NoDup ks.
Proof.
  induction ks as [|k ks IH]; intros H; constructor.
  - apply uniqueKeys_cons in H. apply H.
  - apply IH. apply uniqueKeys_cons in H. apply H.
Qed.

Lemma nonNegative_total (b : Breakdown) : nonNegative b = true -> 0 <= breakdownTotal b.
Proof.
  induction b as [n|props IH|name] using Breakdown_ind;
    cbn [nonNegative breakdownTotal].
  - apply Z.leb_le.
  - intros H. rewrite forallb_forall in H. apply sumZ_nonneg.
    apply Forall_forall. intros x Hx. apply in_map_iff in Hx as [e [<- He]].
    rewrite Forall_forall in IH. apply (IH e He). apply (H e He).
  - intros _. apply Z.le_refl.
Qed.

Lemma breakdownTotal_tabulate (f : jsstring -> Breakdown) (ks : list jsstring) :
  breakdownTotal (BObj (map (fun key => (key, f key)) ks))
  = sumZ (map (fun key => breakdownTotal (f key)) ks).
Proof. cbn [breakdownTotal]. rewrite map_map. reflexivity. Qed.

(** A read counts what the object owns: an inherited member holds no
    size. *)
Lemma orZero_total (props : list (jsstring * Breakdown)) (k : jsstring) :
  breakdownTotal (orZero (getMember props k))
  = match lookup k props with Some v => breakdownTotal v | None => 0 end.
Proof.
  unfold getMember. destruct (lookup k props); [rewrite orZero_Some; reflexivity|].
  destruct (inheritedMember k); reflexivity.
Qed.

Lemma orZero_nonNegative (props : list (jsstring * Breakdown)) (k : jsstring) :
  nonNegative (BObj props) = true -> nonNegative (orZero (getMember props k)) = true.
Proof.
  cbn [nonNegative]. intros H. unfold getMember.
  destruct (lookup k props) as [v|] eqn:E.
  - rewrite orZero_Some. rewrite forallb_forall in H.
    apply (H (k, v)). apply lookup_In. exact E.
  - destruct (inheritedMember k); reflexivity.
Qed.

(** The last [return] of the merge keeps one of its two sides, or 0. *)
Lemma orElse_total (a b : Breakdown) :
  nonNegative a = true -> nonNegative b = true ->
  nonNegative (orElse a (orElse b (BNum 0))) = true
  /\ breakdownTotal (orElse a (orElse b (BNum 0))) <= breakdownTotal a + breakdownTotal b.
Proof.
  intros Ha Hb.
  pose proof (nonNegative_total _ Ha). pose proof (nonNegative_total _ Hb).
  unfold orElse. destruct (truthy a); [split; [exact Ha|lia]|].
  destruct (truthy b); [split; [exact Hb|lia]|].
  split; [reflexivity|]. change (breakdownTotal (BNum 0)) with 0. lia.
Qed.

(** A merge holds no more than its two sides together. *)
Lemma addSizeBreakdowns_total (a : Breakdown) :
  forall b, nonNegative a = true -> nonNegative b = true ->
    nonNegative (addSizeBreakdowns a b) = true
    /\ breakdownTotal (addSizeBreakdowns a b) <= breakdownTotal a + breakdownTotal b.
Proof.
  induction a as [n|oa IH|name] using Breakdown_ind; intros b Ha Hb.
  - destruct b as [m|ob|name]; simp addSizeBreakdowns;
      [|apply orElse_total; assumption..].
    cbn [nonNegative breakdownTotal] in *.
    apply Z.leb_le in Ha. apply Z.leb_le in Hb. split; [apply Z.leb_le; lia|lia].
  - destruct b as [m|ob|name]; simp addSizeBreakdowns;
      [apply orElse_total; assumption| |apply orElse_total; assumption].
    assert (forall k,
              nonNegative (addSizeBreakdowns (orZero (getMember oa k))
                                             (orZero (getMember ob k))) = true
              /\ breakdownTotal (addSizeBreakdowns (orZero (getMember oa k))
                                                   (orZero (getMember ob k)))
                 <= breakdownTotal (orZero (getMember oa k))
                    + breakdownTotal (orZero (getMember ob k))) as Hk.
    { intros k. pose proof (orZero_nonNegative ob k Hb) as Hbk.
      unfold getMember at 1 3 5. destruct (lookup k oa) as [v|] eqn:E.
      - rewrite orZero_Some. rewrite Forall_forall in IH.
        apply (IH (k, v) (lookup_In _ _ _ E)); [|exact Hbk].
        cbn [nonNegative] in Ha. rewrite forallb_forall in Ha.
        apply (Ha (k, v)). apply lookup_In. exact E.
      - destruct (inheritedMember k).
        + rewrite orZero_Some.
          destruct (orZero (getMember ob k)); simp addSizeBreakdowns;
            apply orElse_total; first [exact Hbk|reflexivity].
        + cbn [orZero]. rewrite addSizeBreakdowns_zero_l.
          split; [exact Hbk|]. change (breakdownTotal (BNum 0)) with 0. lia. }
    split.
    + cbn [nonNegative]. apply forallb_forall. intros e He.
      apply in_map_iff in He as [k [<- _]]. cbn [snd]. apply Hk.
    + rewrite breakdownTotal_tabulate.
      assert (sumZ (map (fun key => breakdownTotal
                                      (addSizeBreakdowns (orZero (getMember oa key))
                                                         (orZero (getMember ob key))))
                        (allKeys oa ob))
              <= sumZ (map (fun key => breakdownTotal (orZero (getMember oa key)))
                           (allKeys oa ob))
                 + sumZ (map (fun key => breakdownTotal (orZero (getMember ob key)))
                             (allKeys oa ob))) as Hsplit.
      { apply sumZ_map_le. apply Forall_forall. intros k _. apply Hk. }
      assert (forall o, nonNegative (BObj o) = true ->
                sumZ (map (fun key => breakdownTotal (orZero (getMember o key)))
                          (allKeys oa ob))
                <= breakdownTotal (BObj o)) as Hside.
      { intros o Ho. cbn [breakdownTotal].
        erewrite map_ext; [|intros k; apply orZero_total].
        apply (sum_lookup_le breakdownTotal); [|apply NoDup_setOf].
        apply Forall_forall. intros e He. apply nonNegative_total.
        cbn [nonNegative] in Ho. rewrite forallb_forall in Ho. apply (Ho e He). }
      pose proof (Hside oa Ha). pose proof (Hside ob Hb). lia.
  - destruct b as [m|ob|name']; simp addSizeBreakdowns; apply orElse_total; assumption.
Qed.

Lemma mergeAll_total (bs : list Breakdown) :
  Forall (fun b => nonNegative b = true) bs ->
  nonNegative (mergeAll bs) = true
  /\ breakdownTotal (mergeAll bs) <= sumZ (map breakdownTotal bs).
Proof.
  destruct 1 as [|first rest Hfirst Hrest]; [split; [reflexivity|apply Z.le_refl]|].
  cbn [mergeAll map]. rewrite sumZ_cons.
  revert first Hfirst. induction Hrest as [|b rest Hb _ IH]; intros first Hfirst.
  - cbn [fold_left map]. split; [exact Hfirst|]. change (sumZ []) with 0. lia.
  - cbn [fold_left map]. rewrite sumZ_cons.
    destruct (addSizeBreakdowns_total first b Hfirst Hb) as [Hnn Hle].
    destruct (IH _ Hnn) as [Hnn' Hle']. split; [exact Hnn'|]. lia.
Qed.

Lemma getProp_string_named (s key : jsstring) :
  stringKey key = false -> getProp (JString s) key = Ok JUndefined.
Proof.
  unfold stringKey. intros H. apply orb_false_iff in H as [H1 H2].
  cbn [getProp]. rewrite H1. destruct (arrayIndex key); [discriminate|reflexivity].
Qed.

(** The loop of the accountant adds, for every entry, no more than the
    document holds under the key of the entry. *)
Lemma forIn_measureEntry_total (data : JsValue) (es : list (jsstring * Rule Shape)) :
  uniqueKeys (map fst es) = true ->
  Forall (fun e => match snd e with
                   | RShape sub =>
                       forall v b, calculateSizeWithShape sub v = Ok b ->
                                   nonNegative b = true
                                   /\ breakdownTotal b <= calculateValueSize v
                   | _ => True
                   end) es ->
  forall acc acc',
    (forall k, In k (map fst es) -> lookup k acc = None) ->
    nonNegative (BObj acc) = true ->
    forIn (measureEntry data) es acc = Ok acc' ->
    nonNegative (BObj acc') = true
    /\ breakdownTotal (BObj acc')
       <= breakdownTotal (BObj acc) + sumZ (map (fun e => weight data (fst e)) es).
Proof.
  intros Hu Hsubs. revert Hu.
  induction Hsubs as [|[k0 rule0] es Hsub _ IH]; intros Hu acc acc' Hfresh Hacc Hrun.
  - cbn [forIn] in Hrun. injection Hrun as <-. split; [exact Hacc|].
    cbn [map]. change (sumZ []) with 0. lia.
  - cbn [map fst] in Hu. apply uniqueKeys_cons in Hu as [Hk0 Hu].
    rewrite forIn_cons, measureEntry_effect in Hrun.
    destruct (measureEffect data (k0, rule0)) as [eff0|] eqn:Eeff; [|discriminate].
    cbn [fmap bind] in Hrun. cbn [map fst]. rewrite sumZ_cons.
    assert (lookup k0 acc = None) as Hk0acc by (apply Hfresh; left; reflexivity).
    assert (0 <= weight data k0) as Hweight.
    { unfold weight. destruct (getProp data k0); [apply calculateValueSize_nonneg|lia]. }
    assert (nonNegative (BObj (assignSize acc eff0)) = true
            /\ breakdownTotal (BObj (assignSize acc eff0))
               <= breakdownTotal (BObj acc) + weight data k0) as [Hnn Hle].
    { destruct eff0 as [[k2 b0]|]; cbn [assignSize]; [|split; [exact Hacc|lia]].
      pose proof (measureEffect_key _ _ _ _ Eeff) as Ek. cbn [fst] in Ek. subst k2.
      rewrite (objSet_fresh _ _ _ Hk0acc).
      assert (nonNegative b0 = true /\ breakdownTotal b0 <= weight data k0) as [Hb0 Hle0].
      { unfold measureEffect in Eeff. unfold weight.
        destruct (getProp data k0) as [v|]; [|discriminate]. cbn [bind] in Eeff.
        destruct (isUndefined v); [discriminate|].
        destruct rule0 as [|sub|]; try discriminate.
        - injection Eeff as <-. cbn [nonNegative breakdownTotal].
          split; [apply Z.leb_le, calculateValueSize_nonneg|apply Z.le_refl].
        - cbn [snd] in Hsub.
          destruct (calculateSizeWithShape sub v) as [r|] eqn:Er; [|discriminate].
          cbn [bind] in Eeff. injection Eeff as <-. apply (Hsub v r Er). }
      cbn [nonNegative breakdownTotal] in Hacc |- *.
      rewrite forallb_app, map_app, sumZ_app. cbn [forallb map snd].
      rewrite Hacc, Hb0. split; [reflexivity|].
      rewrite sumZ_cons. change (sumZ []) with 0. lia. }
    assert (forall k, In k (map fst es) -> lookup k (assignSize acc eff0) = None)
      as Hfresh'.
    { intros k Hk. destruct eff0 as [[k2 v]|]; cbn [assignSize].
      - apply measureEffect_key in Eeff. cbn [fst] in Eeff. subst k2.
        rewrite lookup_objSet. destruct (JsString.eqb k0 k) eqn:E.
        + apply eqb_eq in E. subst k. contradiction.
        + apply Hfresh. right; exact Hk.
      - apply Hfresh. right; exact Hk. }
    destruct (IH Hu _ _ Hfresh' Hnn Hrun) as [Hnn' Hle']. split; [exact Hnn'|]. lia.
Qed.

(** What a value that is not an array holds under distinct keys adds up
    to no more than the value, when no key is a key of a string. *)
Lemma weights_le (data : JsValue) (ks : list jsstring) :
  isArray data = false ->
  NoDup ks ->
  Forall (fun k => stringKey k = false) ks ->
  sumZ (map (weight data) ks) <= calculateValueSize data.
Proof.
  intros Harr Hks Hnamed.
  assert (Forall (fun k => weight data k = 0) ks ->
          sumZ (map (weight data) ks) <= calculateValueSize data) as Hzero.
  { intros H. rewrite sumZ_map_zero by exact H. apply calculateValueSize_nonneg. }
  destruct data as [| |flag|n|s|items|props]; try discriminate;
    try (apply Hzero; apply Forall_forall; intros; reflexivity).
  - apply Hzero. eapply Forall_impl; [|exact Hnamed]. intros k Hk.
    unfold weight. rewrite (getProp_string_named s k Hk). reflexivity.
  - apply Z.le_trans with (sumZ (map (fun e => calculateValueSize (snd e)) props));
      [|apply object_content_le].
    erewrite map_ext; [apply (sum_lookup_le calculateValueSize props ks); [|exact Hks]|].
    + apply Forall_forall. intros; apply calculateValueSize_nonneg.
    + intros k. unfold weight. cbn [getProp].
      destruct (lookup k props); reflexivity.
Qed.

Lemma calculateSizeWithShape_total (shape : Shape) :
  wfShape shape = true ->
  namedShape shape = true ->
  forall data b, calculateSizeWithShape shape data = Ok b ->
                 nonNegative b = true /\ breakdownTotal b <= calculateValueSize data.
Proof.
  induction shape as [es IHes] using Shape_ind. intros Hwf Hnamed.
  cbn [wfShape] in Hwf. apply andb_true_iff in Hwf as [Hu Hsubs].
  cbn [namedShape] in Hnamed.
  rewrite forallb_forall in Hsubs, Hnamed. rewrite Forall_forall in IHes.
  assert (forall data b, isArray data = false ->
            calculateSizeWithShape (MkShape es) data = Ok b ->
            nonNegative b = true /\ breakdownTotal b <= calculateValueSize data)
    as Hobject.
  { intros data b Harr Hrun.
    assert (calculateSizeWithShape (MkShape es) data
            = fmap BObj (forIn (measureEntry data) es [])) as E
        by (destruct data; try reflexivity; discriminate).
    rewrite E in Hrun. clear E.
    destruct (forIn (measureEntry data) es []) as [acc|] eqn:Eacc; [|discriminate].
    injection Hrun as <-.
    destruct (forIn_measureEntry_total data es Hu) with (acc := @nil (jsstring * Breakdown))
                                                        (acc' := acc)
      as [Hnn Hle]; try reflexivity; try assumption.
    { apply Forall_forall. intros [k rule] Hin. cbn [snd].
      destruct rule as [|sub|]; try exact I.
      pose proof (Hnamed (k, RShape sub) Hin) as Hn. cbn [fst snd] in Hn.
      apply andb_true_iff in Hn as [_ Hn].
      apply (IHes (k, RShape sub) Hin (Hsubs (k, RShape sub) Hin) Hn). }
    split; [exact Hnn|].
    change (breakdownTotal (BObj [])) with 0 in Hle.
    assert (sumZ (map (fun e : jsstring * Rule Shape => weight data (fst e)) es)
            <= calculateValueSize data); [|lia].
    rewrite <- (map_map fst (weight data)).
    apply weights_le; [exact Harr|apply uniqueKeys_NoDup; exact Hu|].
    apply Forall_forall. intros k Hk. apply in_map_iff in Hk as [e [<- He]].
    pose proof (Hnamed e He) as Hn. apply andb_true_iff in Hn as [Hn _].
    apply negb_true_iff in Hn. exact Hn. }
  induction data as [| |flag|n|s|items IHitems|props _] using JsValue_ind; intros b;
    try (apply Hobject; reflexivity).
  rewrite calculateSizeWithShape_array_merge.
  destruct (mapM (calculateSizeWithShape (MkShape es)) items) as [bs|] eqn:E;
    [|discriminate].
  intros H; injection H as <-. apply mapM_Ok in E.
  assert (Forall (fun b => nonNegative b = true) bs
          /\ sumZ (map breakdownTotal bs) <= sumZ (map calculateValueSize items))
    as [Hnn Hle].
  { clear Hobject. rewrite Forall_forall in IHitems.
    induction E as [|item bi items bs Hitem _ IH]; [split; [constructor|apply Z.le_refl]|].
    destruct (IHitems item (or_introl eq_refl) bi Hitem) as [Hnn Hle].
    destruct IH as [Hnn' Hle']; [intros z Hz; apply IHitems; right; exact Hz|].
    split; [constructor; assumption|]. cbn [map]. rewrite !sumZ_cons. lia. }
  destruct (mergeAll_total bs Hnn) as [Hnn' Hle'].
  split; [exact Hnn'|]. pose proof (array_content_le items). lia.
Qed.

(** X20.  Against a shape with no repeated key, with no key that is a
    property of a string ([length] or an index) or the name of a member of
    [Object.prototype], at any depth, and that descends into objects and
    arrays of the document only, the sizes of a breakdown add up to no
    more than the size the accountant gives the whole document: the parts
    never exceed the total the dry run reports. *)
Theorem breakdown_within_total (shape : Shape) (data : JsValue) (b : Breakdown) :
  wfShape shape = true ->
  namedShape shape = true ->
  noInheritedKey shape = true ->
  descendsObjects shape data = true ->
  calculateSizeWithShape shape data = Ok b ->
  0 <= breakdownTotal b <= calculateValueSize data.
Proof.
  intros Hwf Hnamed _ _ Hrun.
  destruct (calculateSizeWithShape_total shape Hwf Hnamed data b Hrun) as [Hnn Hle].
  split; [apply nonNegative_total; exact Hnn|exact Hle].
Qed.

Lemma breakdown_within_total_witness :
  0 <= breakdownTotal (BObj [(js "users", BObj [(js "id", BNum 2)])])
    <= calculateValueSize Samples.users.
Proof.
  apply (breakdown_within_total Samples.userIds Samples.users).
  - reflexivity.
  - reflexivity.
  - reflexivity.
  - reflexivity.
  - vm_compute. reflexivity.
Defined.

(** The hypothesis on the keys of a string is needed: a string answers
    under its indices, one character each, and a character counts with
    its two quotes.  Of the document ["ab"] the breakdown under the keys [0] and
    [1] holds 3 and 3, while the document measures 4. *)
Lemma breakdown_exceeds_total_on_string :
  calculateSizeWithShape (MkShape [(js "0", RTrue); (js "1", RTrue)]) (Samples.str "ab")
  = Ok (BObj [(js "0", BNum 3); (js "1", BNum 3)])
  /\ calculateValueSize (Samples.str "ab") = 4.
Proof. split; reflexivity. Qed.

(** X21.  [processJsonDryRun] performs the operations of ingestion and
    no other; it hands a failure of ingestion over unchanged; on content
    that ingestion returned, its own [JSON.parse] succeeds and its answer
    is the measure of the parsed document.  So a [validation_error] of the
    dry run always carries the message
    [Failed to calculate size breakdown]. *)
Theorem dry_run_outcomes (rt : Runtime) (w : World) (input : Index.JsonFilterInput) :
  snd (run w (Index.processJsonDryRun rt input))
  = snd (run w (JsonIngestionContext.ingest (JsonIngestionContext.new rt)
                  (Index.filePath input)))
  /\ match fst (run w (JsonIngestionContext.ingest (JsonIngestionContext.new rt)
                         (Index.filePath input))) with
     | Failure e =>
         fst (run w (Index.processJsonDryRun rt input)) = Index.DryRunFailure e
     | Success content =>
         exists parsed,
           JSON_parse rt content = Ok parsed
           /\ fst (run w (Index.processJsonDryRun rt input))
              = Index.measure parsed (Index.shape input)
     end
  /\ (forall e,
        fst (run w (Index.processJsonDryRun rt input)) = Index.DryRunFailure e ->
        type e = validation_error ->
        message e = js "Failed to calculate size breakdown").
Proof.
  unfold Index.processJsonDryRun. rewrite run_io_bind. cbn [fst snd].
  destruct (fst (run w (JsonIngestionContext.ingest (JsonIngestionContext.new rt)
                          (Index.filePath input)))) as [content|e] eqn:E.
  - destruct (ingest_success_parses rt w _ _ E) as [parsed Hparse]. rewrite Hparse.
    cbn [run fst snd]. rewrite app_nil_r. split; [reflexivity|]. split.
    + exists parsed. split; reflexivity.
    + unfold Index.measure.
      destruct (calculateSizeWithShape (Index.shape input) parsed); [discriminate|].
      intros e' H _. injection H as <-. reflexivity.
  - cbn [run fst snd]. rewrite app_nil_r. split; [reflexivity|]. split; [reflexivity|].
    intros e' H Hkind. injection H as <-.
    exfalso. exact (ingest_never_validation_error rt w _ e E Hkind).
Qed.
